(** * Schema resolution of keystone lists: enablement, type graph, cascade

    A shallow embedding of [packages/core/src/lib/core/types-for-lists.ts]
    ([getIsEnabled], [getListsWithInitialisedFields], [getListGraphqlTypes],
    [initialiseLists]) and the properties of the resolved registry; then of
    [packages/core/src/admin-ui/utils/useAdminMeta.tsx], the runtime admin
    metadata of the client.

    Conventions of the embedding:
    - a JavaScript record ([Record<string, T>]) is an association list in
      [Object.entries] order; the keys of a JavaScript object are unique, and a
      loop that rebuilds a record entry by entry from [Object.entries] is a
      [map] over that list.  Where the source merges entries whose keys can
      clash ([Object.fromEntries] over a [flatMap], an object spread) the
      overwrite is written out with [obj_set];
    - a [throw] is the [Err] case of [result], and the loops stop at the first
      one, as the source does;
    - the [IsEnabled] objects are shared and mutated in place, so they live in
      a heap and every holder keeps an address. *)

From Stdlib Require Import List String Bool ZArith Lia.
Import ListNotations.
Open Scope string_scope.
Open Scope list_scope.

Set Warnings "-register-all".

(** ** JavaScript values *)

(** Plain data: no functions inside arrays and objects, so that nothing the
    resolver could call hides in a property. Numbers are integers. *)
Inductive JsData : Type :=
  | JUndefined
  | JNull
  | JBool (b : bool)
  | JNum (n : Z)
  | JStr (s : string)
  | JArr (items : list JsData)
  | JObj (props : list (string * JsData)).

(** A configuration value: plain data or a function. The resolver stores the
    functions it is given and never calls them; [label] tells them apart. *)
Inductive JsValue : Type :=
  | Data (d : JsData)
  | Fun (label : string).

Coercion Data : JsData >-> JsValue.

Inductive JsType : Type :=
  | TyUndefined | TyObject | TyBoolean | TyNumber | TyString | TyFunction.

(** [typeof x] *)
Definition typeof (x : JsValue) : JsType :=
  match x with
  | Data JUndefined => TyUndefined
  | Data JNull => TyObject
  | Data (JBool _) => TyBoolean
  | Data (JNum _) => TyNumber
  | Data (JStr _) => TyString
  | Data (JArr _) => TyObject
  | Data (JObj _) => TyObject
  | Fun _ => TyFunction
  end.

(** [!!x] *)
Definition truthy (x : JsValue) : bool :=
  match x with
  | Data JUndefined => false
  | Data JNull => false
  | Data (JBool b) => b
  | Data (JNum n) => negb (Z.eqb n 0)
  | Data (JStr s) => negb (String.eqb s "")
  | Data (JArr _) => true
  | Data (JObj _) => true
  | Fun _ => true
  end.

Definition is_nullish (x : JsValue) : bool :=
  match x with
  | Data JUndefined => true
  | Data JNull => true
  | _ => false
  end.

(** [a ?? b] *)
Definition nullish_or (a b : JsValue) : JsValue :=
  if is_nullish a then b else a.

(** [a && b] where [a] is a boolean *)
Definition bool_and (a : bool) (b : JsValue) : JsValue :=
  if a then b else Data (JBool false).

(** [x === true] *)
Definition is_true (x : JsValue) : bool :=
  match x with
  | Data (JBool true) => true
  | _ => false
  end.

(** [x === undefined] *)
Definition is_undefined (x : JsValue) : bool :=
  match x with
  | Data JUndefined => true
  | _ => false
  end.

Definition is_str (s : string) (d : JsData) : bool :=
  match d with
  | JStr t => String.eqb t s
  | _ => false
  end.

(** [s.includes(sub)] on strings *)
Definition str_includes (s sub : string) : bool :=
  match String.index 0 sub s with
  | Some _ => true
  | None => false
  end.

(** ** Errors *)

Inductive Error : Type :=
  (** [throwIfNotAFilter]: "Configuration option 'listKey.fieldKey' must be
      either a boolean value or a function. Received 'x'." *)
  | NotAFilter (listKey fieldKey : string) (received : JsValue)
  (** "The field at listKey.fieldKey does not provide a function" *)
  | NotAFunction (listKey fieldKey : string)
  (** a [TypeError] of the runtime: a property of [undefined] or [null] was
      read, or something that is not a function was called *)
  | TypeError (what : string)
  (** an error thrown by a collaborator ([parseListAccessControl],
      [resolveRelationships], [assertFieldsValid], ...) *)
  | Thrown (by_ : string).

Inductive result (A : Type) : Type :=
  | Ok (a : A)
  | Err (e : Error).

Arguments Ok {A} a.
Arguments Err {A} e.

Definition bind {A B : Type} (r : result A) (k : A -> result B) : result B :=
  match r with
  | Ok a => k a
  | Err e => Err e
  end.

Notation "x <- r ;; k" := (bind r (fun x => k))
  (at level 61, r at next level, right associativity).
Notation "r ;;; k" := (bind r (fun _ => k))
  (at level 61, right associativity).

Definition is_err {A : Type} (r : result A) : bool :=
  match r with
  | Ok _ => false
  | Err _ => true
  end.

(** A [for ... of] loop whose body may throw and which collects one value per
    entry. *)
Fixpoint mapM {A B : Type} (f : A -> result B) (l : list A) : result (list B) :=
  match l with
  | [] => Ok []
  | a :: l' =>
      b <- f a ;;
      bs <- mapM f l' ;;
      Ok (b :: bs)
  end.

(** [x.includes(op)], as far as the resolver meets it: [Array.prototype.includes]
    on an array (an element equals the string [op]), [String.prototype.includes]
    on a string (substring); every other value here has no [includes] to call. *)
Definition js_includes (x : JsValue) (op : string) : result bool :=
  match x with
  | Data (JArr items) => Ok (existsb (is_str op) items)
  | Data (JStr s) => Ok (str_includes s op)
  | _ => Err (TypeError "includes is not a function")
  end.

(** The values on which [includes] can be called. *)
Definition has_includes (x : JsValue) : bool :=
  match x with
  | Data (JArr _) | Data (JStr _) => true
  | _ => false
  end.

(** [x?.includes(op)] *)
Definition js_includes_opt (x : JsValue) (op : string) : result JsValue :=
  if is_nullish x then Ok (Data JUndefined)
  else b <- js_includes x op ;; Ok (Data (JBool b)).

(** ** Records as association lists *)

Definition Obj (A : Type) : Type := list (string * A).

(** [o[k]] *)
Fixpoint lookup {A : Type} (k : string) (o : Obj A) : option A :=
  match o with
  | [] => None
  | (k', v) :: o' => if String.eqb k' k then Some v else lookup k o'
  end.

(** [o[k] = v]: overwrite in place, or append a new key *)
Fixpoint obj_set {A : Type} (k : string) (v : A) (o : Obj A) : Obj A :=
  match o with
  | [] => [(k, v)]
  | (k', v') :: o' =>
      if String.eqb k' k then (k, v) :: o' else (k', v') :: obj_set k v o'
  end.

(** [o[key] = value] for an entry [[key, value]] *)
Definition assign {A : Type} (o : Obj A) (e : string * A) : Obj A :=
  obj_set (fst e) (snd e) o.

(** [Object.fromEntries(es)] *)
Definition fromEntries {A : Type} (es : list (string * A)) : Obj A :=
  fold_left assign es [].

(** [k in o] *)
Definition has_key {A : Type} (k : string) (o : Obj A) : bool :=
  match lookup k o with
  | Some _ => true
  | None => false
  end.

(** ** Enablement *)

(** [type IsEnabled], the enablement of a list *)
Record IsEnabled : Type := mkIsEnabled {
  le_type : bool;
  le_query : bool;
  le_create : bool;
  le_update : bool;
  le_delete : bool;
  le_filter : JsValue;
  le_orderBy : JsValue
}.

(** The [IsEnabled] with everything off. *)
Definition all_disabled : IsEnabled :=
  mkIsEnabled false false false false false (Data (JBool false)) (Data (JBool false)).

(** [graphql.isEnabled] of an [InitialisedField] *)
Record FieldIsEnabled : Type := mkFieldIsEnabled {
  fe_read : bool;
  fe_update : bool;
  fe_create : bool;
  fe_filter : JsValue;
  fe_orderBy : JsValue
}.

(** The [IsEnabled] objects are created once by [getIsEnabled] and then shared:
    the closures of [getListGraphqlTypes] and every later copy of a list hold a
    reference to the same object, which the cascade of [initialiseLists]
    assigns to. [Heap] holds the objects, [addr] is a reference. *)
Definition addr : Type := nat.
Definition Heap : Type := list IsEnabled.

Definition deref (h : Heap) (a : addr) : option IsEnabled := nth_error h a.

(** An assignment through a reference; a dangling one changes nothing. *)
Fixpoint heap_update (a : addr) (f : IsEnabled -> IsEnabled) (h : Heap) {struct h} : Heap :=
  match h, a with
  | [], _ => []
  | e :: h', O => f e :: h'
  | e :: h', S a' => e :: heap_update a' f h'
  end.

(** [e.create = false] *)
Definition set_create_false (e : IsEnabled) : IsEnabled :=
  mkIsEnabled (le_type e) (le_query e) false (le_update e) (le_delete e)
    (le_filter e) (le_orderBy e).

(** [e.update = false] *)
Definition set_update_false (e : IsEnabled) : IsEnabled :=
  mkIsEnabled (le_type e) (le_query e) (le_create e) false (le_delete e)
    (le_filter e) (le_orderBy e).

(** What an assignment of the cascade leaves alone in an [IsEnabled]:
    everything but [create] and [update], which it can only lower. *)
Definition framed (e e' : IsEnabled) : Prop :=
  le_type e' = le_type e /\ le_query e' = le_query e /\
  le_delete e' = le_delete e /\ le_filter e' = le_filter e /\
  le_orderBy e' = le_orderBy e /\
  (le_create e' = true -> le_create e = true) /\
  (le_update e' = true -> le_update e = true).

(** The same, for what a reference points to before and after. *)
Definition framed_at (h h' : Heap) (a : addr) : Prop :=
  match deref h a with
  | Some e => exists e', deref h' a = Some e' /\ framed e e'
  | None => deref h' a = None
  end.

(** [['boolean', 'undefined', 'function'].includes(typeof x)] *)
Definition is_filter_value (x : JsValue) : bool :=
  match typeof x with
  | TyBoolean | TyUndefined | TyFunction => true
  | _ => false
  end.

(** [throwIfNotAFilter(x, listKey, fieldKey)] *)
Definition throwIfNotAFilter (x : JsValue) (listKey fieldKey : string) : result unit :=
  if is_filter_value x then Ok tt else Err (NotAFilter listKey fieldKey x).

(** ** Query-language types *)

(** The input objects of one list's bundle. The source refers to them by
    object identity ([where], [create], [uniqueWhere] of the same iteration);
    here a reference is the list key and the kind. *)
Inductive InputKind : Type :=
  | KUniqueWhere | KWhere | KCreate | KUpdate | KOrderBy.

Inductive GqlType : Type :=
  | ID
  | Int
  | Boolean
  | GList (t : GqlType)
  | NonNull (t : GqlType)
  | InputObject (listKey : string) (k : InputKind)
  (** any other type, supplied by a field for its own arguments *)
  | Named (name : string).

(** [graphql.arg({ type, defaultValue })]; [None] when no default is given *)
Record Arg : Type := mkArg {
  arg_type : GqlType;
  arg_defaultValue : option JsData
}.

Definition arg (t : GqlType) : Arg := mkArg t None.

(** The [fields] of an input object: given ready, or a closure of
    [getListGraphqlTypes] with what it captured of the iteration ([listKey],
    the reference [isEnabled]). All closures also captured [lists] and
    [intermediateLists], which are the same two objects for all of them and
    are supplied when the closure is run. *)
Inductive InputFields : Type :=
  | Given (fs : Obj Arg)
  | UniqueWhereFields (listKey : string)
  | WhereFields (listKey : string)
  | CreateFields (listKey : string)
  | UpdateFields (listKey : string)
  | OrderByFields (listKey : string)
  | RelateToManyForCreateFields (listKey : string) (isEnabled : addr)
  | RelateToManyForUpdateFields (listKey : string) (isEnabled : addr)
  | RelateToOneForCreateFields (listKey : string) (isEnabled : addr)
  | RelateToOneForUpdateFields (listKey : string) (isEnabled : addr).

(** [graphql.inputObject({ name, fields })] *)
Record InputObjectType : Type := inputObject {
  io_name : string;
  io_fields : InputFields
}.

(** [graphql.object()({ name, fields })]: the only object type built here is a
    list's output type, whose [fields] closure captured [listKey]. *)
Record ObjectType : Type := object {
  ob_name : string;
  ob_listKey : string
}.

(** [FindManyArgs] *)
Record FindManyArgs : Type := mkFindManyArgs {
  fm_where : Arg;
  fm_orderBy : Arg;
  fm_take : Arg;
  fm_skip : Arg
}.

Record RelateToMany : Type := mkRelateToMany {
  many_where : InputObjectType;
  many_create : option InputObjectType;
  many_update : option InputObjectType
}.

Record RelateToOne : Type := mkRelateToOne {
  one_create : option InputObjectType;
  one_update : option InputObjectType
}.

(** [GraphQLTypesForList]; [relateTo] is flattened into [many] and [one] *)
Record GraphQLTypesForList : Type := mkTypes {
  ty_output : ObjectType;
  ty_uniqueWhere : InputObjectType;
  ty_where : InputObjectType;
  ty_create : InputObjectType;
  ty_orderBy : InputObjectType;
  ty_update : InputObjectType;
  ty_findManyArgs : FindManyArgs;
  ty_relateTo_many : RelateToMany;
  ty_relateTo_one : RelateToOne
}.

(** The four relation inputs of a bundle. *)
Definition relateTo_inputs (t : GraphQLTypesForList) : list (option InputObjectType) :=
  [many_create (ty_relateTo_many t); many_update (ty_relateTo_many t);
   one_create (ty_relateTo_one t); one_update (ty_relateTo_one t)].

(** [ListGraphQLTypes] *)
Record ListGraphQLTypes : Type := mkListGraphQLTypes {
  types : GraphQLTypesForList
}.

(** The names [getGqlNames] gives a list's types (those read here). *)
Record GqlNames : Type := mkGqlNames {
  outputTypeName : string;
  whereUniqueInputName : string;
  whereInputName : string;
  createInputName : string;
  updateInputName : string;
  listOrderName : string;
  relateToManyForCreateInputName : string;
  relateToManyForUpdateInputName : string;
  relateToOneForCreateInputName : string;
  relateToOneForUpdateInputName : string
}.

(** What [getNamesFromList] returns. *)
Record AdminUILabels : Type := mkLabels {
  label : string;
  singular : string;
  plural : string;
  path : string
}.

Record ListNames : Type := mkListNames {
  ln_pluralGraphQLName : string;
  ln_adminUILabels : AdminUILabels
}.

(** ** Storage fields *)

(** [DBField] and [ResolvedDBField] are one object in the source (a cast); of
    it the resolver reads [kind] and, for a relation, [list]. *)
Inductive ResolvedDBField : Type :=
  | Relation (list_ : string) (field : option string) (many : bool)
  (** [kind] is 'scalar', 'enum', 'multi' or 'none' *)
  | NotRelation (kind : string).

Inductive DatabaseProvider : Type := sqlite | postgresql | mysql.

(** ** Configuration and resolved lists *)

Section Resolver.

Set Default Proof Using "Type".

(** What the resolver carries around without looking inside: access
    declarations and their resolved form, hooks, cache hints, the output
    fields that field types supply, storage configurations. *)
Variables ListAccessDecl FieldAccessDecl ResolvedListAccessControl AccessRule : Type.
Variables ListHooks FieldHooks CacheHint OutputField StorageConfig : Type.

(** [ResolvedFieldAccessControl] *)
Record ResolvedFieldAccessControl : Type := mkFieldAccess {
  ac_read : AccessRule;
  ac_create : AccessRule;
  ac_update : AccessRule
}.

(** One entry of a field's [input]: [{ arg, resolve }], of which [arg] is read
    here. *)
Record InputSlot : Type := mkSlot {
  slot_arg : option Arg
}.

Record FieldInput : Type := mkFieldInput {
  in_where : option InputSlot;
  in_create : option InputSlot;
  in_update : option InputSlot;
  in_uniqueWhere : option InputSlot;
  in_orderBy : option InputSlot
}.

(** [{ ...undefined }] *)
Definition no_input : FieldInput := mkFieldInput None None None None None.

(** [slot?.arg] *)
Definition arg_of (slot : option InputSlot) : option Arg :=
  match slot with
  | Some s => slot_arg s
  | None => None
  end.

Definition is_some {A : Type} (o : option A) : bool :=
  match o with
  | Some _ => true
  | None => false
  end.

(** [graphql] of a field descriptor *)
Record FieldGraphqlConfig : Type := mkFieldGraphql {
  fg_omit : JsValue;
  fg_cacheHint : option CacheHint
}.

(** The argument of a field function. *)
Record FieldData : Type := mkFieldData {
  fd_fieldKey : string;
  fd_listKey : string;
  fd_lists : Obj ListGraphQLTypes;
  fd_provider : DatabaseProvider;
  fd_getStorage : string -> option StorageConfig
}.

(** [NextFieldType], the descriptor a field function returns. Its other
    properties (views, admin metadata) are copied through by [...f] and read
    by nothing here. *)
Record NextFieldType : Type := mkNextFieldType {
  dsc_dbField : ResolvedDBField;
  dsc_access : option FieldAccessDecl;
  dsc_hooks : option FieldHooks;
  dsc_graphql : option FieldGraphqlConfig;
  dsc_isFilterable : JsValue;
  dsc_isOrderable : JsValue;
  dsc_input : option FieldInput;
  dsc_output : option OutputField;
  dsc_extraOutputFields : option (Obj OutputField)
}.

(** An entry of [list.fields]: a function from [FieldData] to a descriptor
    (it may throw), or some value that is not a function. *)
Inductive FieldConfig : Type :=
  | FieldFunc (fieldFunc : FieldData -> result NextFieldType)
  | NotCallable (v : JsData).

(** [graphql.cacheHint] of a list: a function or a constant hint *)
Inductive ListCacheHint : Type :=
  | HintFunction (label : string)
  | HintValue (hint : CacheHint).

(** [graphql] of a list; [lg_maxResults] is [queryLimits?.maxResults] *)
Record ListGraphqlConfig : Type := mkListGraphql {
  lg_omit : JsValue;
  lg_maxResults : option Z;
  lg_cacheHint : option ListCacheHint
}.

Record ListConfig : Type := mkListConfig {
  lc_fields : Obj FieldConfig;
  lc_access : option ListAccessDecl;
  lc_graphql : option ListGraphqlConfig;
  lc_defaultIsFilterable : JsValue;
  lc_defaultIsOrderable : JsValue;
  lc_hooks : option ListHooks;
  lc_db_map : option string;
  lc_isSingleton : option bool
}.

Record KeystoneConfig : Type := mkConfig {
  cfg_storage : option (Obj StorageConfig);
  cfg_lists : Obj ListConfig;
  cfg_db_provider : DatabaseProvider
}.

(** [InitialisedField]. [fld_dbField] is [None] when the lookup in
    [resolvedDbFields] came back [undefined]; [fld_hooks = None] is [{}]. *)
Record InitialisedField : Type := mkField {
  fld_dbField : option ResolvedDBField;
  fld_access : ResolvedFieldAccessControl;
  fld_hooks : option FieldHooks;
  fld_cacheHint : option CacheHint;
  fld_isEnabled : FieldIsEnabled;
  fld_input : FieldInput;
  fld_output : option OutputField;
  fld_extraOutputFields : option (Obj OutputField)
}.

(** [InitialisedList], also used for the partially initialised stages, where
    [il_resolvedDbFields] is still [None]. [il_isEnabled] is the reference
    [graphql.isEnabled]; [il_maxResults = None] is [Infinity]; [il_cacheHint]
    holds [HintValue h] for [() => h]. The back-reference [lists] is the
    registry itself, [w_lists] of the [World] below. *)
Record InitialisedList : Type := mkList {
  il_fields : Obj InitialisedField;
  il_resolvedDbFields : option (Obj ResolvedDBField);
  il_pluralGraphQLName : string;
  il_types : GraphQLTypesForList;
  il_access : ResolvedListAccessControl;
  il_hooks : option ListHooks;
  il_adminUILabels : AdminUILabels;
  il_cacheHint : option ListCacheHint;
  il_maxResults : option Z;
  il_listKey : string;
  il_dbMap : option string;
  il_isEnabled : addr;
  il_isSingleton : bool
}.

(** The program state the closures of the type graph run in: the registry
    [listsRef], the record [intermediateLists] that [getListGraphqlTypes] was
    given (list key to the reference of its [IsEnabled]), and the heap. *)
Record World : Type := mkWorld {
  w_lists : Obj InitialisedList;
  w_intermediateLists : Obj addr;
  w_heap : Heap
}.

(** The collaborators of this module, which live in other files. *)
Variable parseListAccessControl : option ListAccessDecl -> result ResolvedListAccessControl.
Variable parseFieldAccessControl : option FieldAccessDecl -> result ResolvedFieldAccessControl.
Variable getNamesFromList : string -> ListConfig -> ListNames.
Variable getGqlNames : string -> string -> GqlNames.
Variable resolveRelationships : Obj InitialisedList -> result (Obj (Obj ResolvedDBField)).
Variable assertFieldsValid : string -> Obj InitialisedField -> result unit.
Variable outputTypeField :
  OutputField -> ResolvedDBField -> option CacheHint -> AccessRule ->
  string -> string -> Obj InitialisedList -> OutputField.

(** ** [getIsEnabled] *)

(** [listConfig.graphql?.omit] *)
Definition list_omit (listConfig : ListConfig) : JsValue :=
  match lc_graphql listConfig with
  | Some g => lg_omit g
  | None => Data JUndefined
  end.

(** The body of the loop of [getIsEnabled]: the [IsEnabled] of one list. *)
Definition listIsEnabled (listKey : string) (listConfig : ListConfig) : result IsEnabled :=
  let omit := list_omit listConfig in
  let defaultIsFilterable := lc_defaultIsFilterable listConfig in
  let defaultIsOrderable := lc_defaultIsOrderable listConfig in
  (if negb (truthy omit) then
     throwIfNotAFilter defaultIsFilterable listKey "defaultIsFilterable" ;;;
     throwIfNotAFilter defaultIsOrderable listKey "defaultIsOrderable"
   else Ok tt) ;;;
  if is_true omit then
    Ok (mkIsEnabled false false false false false
          (Data (JBool false)) (Data (JBool false)))
  else if is_undefined omit then
    Ok (mkIsEnabled true true true true true
          (nullish_or defaultIsFilterable (Data (JBool true)))
          (nullish_or defaultIsOrderable (Data (JBool true))))
  else
    q <- js_includes omit "query" ;;
    c <- js_includes omit "create" ;;
    u <- js_includes omit "update" ;;
    d <- js_includes omit "delete" ;;
    Ok (mkIsEnabled true (negb q) (negb c) (negb u) (negb d)
          (nullish_or defaultIsFilterable (Data (JBool true)))
          (nullish_or defaultIsOrderable (Data (JBool true)))).

Definition getIsEnabled (listsConfig : Obj ListConfig) : result (Obj IsEnabled) :=
  mapM (fun entry =>
          isEnabled <- listIsEnabled (fst entry) (snd entry) ;;
          Ok (fst entry, isEnabled))
       listsConfig.

(** A property read off [undefined]. *)
Definition defined {A : Type} (what : string) (o : option A) : result A :=
  match o with
  | Some a => Ok a
  | None => Err (TypeError what)
  end.

(** ** [getListsWithInitialisedFields] *)

(** [omit !== true && !omit?.includes(op)] *)
Definition not_omitted (omit : JsValue) (op : string) : result bool :=
  if is_true omit then Ok false
  else r <- js_includes_opt omit op ;; Ok (negb (truthy r)).

(** [f.graphql?.omit] *)
Definition field_omit (f : NextFieldType) : JsValue :=
  match dsc_graphql f with
  | Some g => fg_omit g
  | None => Data JUndefined
  end.

(** [_isEnabled] of a field, from its descriptor [f] and from
    [intermediateList.graphql.isEnabled], the enablement of its list. *)
Definition fieldIsEnabled (f : NextFieldType) (isEnabled : IsEnabled) : result FieldIsEnabled :=
  let omit := field_omit f in
  read <- not_omitted omit "read" ;;
  update <- not_omitted omit "update" ;;
  create <- not_omitted omit "create" ;;
  Ok (mkFieldIsEnabled read update create
        (bool_and read (nullish_or (dsc_isFilterable f) (le_filter isEnabled)))
        (bool_and read (nullish_or (dsc_isOrderable f) (le_orderBy isEnabled)))).

(** The body of the inner loop: one field of one list. *)
Definition initialiseField (config : KeystoneConfig)
    (listGraphqlTypes : Obj ListGraphQLTypes) (isEnabled : IsEnabled)
    (listKey : string) (entry : string * FieldConfig) : result (string * InitialisedField) :=
  let fieldKey := fst entry in
  match snd entry with
  | NotCallable _ => Err (NotAFunction listKey fieldKey)
  | FieldFunc fieldFunc =>
      f <- fieldFunc (mkFieldData fieldKey listKey listGraphqlTypes
                        (cfg_db_provider config)
                        (fun storage =>
                           match cfg_storage config with
                           | Some configStorage => lookup storage configStorage
                           | None => None
                           end)) ;;
      throwIfNotAFilter (dsc_isFilterable f) listKey "isFilterable" ;;;
      throwIfNotAFilter (dsc_isOrderable f) listKey "isOrderable" ;;;
      _isEnabled <- fieldIsEnabled f isEnabled ;;
      access <- parseFieldAccessControl (dsc_access f) ;;
      Ok (fieldKey,
          mkField (Some (dsc_dbField f)) access (dsc_hooks f)
            (match dsc_graphql f with
             | Some g => fg_cacheHint g
             | None => None
             end)
            _isEnabled
            (match dsc_input f with
             | Some input => input
             | None => no_input
             end)
            (dsc_output f) (dsc_extraOutputFields f))
  end.

(** The body of the outer loop. [intermediateLists[listKey]] and
    [listGraphqlTypes[listKey]] are always there, both records having the keys
    of [listsConfig]; a miss is the [TypeError] it would be. *)
Definition initialiseListFields (config : KeystoneConfig)
    (listGraphqlTypes : Obj ListGraphQLTypes) (intermediateLists : Obj addr)
    (h : Heap) (entry : string * ListConfig) : result (string * InitialisedList) :=
  let listKey := fst entry in
  let list_ := snd entry in
  intermediateList <- defined "intermediateLists[listKey]" (lookup listKey intermediateLists) ;;
  isEnabled <- defined "intermediateList.graphql.isEnabled" (deref h intermediateList) ;;
  resultFields <- mapM (initialiseField config listGraphqlTypes isEnabled listKey)
                    (lc_fields list_) ;;
  let names := getNamesFromList listKey list_ in
  access <- parseListAccessControl (lc_access list_) ;;
  t <- defined "listGraphqlTypes[listKey]" (lookup listKey listGraphqlTypes) ;;
  Ok (listKey,
      mkList resultFields None (ln_pluralGraphQLName names) (types t) access
        (lc_hooks list_) (ln_adminUILabels names)
        (match lc_graphql list_ with
         | Some g => lg_cacheHint g
         | None => None
         end)
        (match lc_graphql list_ with
         | Some g => lg_maxResults g
         | None => None
         end)
        listKey (lc_db_map list_) intermediateList
        (match lc_isSingleton list_ with
         | Some b => b
         | None => false
         end)).

Definition getListsWithInitialisedFields (config : KeystoneConfig)
    (listGraphqlTypes : Obj ListGraphQLTypes) (intermediateLists : Obj addr)
    (h : Heap) : result (Obj InitialisedList) :=
  mapM (initialiseListFields config listGraphqlTypes intermediateLists h)
       (cfg_lists config).

(** ** [getListGraphqlTypes] *)

(** [findManyArgs] *)
Definition findManyArgs (listKey : string) (listConfig : ListConfig) : FindManyArgs :=
  mkFindManyArgs
    (mkArg (NonNull (InputObject listKey KWhere))
       (Some (match lc_isSingleton listConfig with
              | Some true => JObj [("id", JObj [("equals", JStr "1")])]
              | _ => JObj []
              end)))
    (mkArg (NonNull (GList (NonNull (InputObject listKey KOrderBy))))
       (Some (JArr [])))
    (arg Int)
    (mkArg (NonNull Int) (Some (JNum 0))).

(** The body of the loop of [getListGraphqlTypes]: the bundle of one list.
    Only [isEnabled.type] is read while the bundle is built; everything else
    waits inside the closures. *)
Definition listGraphqlTypes (intermediateLists : Obj addr) (h : Heap)
    (entry : string * ListConfig) : result (string * ListGraphQLTypes) :=
  let listKey := fst entry in
  let listConfig := snd entry in
  let names := getGqlNames listKey
                 (ln_pluralGraphQLName (getNamesFromList listKey listConfig)) in
  let output := object (outputTypeName names) listKey in
  let uniqueWhere := inputObject (whereUniqueInputName names) (UniqueWhereFields listKey) in
  let where_ := inputObject (whereInputName names) (WhereFields listKey) in
  let create := inputObject (createInputName names) (CreateFields listKey) in
  let update := inputObject (updateInputName names) (UpdateFields listKey) in
  let orderBy := inputObject (listOrderName names) (OrderByFields listKey) in
  isEnabled <- defined "intermediateLists[listKey]" (lookup listKey intermediateLists) ;;
  e <- defined "intermediateLists[listKey].graphql.isEnabled" (deref h isEnabled) ;;
  let variant (name : string) (fields : string -> addr -> InputFields) :=
    if le_type e then Some (inputObject name (fields listKey isEnabled)) else None in
  Ok (listKey,
      mkListGraphQLTypes
        (mkTypes output uniqueWhere where_ create orderBy update
           (findManyArgs listKey listConfig)
           (mkRelateToMany
              (inputObject (listKey ++ "ManyRelationFilter")%string
                 (Given [("every", arg (InputObject listKey KWhere));
                         ("some", arg (InputObject listKey KWhere));
                         ("none", arg (InputObject listKey KWhere))]))
              (variant (relateToManyForCreateInputName names) RelateToManyForCreateFields)
              (variant (relateToManyForUpdateInputName names) RelateToManyForUpdateFields))
           (mkRelateToOne
              (variant (relateToOneForCreateInputName names) RelateToOneForCreateFields)
              (variant (relateToOneForUpdateInputName names) RelateToOneForUpdateFields)))).

Definition getListGraphqlTypes (listsConfig : Obj ListConfig)
    (intermediateLists : Obj addr) (h : Heap) : result (Obj ListGraphQLTypes) :=
  mapM (listGraphqlTypes intermediateLists h) listsConfig.

(** ** Running the closures of the type graph

    Each function below is the body of one [fields: () => ...] closure, run in
    a world [w]: [lists] is [w_lists w], [intermediateLists] is
    [w_intermediateLists w], and a read through a reference goes to
    [w_heap w]. *)

(** [lists[listKey].fields], as [const { fields } = lists[listKey]] reads it *)
Definition fields_of (w : World) (listKey : string) : result (Obj InitialisedField) :=
  l <- defined "lists[listKey]" (lookup listKey (w_lists w)) ;;
  Ok (il_fields l).

(** [intermediateLists[key].graphql.isEnabled], dereferenced *)
Definition isEnabled_of (w : World) (key : string) : result IsEnabled :=
  a <- defined "intermediateLists[key]" (lookup key (w_intermediateLists w)) ;;
  defined "intermediateLists[key].graphql.isEnabled" (deref (w_heap w) a).

(** The condition under which the output closure drops a field:
    [!field.output || !field.graphql.isEnabled.read ||
     (field.dbField.kind === 'relation' &&
      !intermediateLists[field.dbField.list].graphql.isEnabled.query)],
    evaluated left to right. When it is false the field has an [output],
    which is returned with its [dbField]. *)
Definition output_shown (w : World) (field : InitialisedField)
    : result (option (OutputField * ResolvedDBField)) :=
  match fld_output field with
  | None => Ok None
  | Some output =>
      if negb (fe_read (fld_isEnabled field)) then Ok None
      else
        dbField <- defined "field.dbField" (fld_dbField field) ;;
        match dbField with
        | Relation target _ _ =>
            e <- isEnabled_of w target ;;
            if negb (le_query e) then Ok None else Ok (Some (output, dbField))
        | NotRelation _ => Ok (Some (output, dbField))
        end
  end.

(** The callback of the [flatMap] of the output closure: the entries one field
    contributes to the output type. *)
Definition output_entries (w : World) (listKey : string)
    (entry : string * InitialisedField) : result (list (string * OutputField)) :=
  let fieldPath := fst entry in
  let field := snd entry in
  shown <- output_shown w field ;;
  match shown with
  | None => Ok []
  | Some (output, dbField) =>
      Ok (map (fun e =>
                 (fst e,
                  outputTypeField (snd e) dbField (fld_cacheHint field)
                    (ac_read (fld_access field)) listKey fieldPath (w_lists w)))
              ((fieldPath, output) ::
               match fld_extraOutputFields field with
               | Some extra => extra
               | None => []
               end))
  end.

(** [output.fields()] *)
Definition output_fields (w : World) (listKey : string) : result (Obj OutputField) :=
  fields <- fields_of w listKey ;;
  entries <- mapM (output_entries w listKey) fields ;;
  Ok (fromEntries (List.concat entries)).

(** The entries a [flatMap] keeps: [[key, arg]] for the fields that have the
    argument and pass the test, nothing for the others. *)
Definition input_entries (slot : FieldInput -> option InputSlot)
    (enabled : FieldIsEnabled -> bool) (fields : Obj InitialisedField)
    : list (string * Arg) :=
  flat_map (fun entry =>
              match arg_of (slot (fld_input (snd entry))) with
              | Some a =>
                  if enabled (fld_isEnabled (snd entry)) then [(fst entry, a)] else []
              | None => []
              end)
           fields.

(** [uniqueWhere.fields()] *)
Definition uniqueWhere_fields (w : World) (listKey : string) : result (Obj Arg) :=
  fields <- fields_of w listKey ;;
  Ok (obj_set "id" (arg ID)
        (fromEntries
           (input_entries in_uniqueWhere
              (fun e => fe_read e && truthy (fe_filter e)) fields))).

(** [where.fields()]: [Object.assign] of the combinators and of one object per
    field that passes. *)
Definition where_fields (w : World) (listKey : string) : result (Obj Arg) :=
  fields <- fields_of w listKey ;;
  let where_ := GList (NonNull (InputObject listKey KWhere)) in
  Ok (fold_left assign
        (input_entries in_where
           (fun e => fe_read e && truthy (fe_filter e)) fields)
        [("AND", arg where_); ("OR", arg where_); ("NOT", arg where_)]).

(** [create.fields()] *)
Definition create_fields (w : World) (listKey : string) : result (Obj Arg) :=
  fields <- fields_of w listKey ;;
  Ok (fromEntries (input_entries in_create fe_create fields)).

(** [update.fields()] *)
Definition update_fields (w : World) (listKey : string) : result (Obj Arg) :=
  fields <- fields_of w listKey ;;
  Ok (fromEntries (input_entries in_update fe_update fields)).

(** [orderBy.fields()] *)
Definition orderBy_fields (w : World) (listKey : string) : result (Obj Arg) :=
  fields <- fields_of w listKey ;;
  Ok (fromEntries
        (input_entries in_orderBy
           (fun e => fe_read e && truthy (fe_orderBy e)) fields)).

(** [...(isEnabled.create && { create: a })], read through the reference the
    closure captured *)
Definition nested_create (e : IsEnabled) (a : Arg) : Obj Arg :=
  if le_create e then [("create", a)] else [].

(** The [fields] of an input object, run in [w]. *)
Definition input_fields (w : World) (fields : InputFields) : result (Obj Arg) :=
  match fields with
  | Given fs => Ok fs
  | UniqueWhereFields listKey => uniqueWhere_fields w listKey
  | WhereFields listKey => where_fields w listKey
  | CreateFields listKey => create_fields w listKey
  | UpdateFields listKey => update_fields w listKey
  | OrderByFields listKey => orderBy_fields w listKey
  | RelateToManyForCreateFields listKey isEnabled =>
      e <- defined "isEnabled" (deref (w_heap w) isEnabled) ;;
      Ok (nested_create e (arg (GList (NonNull (InputObject listKey KCreate)))) ++
          [("connect", arg (GList (NonNull (InputObject listKey KUniqueWhere))))])
  | RelateToManyForUpdateFields listKey isEnabled =>
      e <- defined "isEnabled" (deref (w_heap w) isEnabled) ;;
      Ok ([("disconnect", arg (GList (NonNull (InputObject listKey KUniqueWhere))));
           ("set", arg (GList (NonNull (InputObject listKey KUniqueWhere))))] ++
          nested_create e (arg (GList (NonNull (InputObject listKey KCreate)))) ++
          [("connect", arg (GList (NonNull (InputObject listKey KUniqueWhere))))])
  | RelateToOneForCreateFields listKey isEnabled =>
      e <- defined "isEnabled" (deref (w_heap w) isEnabled) ;;
      Ok (nested_create e (arg (InputObject listKey KCreate)) ++
          [("connect", arg (InputObject listKey KUniqueWhere))])
  | RelateToOneForUpdateFields listKey isEnabled =>
      e <- defined "isEnabled" (deref (w_heap w) isEnabled) ;;
      Ok (nested_create e (arg (InputObject listKey KCreate)) ++
          [("connect", arg (InputObject listKey KUniqueWhere));
           ("disconnect", arg Boolean)])
  end.

(** ** [initialiseLists] *)

(** [{ ...blah, resolvedDbFields }] *)
Definition with_resolvedDbFields (l : InitialisedList)
    (r : option (Obj ResolvedDBField)) : InitialisedList :=
  mkList (il_fields l) r (il_pluralGraphQLName l) (il_types l) (il_access l)
    (il_hooks l) (il_adminUILabels l) (il_cacheHint l) (il_maxResults l)
    (il_listKey l) (il_dbMap l) (il_isEnabled l) (il_isSingleton l).

(** [{ ...list, fields }] *)
Definition with_fields (l : InitialisedList) (fields : Obj InitialisedField)
    : InitialisedList :=
  mkList fields (il_resolvedDbFields l) (il_pluralGraphQLName l) (il_types l)
    (il_access l) (il_hooks l) (il_adminUILabels l) (il_cacheHint l)
    (il_maxResults l) (il_listKey l) (il_dbMap l) (il_isEnabled l)
    (il_isSingleton l).

(** [{ ...field, dbField }] *)
Definition with_dbField (field : InitialisedField) (d : option ResolvedDBField)
    : InitialisedField :=
  mkField d (fld_access field) (fld_hooks field) (fld_cacheHint field)
    (fld_isEnabled field) (fld_input field) (fld_output field)
    (fld_extraOutputFields field).

(** The second block: [resolvedDbFields] is attached to every list. *)
Definition attachResolved (resolved : Obj (Obj ResolvedDBField))
    (lists_ : Obj InitialisedList) : Obj InitialisedList :=
  map (fun entry =>
         (fst entry,
          with_resolvedDbFields (snd entry) (lookup (fst entry) resolved)))
      lists_.

(** The third block: every field takes its [dbField] from
    [list.resolvedDbFields]; reading a key of [undefined] throws. *)
Definition relinkFields (entry : string * InitialisedList) : result (string * InitialisedList) :=
  let list_ := snd entry in
  fields <- mapM (fun fe =>
                    r <- defined "list.resolvedDbFields" (il_resolvedDbFields list_) ;;
                    Ok (fst fe, with_dbField (snd fe) (lookup (fst fe) r)))
                 (il_fields list_) ;;
  Ok (fst entry, with_fields list_ fields).

(** The flags the cascade computes for one list, with the loop written as the
    source has it: a flag is raised by any field that passes and never
    lowered. *)
Definition hasAnEnabledCreateField (fields : Obj InitialisedField) : bool :=
  fold_left (fun flag fe =>
               if is_some (arg_of (in_create (fld_input (snd fe))))
                  && fe_create (fld_isEnabled (snd fe))
               then true else flag)
            fields false.

Definition hasAnEnabledUpdateField (fields : Obj InitialisedField) : bool :=
  fold_left (fun flag fe =>
               if is_some (in_update (fld_input (snd fe)))
                  && fe_update (fld_isEnabled (snd fe))
               then true else flag)
            fields false.

(** The cascade for one list: [list.graphql.isEnabled.create = false] and
    [list.graphql.isEnabled.update = false], each under its test. *)
Definition disableEmptyOperations (list_ : InitialisedList) (h : Heap) : Heap :=
  let h1 := if negb (hasAnEnabledCreateField (il_fields list_))
            then heap_update (il_isEnabled list_) set_create_false h else h in
  if negb (hasAnEnabledUpdateField (il_fields list_))
  then heap_update (il_isEnabled list_) set_update_false h1 else h1.

(** The cascade, over [Object.values(intermediateLists)]. *)
Definition cascade (lists_ : Obj InitialisedList) (h : Heap) : Heap :=
  fold_left (fun h' entry => disableEmptyOperations (snd entry) h') lists_ h.

(** The [IsEnabled] objects that [getIsEnabled] created, in the heap in the
    order of its record, and the first [intermediateLists], which wraps each
    one as [{ graphql: { isEnabled } }]: a list key with the reference to its
    object. *)
Definition objects (isEnabled : Obj IsEnabled) : Heap := map snd isEnabled.

Definition references (isEnabled : Obj IsEnabled) : Obj addr :=
  combine (map fst isEnabled) (seq 0 (List.length isEnabled)).

(** [initialiseLists]. The result is the registry it returns together with
    the rest of the state the closures of the type graph see. *)
Definition initialiseLists (config : KeystoneConfig) : result World :=
  let listsConfig := cfg_lists config in
  isEnabled <- getIsEnabled listsConfig ;;
  let h := objects isEnabled in
  let refs := references isEnabled in
  listGraphqlTypes <- getListGraphqlTypes listsConfig refs h ;;
  intermediateLists <- getListsWithInitialisedFields config listGraphqlTypes refs h ;;
  resolvedDBFieldsForLists <- resolveRelationships intermediateLists ;;
  let intermediateLists := attachResolved resolvedDBFieldsForLists intermediateLists in
  intermediateLists <- mapM relinkFields intermediateLists ;;
  let h := cascade intermediateLists h in
  mapM (fun entry => assertFieldsValid (fst entry) (il_fields (snd entry)))
       intermediateLists ;;;
  Ok (mkWorld intermediateLists refs h).

(** ** A run, pass by pass *)

(** A successful run, pass by pass. *)
Inductive run (config : KeystoneConfig) (w : World) : Prop :=
  | Run (isEnabled : Obj IsEnabled) (graphqlTypes : Obj ListGraphQLTypes)
        (initialised : Obj InitialisedList) (resolved : Obj (Obj ResolvedDBField))
        (relinked : Obj InitialisedList)
        (H1 : getIsEnabled (cfg_lists config) = Ok isEnabled)
        (H2 : getListGraphqlTypes (cfg_lists config) (references isEnabled)
                (objects isEnabled) = Ok graphqlTypes)
        (H3 : getListsWithInitialisedFields config graphqlTypes
                (references isEnabled) (objects isEnabled) = Ok initialised)
        (H4 : resolveRelationships initialised = Ok resolved)
        (H5 : mapM relinkFields (attachResolved resolved initialised) = Ok relinked)
        (H6 : w = mkWorld relinked (references isEnabled)
                    (cascade relinked (objects isEnabled))).

(** The list under key [k] of the registry, traced back through the passes:
    its configuration, the [IsEnabled] object [e] that [getIsEnabled] made for
    it and that its reference shares with the closures of its types, and the
    descriptors its field flags were computed from. *)
Inductive resolved (config : KeystoneConfig) (w : World) (k : string)
    (l : InitialisedList) : Prop :=
  | Resolved (isEnabled : Obj IsEnabled) (listConfig : ListConfig)
      (e : IsEnabled) (t : ListGraphQLTypes)
      (R1 : getIsEnabled (cfg_lists config) = Ok isEnabled)
      (R2 : w_heap w = cascade (w_lists w) (objects isEnabled))
      (R3 : w_intermediateLists w = references isEnabled)
      (R4 : lookup k (cfg_lists config) = Some listConfig)
      (R5 : listIsEnabled k listConfig = Ok e)
      (R6 : lookup k (references isEnabled) = Some (il_isEnabled l))
      (R7 : deref (objects isEnabled) (il_isEnabled l) = Some e)
      (R8 : listGraphqlTypes (references isEnabled) (objects isEnabled)
              (k, listConfig) = Ok (k, t))
      (R9 : il_types l = types t)
      (R10 : forall fk f, In (fk, f) (il_fields l) ->
               exists d, fieldIsEnabled d e = Ok (fld_isEnabled f)).

(** * Properties *)

(** ** Results and loops *)

Lemma bind_Ok {A B : Type} (r : result A) (k : A -> result B) (b : B) :
  bind r k = Ok b -> exists a, r = Ok a /\ k a = Ok b.
Proof.
  destruct r as [a|e]; simpl; intros H; [eauto | discriminate].
Qed.

(** Splits [H : bind r k = Ok b] into the value of [r] and the rest. *)
Ltac bind_inv H :=
  let a := fresh "a" in
  let E := fresh "E" in
  apply bind_Ok in H; destruct H as [a [E H]].

Ltac ok_inv H := injection H as H; subst.

Lemma mapM_In {A B : Type} (f : A -> result B) (l : list A) (l' : list B) (b : B) :
  mapM f l = Ok l' -> In b l' -> exists a, In a l /\ f a = Ok b.
Proof.
  revert l'. induction l as [|a l IH]; simpl; intros l' H Hin.
  - ok_inv H. destruct Hin.
  - bind_inv H. bind_inv H. ok_inv H. destruct Hin as [->|Hin].
    + exists a. auto.
    + destruct (IH _ E0 Hin) as [a' [? ?]]. exists a'. auto.
Qed.

(** A loop that throws at one of its entries throws. *)
Lemma mapM_Err {A B : Type} (f : A -> result B) (l : list A) (a : A) :
  In a l -> is_err (f a) = true -> is_err (mapM f l) = true.
Proof.
  induction l as [|x l IH]; simpl; intros Hin He; [destruct Hin|].
  destruct Hin as [->|Hin].
  - destruct (f a); [discriminate | reflexivity].
  - destruct (f x); simpl; [|reflexivity].
    specialize (IH Hin He). destruct (mapM f l); [discriminate | reflexivity].
Qed.

Lemma lookup_In {A : Type} (k : string) (o : Obj A) (v : A) :
  lookup k o = Some v -> In (k, v) o.
Proof.
  induction o as [|[k' v'] o IH]; simpl; [discriminate|].
  destruct (String.eqb_spec k' k) as [->|_]; intros H.
  - injection H as ->. left. reflexivity.
  - right. auto.
Qed.

(** A loop over the entries of a record that keeps every key: the entry under
    a key of the result is the image of the entry under that key. *)
Lemma mapM_lookup {A B : Type} (f : string * A -> result (string * B))
    (l : Obj A) (l' : Obj B) (k : string) :
  (forall x y, f x = Ok y -> fst y = fst x) ->
  mapM f l = Ok l' ->
  match lookup k l with
  | Some v => exists v', lookup k l' = Some v' /\ f (k, v) = Ok (k, v')
  | None => lookup k l' = None
  end.
Proof.
  intros Hkey. revert l'. induction l as [|[k0 v0] l IH]; simpl; intros l' H.
  - ok_inv H. reflexivity.
  - bind_inv H. bind_inv H. ok_inv H. destruct a as [k1 v1].
    pose proof (Hkey _ _ E) as Hk. simpl in Hk. subst k1. simpl.
    destruct (String.eqb_spec k0 k) as [->|_].
    + exists v1. auto.
    + apply IH. assumption.
Qed.

Lemma map_lookup {A B : Type} (g : string -> A -> B) (l : Obj A) (k : string) :
  lookup k (map (fun e => (fst e, g (fst e) (snd e))) l) =
  option_map (g k) (lookup k l).
Proof.
  induction l as [|[k0 v0] l IH]; simpl; [reflexivity|].
  destruct (String.eqb_spec k0 k) as [->|_]; [reflexivity | assumption].
Qed.

(** ** The enablement of one list *)

Lemma listIsEnabled_omit_true (listKey : string) (listConfig : ListConfig) :
  list_omit listConfig = Data (JBool true) ->
  listIsEnabled listKey listConfig = Ok all_disabled.
Proof.
  intros H. unfold listIsEnabled. rewrite H. reflexivity.
Qed.

Lemma throwIfNotAFilter_err (x : JsValue) (listKey fieldKey : string) :
  is_filter_value x = false ->
  throwIfNotAFilter x listKey fieldKey = Err (NotAFilter listKey fieldKey x).
Proof.
  unfold throwIfNotAFilter. intros ->. reflexivity.
Qed.

(** With no omission declared, a default that is not a filter value is
    refused. *)
Lemma listIsEnabled_bad_default (listKey : string) (listConfig : ListConfig) :
  truthy (list_omit listConfig) = false ->
  is_filter_value (lc_defaultIsFilterable listConfig) = false \/
  is_filter_value (lc_defaultIsOrderable listConfig) = false ->
  is_err (listIsEnabled listKey listConfig) = true.
Proof.
  intros Homit H. unfold listIsEnabled. rewrite Homit. simpl.
  destruct (is_filter_value (lc_defaultIsFilterable listConfig)) eqn:Ef.
  - destruct H as [H|H]; [discriminate|].
    rewrite (throwIfNotAFilter_err _ listKey "defaultIsOrderable" H).
    destruct (throwIfNotAFilter _ _ _); reflexivity.
  - rewrite (throwIfNotAFilter_err _ listKey "defaultIsFilterable" Ef). reflexivity.
Qed.

Lemma listIsEnabled_no_includes (listKey : string) (listConfig : ListConfig) :
  is_true (list_omit listConfig) = false ->
  is_undefined (list_omit listConfig) = false ->
  has_includes (list_omit listConfig) = false ->
  is_err (listIsEnabled listKey listConfig) = true.
Proof.
  intros Ht Hu Hi. unfold listIsEnabled. rewrite Ht, Hu.
  match goal with |- is_err (bind ?c _) = true => destruct c; [simpl|reflexivity] end.
  destruct (list_omit listConfig) as [[| |b|n|s|items|props]|f]; simpl in *;
    first [discriminate | reflexivity].
Qed.

Lemma getIsEnabled_err (listsConfig : Obj ListConfig) (listKey : string)
    (listConfig : ListConfig) :
  In (listKey, listConfig) listsConfig ->
  is_err (listIsEnabled listKey listConfig) = true ->
  is_err (getIsEnabled listsConfig) = true.
Proof.
  intros Hin He. unfold getIsEnabled. eapply mapM_Err; [exact Hin|]. simpl.
  destruct (listIsEnabled listKey listConfig); [discriminate | reflexivity].
Qed.

Lemma initialiseLists_err (config : KeystoneConfig) :
  is_err (getIsEnabled (cfg_lists config)) = true ->
  is_err (initialiseLists config) = true.
Proof.
  unfold initialiseLists. destruct (getIsEnabled (cfg_lists config));
    [discriminate | reflexivity].
Qed.

(** ** The passes of [initialiseLists] *)

Lemma initialiseLists_run (config : KeystoneConfig) (w : World) :
  initialiseLists config = Ok w -> run config w.
Proof.
  unfold initialiseLists. intros H.
  bind_inv H. bind_inv H. bind_inv H. bind_inv H. bind_inv H. bind_inv H.
  ok_inv H. econstructor; eauto.
Qed.

(** ** The heap and the cascade *)

Lemma deref_heap_update (a b : addr) (f : IsEnabled -> IsEnabled) (h : Heap) :
  deref (heap_update a f h) b =
  if Nat.eqb a b then option_map f (deref h b) else deref h b.
Proof.
  unfold deref. revert a b. induction h as [|e h IH]; intros a b; simpl.
  - destruct (Nat.eqb a b), b; reflexivity.
  - destruct a as [|a], b as [|b]; simpl; try reflexivity. apply IH.
Qed.

Lemma framed_refl (e : IsEnabled) : framed e e.
Proof. unfold framed. tauto. Qed.

Lemma framed_trans (e1 e2 e3 : IsEnabled) :
  framed e1 e2 -> framed e2 e3 -> framed e1 e3.
Proof.
  unfold framed. intros (A1 & A2 & A3 & A4 & A5 & A6 & A7)
    (B1 & B2 & B3 & B4 & B5 & B6 & B7).
  repeat split; try congruence; auto.
Qed.

Lemma framed_at_refl (h : Heap) (a : addr) : framed_at h h a.
Proof.
  unfold framed_at. destruct (deref h a) as [e|]; [|reflexivity].
  exists e. split; [reflexivity | apply framed_refl].
Qed.

Lemma framed_at_trans (h1 h2 h3 : Heap) (a : addr) :
  framed_at h1 h2 a -> framed_at h2 h3 a -> framed_at h1 h3 a.
Proof.
  unfold framed_at. destruct (deref h1 a) as [e1|].
  - intros [e2 [E2 F12]]. rewrite E2. intros [e3 [E3 F23]].
    exists e3. split; [assumption | eapply framed_trans; eassumption].
  - intros ->. auto.
Qed.

Lemma framed_at_update (f : IsEnabled -> IsEnabled) (a b : addr) (h : Heap) :
  (forall e, framed e (f e)) -> framed_at h (heap_update a f h) b.
Proof.
  intros Hf. unfold framed_at. rewrite deref_heap_update.
  destruct (deref h b) as [e|] eqn:E; destruct (Nat.eqb a b); simpl;
    try reflexivity.
  - exists (f e). split; [reflexivity | apply Hf].
  - exists e. split; [reflexivity | apply framed_refl].
Qed.

Lemma framed_set_create_false (e : IsEnabled) : framed e (set_create_false e).
Proof. unfold framed. simpl. repeat split; auto; discriminate. Qed.

Lemma framed_set_update_false (e : IsEnabled) : framed e (set_update_false e).
Proof. unfold framed. simpl. repeat split; auto; discriminate. Qed.

Lemma disableEmptyOperations_frame (list_ : InitialisedList) (h : Heap) (a : addr) :
  framed_at h (disableEmptyOperations list_ h) a.
Proof.
  unfold disableEmptyOperations.
  eapply framed_at_trans with
    (h2 := if negb (hasAnEnabledCreateField (il_fields list_))
           then heap_update (il_isEnabled list_) set_create_false h else h).
  - destruct (negb _); [|apply framed_at_refl].
    apply framed_at_update, framed_set_create_false.
  - destruct (negb (hasAnEnabledUpdateField _)); [|apply framed_at_refl].
    apply framed_at_update, framed_set_update_false.
Qed.

Lemma cascade_framed_at (lists_ : Obj InitialisedList) (h : Heap) (a : addr) :
  framed_at h (cascade lists_ h) a.
Proof.
  unfold cascade. revert h. induction lists_ as [|entry lists_ IH]; intros h; simpl.
  - apply framed_at_refl.
  - eapply framed_at_trans; [apply disableEmptyOperations_frame | apply IH].
Qed.


(** ** References and the objects they point to *)

Lemma references_deref_from (k : string) (isEnabled : Obj IsEnabled) (s : nat) :
  match lookup k isEnabled with
  | Some e =>
      exists i,
        lookup k (combine (map fst isEnabled) (seq s (List.length isEnabled)))
          = Some (s + i) /\
        deref (objects isEnabled) i = Some e
  | None =>
      lookup k (combine (map fst isEnabled) (seq s (List.length isEnabled))) = None
  end.
Proof.
  revert s. induction isEnabled as [|[k0 e0] en IH]; intros s; simpl; [reflexivity|].
  destruct (String.eqb_spec k0 k) as [->|_].
  - exists 0. rewrite Nat.add_0_r. split; reflexivity.
  - specialize (IH (S s)). destruct (lookup k en) as [e|]; [|exact IH].
    destruct IH as [i [IH1 IH2]]. exists (S i). split.
    + rewrite IH1. f_equal. lia.
    + exact IH2.
Qed.

(** The reference kept under a list key points to the object that
    [getIsEnabled] made for that key. *)
Lemma references_deref (k : string) (isEnabled : Obj IsEnabled) (a : addr) :
  lookup k (references isEnabled) = Some a ->
  exists e, lookup k isEnabled = Some e /\ deref (objects isEnabled) a = Some e.
Proof.
  unfold references, addr. intros H.
  pose proof (references_deref_from k isEnabled 0) as R.
  destruct (lookup k isEnabled) as [e|].
  - destruct R as [i [R1 R2]]. rewrite R1 in H. injection H as <-.
    exists e. auto.
  - rewrite R in H. discriminate.
Qed.

Lemma getIsEnabled_lookup (listsConfig : Obj ListConfig) (isEnabled : Obj IsEnabled)
    (k : string) :
  getIsEnabled listsConfig = Ok isEnabled ->
  match lookup k listsConfig with
  | Some listConfig =>
      exists e, lookup k isEnabled = Some e /\ listIsEnabled k listConfig = Ok e
  | None => lookup k isEnabled = None
  end.
Proof.
  intros H. unfold getIsEnabled in H.
  eapply mapM_lookup with (k := k) in H as L.
  2:{ intros x y E. bind_inv E. ok_inv E. reflexivity. }
  destruct (lookup k listsConfig) as [listConfig|]; [|exact L].
  destruct L as [e [L1 L2]]. exists e. split; [exact L1|].
  simpl in L2. destruct (listIsEnabled k listConfig); simpl in L2;
    [injection L2 as ->; reflexivity | discriminate].
Qed.

(** ** Fields *)

Lemma fieldIsEnabled_read_gates (f : NextFieldType) (e : IsEnabled)
    (fe : FieldIsEnabled) :
  fieldIsEnabled f e = Ok fe ->
  (truthy (fe_filter fe) = true -> fe_read fe = true) /\
  (truthy (fe_orderBy fe) = true -> fe_read fe = true).
Proof.
  unfold fieldIsEnabled. intros H.
  apply bind_Ok in H. destruct H as [read [_ H]].
  bind_inv H. bind_inv H. ok_inv H. simpl.
  destruct read; simpl; split; first [reflexivity | discriminate].
Qed.

Lemma initialiseField_inv (config : KeystoneConfig) (graphqlTypes : Obj ListGraphQLTypes)
    (e : IsEnabled) (listKey : string) (entry : string * FieldConfig)
    (fieldKey : string) (field : InitialisedField) :
  initialiseField config graphqlTypes e listKey entry = Ok (fieldKey, field) ->
  fieldKey = fst entry /\
  exists f, fieldIsEnabled f e = Ok (fld_isEnabled field).
Proof.
  unfold initialiseField. destruct (snd entry) as [fieldFunc|v]; [|discriminate].
  intros H. apply bind_Ok in H. destruct H as [f [_ H]].
  bind_inv H. bind_inv H. apply bind_Ok in H. destruct H as [fe [Hfe H]].
  bind_inv H. ok_inv H. simpl. split; [reflexivity|]. exists f. exact Hfe.
Qed.

(** What [initialiseListFields] puts in a list. *)
Lemma initialiseListFields_inv (config : KeystoneConfig)
    (graphqlTypes : Obj ListGraphQLTypes) (refs : Obj addr) (h : Heap)
    (entry : string * ListConfig) (k : string) (l : InitialisedList) :
  initialiseListFields config graphqlTypes refs h entry = Ok (k, l) ->
  k = fst entry /\
  exists e t,
    lookup k refs = Some (il_isEnabled l) /\
    deref h (il_isEnabled l) = Some e /\
    lookup k graphqlTypes = Some t /\ il_types l = types t /\
    mapM (initialiseField config graphqlTypes e k) (lc_fields (snd entry))
      = Ok (il_fields l).
Proof.
  unfold initialiseListFields, defined. intros H.
  apply bind_Ok in H. destruct H as [a [Ha H]].
  apply bind_Ok in H. destruct H as [e [He H]].
  apply bind_Ok in H. destruct H as [fields [Hf H]].
  bind_inv H. apply bind_Ok in H. destruct H as [t [Ht H]].
  ok_inv H. simpl. split; [reflexivity|]. exists e, t.
  destruct (lookup (fst entry) refs); [|discriminate]. ok_inv Ha.
  destruct (deref h a); [|discriminate]. ok_inv He.
  destruct (lookup (fst entry) graphqlTypes); [|discriminate]. ok_inv Ht.
  auto.
Qed.

(** Relinking changes the [dbField] of the fields and nothing else. *)
Lemma relinkFields_inv (entry : string * InitialisedList) (k : string)
    (l : InitialisedList) :
  relinkFields entry = Ok (k, l) ->
  k = fst entry /\
  il_isEnabled l = il_isEnabled (snd entry) /\
  il_types l = il_types (snd entry) /\
  forall fk f, In (fk, f) (il_fields l) ->
    exists f1, In (fk, f1) (il_fields (snd entry)) /\
      fld_isEnabled f = fld_isEnabled f1 /\ fld_input f = fld_input f1 /\
      fld_output f = fld_output f1 /\
      fld_extraOutputFields f = fld_extraOutputFields f1.
Proof.
  unfold relinkFields. intros H.
  apply bind_Ok in H. destruct H as [fields [Hf H]]. ok_inv H. simpl.
  repeat split; try reflexivity. intros fk f Hin.
  destruct (mapM_In _ _ _ _ Hf Hin) as [[fk1 f1] [Hin1 E]].
  bind_inv E. ok_inv E. simpl. exists f1. auto.
Qed.

(** ** Where a list of the registry comes from *)

Lemma listGraphqlTypes_key (refs : Obj addr) (h : Heap)
    (entry : string * ListConfig) (y : string * ListGraphQLTypes) :
  listGraphqlTypes refs h entry = Ok y -> fst y = fst entry.
Proof.
  unfold listGraphqlTypes. intros H. bind_inv H. bind_inv H. ok_inv H. reflexivity.
Qed.

Lemma initialiseListFields_key (config : KeystoneConfig)
    (graphqlTypes : Obj ListGraphQLTypes) (refs : Obj addr) (h : Heap)
    (entry : string * ListConfig) (y : string * InitialisedList) :
  initialiseListFields config graphqlTypes refs h entry = Ok y -> fst y = fst entry.
Proof.
  destruct y as [k l]. intros H. apply initialiseListFields_inv in H. apply H.
Qed.

Lemma relinkFields_key (entry y : string * InitialisedList) :
  relinkFields entry = Ok y -> fst y = fst entry.
Proof.
  destruct y as [k l]. intros H. apply relinkFields_inv in H. apply H.
Qed.

Lemma run_resolved (config : KeystoneConfig) (w : World) (k : string)
    (l : InitialisedList) :
  run config w -> lookup k (w_lists w) = Some l -> resolved config w k l.
Proof.
  intros [en lgt il1 res il3 H1 H2 H3 H4 H5 ->]. simpl. intros Hl.
  (* back through the relinking *)
  pose proof (mapM_lookup _ _ _ k relinkFields_key H5) as L5.
  unfold attachResolved in L5.
  rewrite (map_lookup (fun key v => with_resolvedDbFields v (lookup key res))) in L5.
  destruct (lookup k il1) as [l1|] eqn:Hl1; simpl in L5; [|congruence].
  destruct L5 as [l' [Hl' Hrelink]]. rewrite Hl in Hl'. injection Hl' as <-.
  apply relinkFields_inv in Hrelink.
  destruct Hrelink as (_ & Ha & Hty & Hfields). simpl in Ha, Hty, Hfields.
  (* back through the initialisation of fields *)
  unfold getListsWithInitialisedFields in H3.
  pose proof (mapM_lookup _ _ _ k
                (initialiseListFields_key config lgt (references en) (objects en))
                H3) as L3.
  destruct (lookup k (cfg_lists config)) as [lc|] eqn:Hlc; [|congruence].
  destruct L3 as [l1' [Hl1' Hinit]]. rewrite Hl1 in Hl1'. injection Hl1' as <-.
  apply initialiseListFields_inv in Hinit.
  destruct Hinit as (_ & e & t & Hrefs & Hderef & Hlgt & Htypes & Hmap).
  simpl in Hmap.
  (* the object behind the reference *)
  destruct (references_deref _ _ _ Hrefs) as [e' [Hen He']].
  rewrite Hderef in He'. injection He' as <-.
  pose proof (getIsEnabled_lookup _ _ k H1) as L1. rewrite Hlc in L1.
  destruct L1 as [e'' [Hen' Hle]]. rewrite Hen in Hen'. injection Hen' as <-.
  (* the types *)
  unfold getListGraphqlTypes in H2.
  pose proof (mapM_lookup _ _ _ k
                (listGraphqlTypes_key (references en) (objects en)) H2) as L2.
  rewrite Hlc in L2. destruct L2 as [t' [Ht' Hbuilt]].
  rewrite Hlgt in Ht'. injection Ht' as <-.
  apply Resolved with (isEnabled := en) (listConfig := lc) (e := e) (t := t);
    simpl; try congruence.
  intros fk f Hin. destruct (Hfields fk f Hin) as [f1 (Hin1 & -> & _)].
  destruct (mapM_In _ _ _ _ Hmap Hin1) as [entry [_ Hinit]].
  apply initialiseField_inv in Hinit. apply Hinit.
Qed.

(** Every entry of the registry, found by key or not: its reference is live
    before the cascade, and the flags of its fields were computed by
    [fieldIsEnabled]. *)
Lemma run_entry (config : KeystoneConfig) (w : World) (k : string)
    (l : InitialisedList) :
  run config w -> In (k, l) (w_lists w) ->
  exists isEnabled e,
    getIsEnabled (cfg_lists config) = Ok isEnabled /\
    w_heap w = cascade (w_lists w) (objects isEnabled) /\
    deref (objects isEnabled) (il_isEnabled l) = Some e /\
    forall fk f, In (fk, f) (il_fields l) ->
      exists d, fieldIsEnabled d e = Ok (fld_isEnabled f).
Proof.
  intros [en lgt il1 res il3 H1 H2 H3 H4 H5 ->]. simpl. intros Hin.
  destruct (mapM_In _ _ _ _ H5 Hin) as [x [Hx Hrelink]].
  unfold attachResolved in Hx. apply in_map_iff in Hx.
  destruct Hx as [[k1 l1] [<- Hin1]]. simpl in Hrelink.
  apply relinkFields_inv in Hrelink.
  destruct Hrelink as (_ & Ha & _ & Hfields). simpl in Ha, Hfields.
  destruct (mapM_In _ _ _ _ H3 Hin1) as [entry [_ Hinit]].
  apply initialiseListFields_inv in Hinit.
  destruct Hinit as (_ & e & t & _ & Hderef & _ & _ & Hmap).
  exists en, e. rewrite Ha. repeat split; try assumption.
  intros fk f Hf. destruct (Hfields fk f Hf) as [f1 (Hin2 & -> & _)].
  destruct (mapM_In _ _ _ _ Hmap Hin2) as [fentry [_ Hfield]].
  apply initialiseField_inv in Hfield. apply Hfield.
Qed.

(** C1. In the registry that [initialiseLists] returns, every field of every
    list has its [filter] and its [orderBy] gated by [read]: if the resolved
    [filter] is truthy (true or a function) then [read] is true, and if the
    resolved [orderBy] is truthy then [read] is true. *)
Theorem read_gates_filter_and_orderBy (config : KeystoneConfig) (w : World)
    (listKey : string) (l : InitialisedList) (fieldKey : string)
    (field : InitialisedField) :
  initialiseLists config = Ok w ->
  In (listKey, l) (w_lists w) ->
  In (fieldKey, field) (il_fields l) ->
  (truthy (fe_filter (fld_isEnabled field)) = true ->
   fe_read (fld_isEnabled field) = true) /\
  (truthy (fe_orderBy (fld_isEnabled field)) = true ->
   fe_read (fld_isEnabled field) = true).
Proof.
  intros Hrun Hl Hf. apply initialiseLists_run in Hrun.
  destruct (run_entry _ _ _ _ Hrun Hl) as (en & e & _ & _ & _ & Hfields).
  destruct (Hfields _ _ Hf) as [d Hd].
  exact (fieldIsEnabled_read_gates _ _ _ Hd).
Qed.

(** ** The effect of the cascade *)

Lemma hasAnEnabledCreateField_none (fields : Obj InitialisedField) :
  (forall fk f, In (fk, f) fields -> fe_create (fld_isEnabled f) = false) ->
  hasAnEnabledCreateField fields = false.
Proof.
  intros H. unfold hasAnEnabledCreateField. generalize false as flag. revert H.
  induction fields as [|[fk f] fields IH]; intros H flag; [reflexivity|].
  cbn [fold_left snd].
  rewrite (H fk f (or_introl eq_refl)), andb_false_r.
  apply IH. intros fk' f' Hin. apply (H fk' f'). right. exact Hin.
Qed.

Lemma hasAnEnabledUpdateField_none (fields : Obj InitialisedField) :
  (forall fk f, In (fk, f) fields -> fe_update (fld_isEnabled f) = false) ->
  hasAnEnabledUpdateField fields = false.
Proof.
  intros H. unfold hasAnEnabledUpdateField. generalize false as flag. revert H.
  induction fields as [|[fk f] fields IH]; intros H flag; [reflexivity|].
  cbn [fold_left snd].
  rewrite (H fk f (or_introl eq_refl)), andb_false_r.
  apply IH. intros fk' f' Hin. apply (H fk' f'). right. exact Hin.
Qed.

(** The step of the cascade for a list, seen at that list's own reference. *)
Lemma disableEmptyOperations_own (l : InitialisedList) (h : Heap) (e : IsEnabled) :
  deref h (il_isEnabled l) = Some e ->
  exists e', deref (disableEmptyOperations l h) (il_isEnabled l) = Some e' /\
    (hasAnEnabledCreateField (il_fields l) = false -> le_create e' = false) /\
    (hasAnEnabledUpdateField (il_fields l) = false -> le_update e' = false).
Proof.
  intros He. unfold disableEmptyOperations.
  destruct (hasAnEnabledCreateField (il_fields l)),
           (hasAnEnabledUpdateField (il_fields l)); simpl;
    repeat rewrite deref_heap_update; repeat rewrite Nat.eqb_refl;
    rewrite He; simpl; eexists; (split; [reflexivity|]); simpl;
    split; intros; first [reflexivity | discriminate].
Qed.

Lemma cascade_disables (lists_ : Obj InitialisedList) (h : Heap) (k : string)
    (l : InitialisedList) (e : IsEnabled) :
  In (k, l) lists_ ->
  deref h (il_isEnabled l) = Some e ->
  exists e', deref (cascade lists_ h) (il_isEnabled l) = Some e' /\
    (hasAnEnabledCreateField (il_fields l) = false -> le_create e' = false) /\
    (hasAnEnabledUpdateField (il_fields l) = false -> le_update e' = false).
Proof.
  unfold cascade. revert h e.
  induction lists_ as [|[k0 l0] lists_ IH]; intros h e Hin He; [destruct Hin|].
  simpl. destruct Hin as [Heq|Hin].
  - injection Heq as -> ->.
    destruct (disableEmptyOperations_own l h e He) as (e1 & He1 & Hc & Hu).
    pose proof (cascade_framed_at lists_ (disableEmptyOperations l h)
                  (il_isEnabled l)) as F.
    unfold framed_at, cascade in F. rewrite He1 in F.
    destruct F as (e' & He' & _ & _ & _ & _ & _ & Fc & Fu).
    exists e'. split; [exact He'|]. split; intros Hnone.
    + specialize (Hc Hnone). destruct (le_create e'); [|reflexivity].
      rewrite Fc in Hc; [discriminate | reflexivity].
    + specialize (Hu Hnone). destruct (le_update e'); [|reflexivity].
      rewrite Fu in Hu; [discriminate | reflexivity].
  - pose proof (disableEmptyOperations_frame l0 h (il_isEnabled l)) as F.
    unfold framed_at in F. rewrite He in F. destruct F as (e1 & He1 & _).
    exact (IH _ e1 Hin He1).
Qed.

(** C2. In the registry that [initialiseLists] returns, a list all of whose
    fields have [create] disabled has [create] disabled itself, whatever its
    declaration omitted; and likewise for [update]. *)
Theorem all_fields_disabled_disables_operation (config : KeystoneConfig)
    (w : World) (listKey : string) (l : InitialisedList) :
  initialiseLists config = Ok w ->
  In (listKey, l) (w_lists w) ->
  exists e, deref (w_heap w) (il_isEnabled l) = Some e /\
    ((forall fk f, In (fk, f) (il_fields l) ->
        fe_create (fld_isEnabled f) = false) -> le_create e = false) /\
    ((forall fk f, In (fk, f) (il_fields l) ->
        fe_update (fld_isEnabled f) = false) -> le_update e = false).
Proof.
  intros Hrun Hl. apply initialiseLists_run in Hrun.
  destruct (run_entry _ _ _ _ Hrun Hl) as (en & e0 & _ & -> & He0 & _).
  destruct (cascade_disables _ _ _ _ _ Hl He0) as (e & He & Hc & Hu).
  exists e. split; [exact He|]. split; intros Hall.
  - apply Hc, hasAnEnabledCreateField_none, Hall.
  - apply Hu, hasAnEnabledUpdateField_none, Hall.
Qed.

(** ** What the closures read is what the lists hold *)

(** The object behind a reference, before and after the cascade. *)
Lemma resolved_final (config : KeystoneConfig) (w : World) (k : string)
    (l : InitialisedList) (e0 : IsEnabled) (isEnabled : Obj IsEnabled) :
  w_heap w = cascade (w_lists w) (objects isEnabled) ->
  deref (objects isEnabled) (il_isEnabled l) = Some e0 ->
  exists e, deref (w_heap w) (il_isEnabled l) = Some e /\ framed e0 e.
Proof.
  intros -> He0.
  pose proof (cascade_framed_at (w_lists w) (objects isEnabled) (il_isEnabled l)) as F.
  unfold framed_at in F. rewrite He0 in F. exact F.
Qed.

Lemma relateTo_inputs_fields (w : World) (a : addr) (e : IsEnabled)
    (listKey : string) (fields : InputFields) :
  deref (w_heap w) a = Some e ->
  In fields [RelateToManyForCreateFields listKey a;
             RelateToManyForUpdateFields listKey a;
             RelateToOneForCreateFields listKey a;
             RelateToOneForUpdateFields listKey a] ->
  exists fs, input_fields w fields = Ok fs /\
    has_key "create" fs = le_create e /\ has_key "connect" fs = true.
Proof.
  intros He Hin. simpl in Hin.
  destruct Hin as [<-|[<-|[<-|[<-|[]]]]]; simpl; rewrite He; simpl;
    eexists; (split; [reflexivity|]); unfold nested_create;
    destruct (le_create e); split; reflexivity.
Qed.

(** C4. In the registry that [initialiseLists] returns, a list whose [type]
    is enabled has all four relation inputs (to-many and to-one, for create
    and for update); run in the final state, each of them has the nested
    [create] argument exactly when the [create] flag of the list, as the
    cascade left it, is true, and each of them has [connect]. *)
Theorem relateTo_create_follows_final_create (config : KeystoneConfig) (w : World)
    (listKey : string) (l : InitialisedList) (e : IsEnabled) :
  initialiseLists config = Ok w ->
  lookup listKey (w_lists w) = Some l ->
  deref (w_heap w) (il_isEnabled l) = Some e ->
  le_type e = true ->
  forall input, In input (relateTo_inputs (il_types l)) ->
    exists t fs, input = Some t /\ input_fields w (io_fields t) = Ok fs /\
      has_key "create" fs = le_create e /\ has_key "connect" fs = true.
Proof.
  intros Hrun Hl He Htype input Hin. apply initialiseLists_run in Hrun.
  destruct (run_resolved _ _ _ _ Hrun Hl)
    as [en lc e0 t R1 R2 R3 R4 R5 R6 R7 R8 R9 R10].
  destruct (resolved_final config w listKey l e0 en R2 R7) as (e' & He' & F).
  rewrite He in He'. injection He' as <-.
  assert (Htype0 : le_type e0 = true) by (destruct F as (F1 & _); congruence).
  unfold listGraphqlTypes, defined in R8. cbn [fst snd] in R8.
  rewrite R6 in R8. simpl in R8. rewrite R7 in R8. simpl in R8.
  rewrite Htype0 in R8. ok_inv R8. rewrite R9 in Hin. simpl in Hin.
  destruct Hin as [<-|[<-|[<-|[<-|[]]]]];
    match goal with
    | |- exists t fs, Some ?x = Some t /\ _ =>
        destruct (relateTo_inputs_fields w (il_isEnabled l) e listKey
                    (io_fields x) He) as (fs & Hfs & Hc & Hk);
        [simpl; auto 6 | exists x, fs; auto]
    end.
Qed.

(** Every configured list is in the registry. *)
Lemma run_lookup (config : KeystoneConfig) (w : World) (k : string)
    (listConfig : ListConfig) :
  run config w -> lookup k (cfg_lists config) = Some listConfig ->
  exists l, lookup k (w_lists w) = Some l.
Proof.
  intros [en lgt il1 res il3 H1 H2 H3 H4 H5 ->]. simpl. intros Hlc.
  unfold getListsWithInitialisedFields in H3.
  pose proof (mapM_lookup _ _ _ k
                (initialiseListFields_key config lgt (references en) (objects en))
                H3) as L3.
  rewrite Hlc in L3. destruct L3 as [l1 [Hl1 _]].
  pose proof (mapM_lookup _ _ _ k relinkFields_key H5) as L5.
  unfold attachResolved in L5.
  rewrite (map_lookup (fun key v => with_resolvedDbFields v (lookup key res))) in L5.
  rewrite Hl1 in L5. simpl in L5. destruct L5 as [l [Hl _]]. exists l. exact Hl.
Qed.

(** C5. A list declared with [graphql.omit: true] is resolved with [type],
    [query], [create], [update], [delete], [filter] and [orderBy] all [false]:
    that is the record [getIsEnabled] makes for it, and the record its entry
    of the registry refers to when [initialiseLists] returns. *)
Theorem omit_true_disables_everything (config : KeystoneConfig) (w : World)
    (listKey : string) (listConfig : ListConfig) :
  initialiseLists config = Ok w ->
  lookup listKey (cfg_lists config) = Some listConfig ->
  list_omit listConfig = Data (JBool true) ->
  (exists isEnabled, getIsEnabled (cfg_lists config) = Ok isEnabled /\
     lookup listKey isEnabled = Some all_disabled) /\
  (exists l, lookup listKey (w_lists w) = Some l /\
     deref (w_heap w) (il_isEnabled l) = Some all_disabled).
Proof.
  intros Hrun Hlc Homit. apply initialiseLists_run in Hrun.
  destruct (run_lookup _ _ _ _ Hrun Hlc) as [l Hl].
  destruct (run_resolved _ _ _ _ Hrun Hl)
    as [en lc e0 t R1 R2 R3 R4 R5 R6 R7 R8 R9 R10].
  rewrite Hlc in R4. injection R4 as <-.
  rewrite (listIsEnabled_omit_true _ _ Homit) in R5. injection R5 as <-.
  split.
  - exists en. split; [exact R1|].
    pose proof (getIsEnabled_lookup _ _ listKey R1) as L. rewrite Hlc in L.
    destruct L as [e [He Hle]].
    rewrite (listIsEnabled_omit_true _ _ Homit) in Hle. congruence.
  - exists l. split; [exact Hl|].
    destruct (resolved_final config w listKey l _ en R2 R7)
      as (e & He & F1 & F2 & F3 & F4 & F5 & F6 & F7).
    rewrite He. f_equal. destruct e as [ty q c u d fl ob]. simpl in *. subst.
    unfold all_disabled. destruct c; [discriminate (F6 eq_refl)|].
    destruct u; [discriminate (F7 eq_refl)|]. reflexivity.
Qed.

(** C10. The paginated-query arguments of a list of the registry: [where]
    defaults to [{ id: { equals: '1' } }] when the list is declared a
    singleton and to [{}] otherwise, [skip] defaults to [0], and [take] has
    no default. *)
Theorem findManyArgs_defaults (config : KeystoneConfig) (w : World)
    (listKey : string) (listConfig : ListConfig) (l : InitialisedList) :
  initialiseLists config = Ok w ->
  lookup listKey (cfg_lists config) = Some listConfig ->
  lookup listKey (w_lists w) = Some l ->
  arg_defaultValue (fm_where (ty_findManyArgs (il_types l))) =
    Some (match lc_isSingleton listConfig with
          | Some true => JObj [("id", JObj [("equals", JStr "1")])]
          | _ => JObj []
          end) /\
  arg_defaultValue (fm_skip (ty_findManyArgs (il_types l))) = Some (JNum 0) /\
  arg_defaultValue (fm_take (ty_findManyArgs (il_types l))) = None.
Proof.
  intros Hrun Hlc Hl. apply initialiseLists_run in Hrun.
  destruct (run_resolved _ _ _ _ Hrun Hl)
    as [en lc e0 t R1 R2 R3 R4 R5 R6 R7 R8 R9 R10].
  rewrite Hlc in R4. injection R4 as <-.
  unfold listGraphqlTypes in R8. bind_inv R8. bind_inv R8. ok_inv R8.
  rewrite R9. simpl. repeat split; reflexivity.
Qed.

(** C6, as the resolver has it. An omission that is neither [true] nor
    [undefined] is read by calling its [includes]; a value that has none
    ([false], [null], a number, a plain object, a function) makes that call
    throw, and resolution fails. Arrays and strings are read through
    [includes] whatever they contain, and are not refused. *)
Theorem omit_without_includes_is_fatal (config : KeystoneConfig)
    (listKey : string) (listConfig : ListConfig) :
  In (listKey, listConfig) (cfg_lists config) ->
  is_true (list_omit listConfig) = false ->
  is_undefined (list_omit listConfig) = false ->
  has_includes (list_omit listConfig) = false ->
  is_err (getIsEnabled (cfg_lists config)) = true /\
  is_err (initialiseLists config) = true.
Proof.
  intros Hin Ht Hu Hi.
  assert (He : is_err (getIsEnabled (cfg_lists config)) = true).
  { eapply getIsEnabled_err; [exact Hin|].
    apply listIsEnabled_no_includes; assumption. }
  split; [exact He | apply initialiseLists_err, He].
Qed.

(** C7, as the resolver has it. For a list that declares no omission (its
    [graphql.omit] is [undefined], or any other falsy value), a
    [defaultIsFilterable] or [defaultIsOrderable] that is neither a boolean,
    nor [undefined], nor a function makes resolution fail. *)
Theorem bad_default_is_fatal_without_omit (config : KeystoneConfig)
    (listKey : string) (listConfig : ListConfig) :
  In (listKey, listConfig) (cfg_lists config) ->
  truthy (list_omit listConfig) = false ->
  is_filter_value (lc_defaultIsFilterable listConfig) = false \/
  is_filter_value (lc_defaultIsOrderable listConfig) = false ->
  is_err (getIsEnabled (cfg_lists config)) = true /\
  is_err (initialiseLists config) = true.
Proof.
  intros Hin Homit Hbad.
  assert (He : is_err (getIsEnabled (cfg_lists config)) = true).
  { eapply getIsEnabled_err; [exact Hin|].
    apply listIsEnabled_bad_default; assumption. }
  split; [exact He | apply initialiseLists_err, He].
Qed.

(** ** Objects built entry by entry *)

Lemma lookup_obj_set {A : Type} (k k' : string) (v : A) (o : Obj A) :
  lookup k (obj_set k' v o) = if String.eqb k' k then Some v else lookup k o.
Proof.
  induction o as [|[k0 v0] o IH]; simpl.
  - reflexivity.
  - destruct (String.eqb_spec k0 k') as [->|Hne]; simpl.
    + destruct (String.eqb k' k); reflexivity.
    + destruct (String.eqb_spec k0 k) as [->|_]; [|exact IH].
      destruct (String.eqb_spec k' k) as [->|_]; [congruence | reflexivity].
Qed.

Lemma In_obj_set {A : Type} (p : string * A) (k : string) (v : A) (o : Obj A) :
  In p (obj_set k v o) -> p = (k, v) \/ In p o.
Proof.
  induction o as [|[k0 v0] o IH]; simpl.
  - intros [<-|[]]. left. reflexivity.
  - destruct (String.eqb k0 k); simpl; intros [<-|H]; auto.
    destruct (IH H); auto.
Qed.

Lemma has_key_assign_all {A : Type} (k : string) (es : list (string * A)) (o : Obj A) :
  has_key k (fold_left assign es o) =
  has_key k o || existsb (fun e => String.eqb (fst e) k) es.
Proof.
  revert o. induction es as [|[k0 v0] es IH]; intros o; simpl.
  - rewrite orb_false_r. reflexivity.
  - rewrite IH. unfold has_key, assign. simpl. rewrite lookup_obj_set.
    destruct (String.eqb k0 k); simpl.
    + rewrite orb_true_r. reflexivity.
    + reflexivity.
Qed.

Lemma In_assign_all {A : Type} (p : string * A) (es : list (string * A)) (o : Obj A) :
  In p (fold_left assign es o) -> In p o \/ In p es.
Proof.
  revert o. induction es as [|[k0 v0] es IH]; intros o; simpl; [auto|].
  intros H. destruct (IH _ H) as [H'|H']; [|auto].
  unfold assign in H'. simpl in H'. destruct (In_obj_set _ _ _ _ H'); auto.
Qed.

Lemma has_key_fromEntries {A : Type} (k : string) (es : list (string * A)) :
  has_key k (fromEntries es) = existsb (fun e => String.eqb (fst e) k) es.
Proof. apply (has_key_assign_all k es []). Qed.

Lemma In_fromEntries {A : Type} (p : string * A) (es : list (string * A)) :
  In p (fromEntries es) -> In p es.
Proof.
  intros H. destruct (In_assign_all p es [] H) as [[]|H']. exact H'.
Qed.

(** The keys a [flatMap] over the fields keeps. *)
Lemma input_entries_key (slot : FieldInput -> option InputSlot)
    (enabled : FieldIsEnabled -> bool) (fields : Obj InitialisedField) (k : string) :
  existsb (fun e => String.eqb (fst e) k) (input_entries slot enabled fields) = true <->
  exists field, In (k, field) fields /\
    is_some (arg_of (slot (fld_input field))) = true /\
    enabled (fld_isEnabled field) = true.
Proof.
  unfold input_entries. rewrite existsb_exists. split.
  - intros [[k' a] [Hin Hk]]. simpl in Hk. apply String.eqb_eq in Hk. subst k'.
    apply in_flat_map in Hin. destruct Hin as [[fk field] [Hf Hin]]. simpl in Hin.
    destruct (arg_of (slot (fld_input field))) eqn:Ea; [|destruct Hin].
    destruct (enabled (fld_isEnabled field)) eqn:Ee; [|destruct Hin].
    destruct Hin as [Heq|[]]. injection Heq as -> ->.
    exists field. rewrite Ea. auto.
  - intros [field (Hin & Ha & He)].
    destruct (arg_of (slot (fld_input field))) as [a|] eqn:Ea; [|discriminate].
    exists (k, a). split; [|apply String.eqb_refl].
    apply in_flat_map. exists (k, field). split; [exact Hin|]. simpl.
    rewrite Ea, He. left. reflexivity.
Qed.

(** C8, as the resolver has it. The unique-filter input of a list of the
    registry always has an [id] argument, of type [ID], whatever the fields
    declare; and any other key is in that input exactly when a field declared
    under it has a unique-lookup argument and has [read] enabled and a truthy
    [filter]. *)
Theorem uniqueWhere_has_id_and_unique_fields (w : World) (listKey : string)
    (l : InitialisedList) :
  lookup listKey (w_lists w) = Some l ->
  exists fs, uniqueWhere_fields w listKey = Ok fs /\
    lookup "id" fs = Some (arg ID) /\
    forall k, k <> "id" ->
      (has_key k fs = true <->
       exists field, In (k, field) (il_fields l) /\
         is_some (arg_of (in_uniqueWhere (fld_input field))) = true /\
         fe_read (fld_isEnabled field) = true /\
         truthy (fe_filter (fld_isEnabled field)) = true).
Proof.
  intros Hl. unfold uniqueWhere_fields, fields_of, defined. rewrite Hl. simpl.
  eexists. split; [reflexivity|]. split.
  - rewrite lookup_obj_set. reflexivity.
  - intros k Hk. unfold has_key at 1. rewrite lookup_obj_set.
    destruct (String.eqb_spec "id" k) as [E|_]; [congruence|].
    fold (has_key k (fromEntries
      (input_entries in_uniqueWhere
         (fun e => fe_read e && truthy (fe_filter e)) (il_fields l)))).
    rewrite has_key_fromEntries, input_entries_key.
    split; intros [field (H1 & H2 & H3)]; exists field.
    + apply andb_true_iff in H3. destruct H3 as [H3 H4].
      split; [exact H1|]. split; [exact H2|]. split; [exact H3 | exact H4].
    + destruct H3 as [H3 H4]. rewrite H3, H4.
      split; [exact H1|]. split; [exact H2 | reflexivity].
Qed.

(** ** The output type *)

Lemma output_shown_unreadable (w : World) (field : InitialisedField) :
  fe_read (fld_isEnabled field) = false -> output_shown w field = Ok None.
Proof.
  intros H. unfold output_shown. rewrite H.
  destruct (fld_output field); reflexivity.
Qed.

Lemma output_shown_unqueryable (w : World) (field : InitialisedField)
    (target : string) (inverse : option string) (many : bool) (e : IsEnabled) :
  fld_dbField field = Some (Relation target inverse many) ->
  isEnabled_of w target = Ok e ->
  le_query e = false ->
  output_shown w field = Ok None.
Proof.
  intros Hdb He Hq. unfold output_shown. rewrite Hdb.
  destruct (fld_output field); [|reflexivity].
  destruct (fe_read (fld_isEnabled field)); [|reflexivity].
  simpl. rewrite He. simpl. rewrite Hq. reflexivity.
Qed.

Lemma output_entries_hidden (w : World) (listKey : string)
    (entry : string * InitialisedField) :
  output_shown w (snd entry) = Ok None -> output_entries w listKey entry = Ok [].
Proof.
  intros H. unfold output_entries. rewrite H. reflexivity.
Qed.

(** Every entry of the output type is an entry that one of the fields
    contributed. *)
Lemma output_fields_from (w : World) (listKey : string) (l : InitialisedList)
    (fs : Obj OutputField) (p : string * OutputField) :
  lookup listKey (w_lists w) = Some l ->
  output_fields w listKey = Ok fs ->
  In p fs ->
  exists entry es,
    In entry (il_fields l) /\ output_entries w listKey entry = Ok es /\ In p es.
Proof.
  intros Hl H Hin. unfold output_fields, fields_of, defined in H.
  rewrite Hl in H. simpl in H. apply bind_Ok in H. destruct H as [ess [Hess H]].
  ok_inv H. apply In_fromEntries in Hin. apply in_concat in Hin.
  destruct Hin as [es [Hes Hp]].
  destruct (mapM_In _ _ _ _ Hess Hes) as [entry [Hentry Hout]].
  exists entry, es. auto.
Qed.

(** In the registry, the record that a closure reads under a list key through
    the captured [intermediateLists] is the one the list itself refers to. *)
Lemma isEnabled_of_list (config : KeystoneConfig) (w : World) (k : string)
    (l : InitialisedList) (e : IsEnabled) :
  run config w -> lookup k (w_lists w) = Some l ->
  deref (w_heap w) (il_isEnabled l) = Some e ->
  isEnabled_of w k = Ok e.
Proof.
  intros Hrun Hl He.
  destruct (run_resolved _ _ _ _ Hrun Hl)
    as [en lc e0 t R1 R2 R3 R4 R5 R6 R7 R8 R9 R10].
  unfold isEnabled_of, defined. rewrite R3, R6. simpl. rewrite He. reflexivity.
Qed.

(** C3. In the registry that [initialiseLists] returns, a field whose [read]
    is disabled, or that is a relation to a list whose [query] is disabled,
    contributes nothing to the output type of its list: the closure of the
    output type yields no entry for it, and every entry of the field set that
    the closure returns was contributed by another field of the list. *)
Theorem output_omits_unreadable_and_unqueryable (config : KeystoneConfig)
    (w : World) (listKey : string) (l : InitialisedList) (fieldKey : string)
    (field : InitialisedField) :
  initialiseLists config = Ok w ->
  lookup listKey (w_lists w) = Some l ->
  In (fieldKey, field) (il_fields l) ->
  fe_read (fld_isEnabled field) = false \/
  (exists target inverse many targetList e,
     fld_dbField field = Some (Relation target inverse many) /\
     lookup target (w_lists w) = Some targetList /\
     deref (w_heap w) (il_isEnabled targetList) = Some e /\
     le_query e = false) ->
  output_entries w listKey (fieldKey, field) = Ok [] /\
  forall fs p, output_fields w listKey = Ok fs -> In p fs ->
    exists entry es,
      In entry (il_fields l) /\ entry <> (fieldKey, field) /\
      output_entries w listKey entry = Ok es /\ In p es.
Proof.
  intros Hrun Hl Hf Hoff. apply initialiseLists_run in Hrun.
  assert (Hnone : output_entries w listKey (fieldKey, field) = Ok []).
  { apply output_entries_hidden. simpl.
    destruct Hoff as [Hread | (target & inverse & many & tl & e & Hdb & Htl & He & Hq)].
    - apply output_shown_unreadable, Hread.
    - eapply output_shown_unqueryable; [exact Hdb | | exact Hq].
      eapply isEnabled_of_list; eassumption. }
  split; [exact Hnone|]. intros fs p Hfs Hp.
  destruct (output_fields_from _ _ _ _ _ Hl Hfs Hp) as (entry & es & H1 & H2 & H3).
  exists entry, es. repeat split; try assumption.
  intros ->. rewrite Hnone in H2. ok_inv H2. destruct H3.
Qed.

(** * Further properties of the resolver *)

(** ** Keys *)

(** A loop over the entries of a record that keeps every key returns a record
    with the same keys, in the same order. *)
Lemma mapM_keys {A B : Type} (f : string * A -> result (string * B))
    (l : Obj A) (l' : Obj B) :
  (forall x y, f x = Ok y -> fst y = fst x) ->
  mapM f l = Ok l' -> map fst l' = map fst l.
Proof.
  intros Hkey. revert l'. induction l as [|x l IH]; simpl; intros l' H.
  - ok_inv H. reflexivity.
  - bind_inv H. bind_inv H. ok_inv H. simpl.
    rewrite (Hkey _ _ E), (IH _ E0). reflexivity.
Qed.


Lemma relinkFields_fields (entry : string * InitialisedList) (k : string)
    (l : InitialisedList) :
  relinkFields entry = Ok (k, l) ->
  map fst (il_fields l) = map fst (il_fields (snd entry)) /\
  il_listKey l = il_listKey (snd entry) /\
  il_resolvedDbFields l = il_resolvedDbFields (snd entry) /\
  forall fk f, In (fk, f) (il_fields l) ->
    exists r, il_resolvedDbFields (snd entry) = Some r /\
      fld_dbField f = lookup fk r.
Proof.
  unfold relinkFields. intros H.
  apply bind_Ok in H. destruct H as [fields [Hf H]]. ok_inv H. simpl.
  split; [|split; [reflexivity|split; [reflexivity|]]].
  - eapply mapM_keys; [|exact Hf]. intros x y E. bind_inv E. ok_inv E. reflexivity.
  - intros fk f Hin. destruct (mapM_In _ _ _ _ Hf Hin) as [[fk1 f1] [_ E]].
    unfold defined in E. destruct (il_resolvedDbFields (snd entry)) as [r|];
      [|discriminate].
    simpl in E. ok_inv E. exists r. split; reflexivity.
Qed.

Lemma run_list_keys (config : KeystoneConfig) (w : World) :
  run config w -> map fst (w_lists w) = map fst (cfg_lists config).
Proof.
  intros Hrun. destruct Hrun as [en lgt il1 res il3 H1 H2 H3 H4 H5 ->]. simpl.
  rewrite (mapM_keys _ _ _ relinkFields_key H5). unfold attachResolved.
  rewrite map_map. simpl.
  exact (mapM_keys _ _ _
           (initialiseListFields_key config lgt (references en) (objects en)) H3).
Qed.


(** ** References *)

Lemma references_keys_from (isEnabled : Obj IsEnabled) (s : nat) :
  map fst (combine (map fst isEnabled) (seq s (List.length isEnabled)))
    = map fst isEnabled.
Proof.
  revert s. induction isEnabled as [|[k e] en IH]; intros s; simpl; [reflexivity|].
  rewrite IH. reflexivity.
Qed.

(** A reference is the position of the first entry under its key. *)
Lemma references_position_from (k : string) (isEnabled : Obj IsEnabled)
    (s : nat) (a : addr) :
  lookup k (combine (map fst isEnabled) (seq s (List.length isEnabled))) = Some a ->
  exists i, a = s + i /\ nth_error (map fst isEnabled) i = Some k.
Proof.
  revert s. induction isEnabled as [|[k0 e0] en IH]; intros s; simpl; [discriminate|].
  destruct (String.eqb_spec k0 k) as [->|_].
  - intros H. injection H as <-. exists 0. split; [lia | reflexivity].
  - intros H. destruct (IH _ H) as [i [-> Hi]]. exists (S i). split; [lia | exact Hi].
Qed.

Lemma references_injective (isEnabled : Obj IsEnabled) (k1 k2 : string) (a : addr) :
  lookup k1 (references isEnabled) = Some a ->
  lookup k2 (references isEnabled) = Some a ->
  k1 = k2.
Proof.
  unfold references, addr. intros H1 H2.
  apply references_position_from in H1. apply references_position_from in H2.
  destruct H1 as [i [-> H1]]. destruct H2 as [j [Hj H2]].
  assert (i = j) by lia. subst j. congruence.
Qed.

Lemma heap_update_length (a : addr) (f : IsEnabled -> IsEnabled) (h : Heap) :
  List.length (heap_update a f h) = List.length h.
Proof.
  revert a. induction h as [|e h IH]; intros a; simpl; [reflexivity|].
  destruct a; simpl; [reflexivity | rewrite IH; reflexivity].
Qed.

Lemma cascade_length (lists_ : Obj InitialisedList) (h : Heap) :
  List.length (cascade lists_ h) = List.length h.
Proof.
  unfold cascade. revert h. induction lists_ as [|entry lists_ IH]; intros h; simpl;
    [reflexivity|].
  rewrite IH. unfold disableEmptyOperations.
  destruct (negb (hasAnEnabledCreateField _)), (negb (hasAnEnabledUpdateField _));
    repeat rewrite heap_update_length; reflexivity.
Qed.

(** Every entry of the registry holds the reference kept under its key. *)
Lemma run_entry_reference (config : KeystoneConfig) (w : World) (k : string)
    (l : InitialisedList) :
  run config w -> In (k, l) (w_lists w) ->
  lookup k (w_intermediateLists w) = Some (il_isEnabled l).
Proof.
  intros [en lgt il1 res il3 H1 H2 H3 H4 H5 ->]. simpl. intros Hin.
  destruct (mapM_In _ _ _ _ H5 Hin) as [x [Hx Hrelink]].
  unfold attachResolved in Hx. apply in_map_iff in Hx.
  destruct Hx as [[k1 l1] [<- Hin1]]. simpl in Hrelink.
  apply relinkFields_inv in Hrelink. destruct Hrelink as (Hk & Ha & _).
  simpl in Hk, Ha. subst k1.
  destruct (mapM_In _ _ _ _ H3 Hin1) as [[k0 lc] [_ Hinit]].
  apply initialiseListFields_inv in Hinit.
  destruct Hinit as (Hk0 & e & t & Hrefs & _). simpl in Hk0. subst k0.
  rewrite Ha. exact Hrefs.
Qed.

(** X2. When [initialiseLists] returns there is one [IsEnabled]
    object per configured list; the record the closures captured has the keys
    of the configuration; every list of the registry holds the reference kept
    under its key, and that reference is live; and lists under different keys
    never share an object. *)
Theorem registry_references (config : KeystoneConfig) (w : World) :
  initialiseLists config = Ok w ->
  List.length (w_heap w) = List.length (cfg_lists config) /\
  map fst (w_intermediateLists w) = map fst (cfg_lists config) /\
  (forall k l, In (k, l) (w_lists w) ->
     lookup k (w_intermediateLists w) = Some (il_isEnabled l) /\
     il_isEnabled l < List.length (w_heap w)) /\
  (forall k1 l1 k2 l2,
     In (k1, l1) (w_lists w) -> In (k2, l2) (w_lists w) ->
     il_isEnabled l1 = il_isEnabled l2 -> k1 = k2).
Proof.
  intros Hrun. apply initialiseLists_run in Hrun.
  pose proof Hrun as [en lgt il1 res il3 H1 H2 H3 H4 H5 Hw].
  assert (Hkeys : map fst en = map fst (cfg_lists config)).
  { unfold getIsEnabled in H1. eapply mapM_keys; [|exact H1].
    intros x y E. bind_inv E. ok_inv E. reflexivity. }
  assert (Hlen : List.length (w_heap w) = List.length (cfg_lists config)).
  { rewrite Hw. simpl. rewrite cascade_length. unfold objects.
    rewrite length_map, <- (length_map fst en), Hkeys, length_map. reflexivity. }
  split; [exact Hlen|]. split.
  { rewrite Hw. simpl. unfold references. rewrite references_keys_from. exact Hkeys. }
  split.
  - intros k l Hin. split; [exact (run_entry_reference _ _ _ _ Hrun Hin)|].
    destruct (run_entry _ _ _ _ Hrun Hin) as (en' & e & _ & Hheap & He & _).
    apply nth_error_Some. rewrite Hheap.
    pose proof (cascade_framed_at (w_lists w) (objects en') (il_isEnabled l)) as F.
    unfold framed_at in F. rewrite He in F. destruct F as [e' [He' _]].
    unfold deref in He'. rewrite He'. discriminate.
  - intros k1 l1 k2 l2 Hin1 Hin2 Heq.
    pose proof (run_entry_reference _ _ _ _ Hrun Hin1) as R1.
    pose proof (run_entry_reference _ _ _ _ Hrun Hin2) as R2.
    rewrite Hw in R1, R2. simpl in R1, R2. rewrite Heq in R1.
    exact (references_injective _ _ _ _ R1 R2).
Qed.

(** ** The cascade, exactly *)

Lemma hasAnEnabledCreateField_existsb (fields : Obj InitialisedField) :
  hasAnEnabledCreateField fields =
  existsb (fun fe => is_some (arg_of (in_create (fld_input (snd fe))))
                     && fe_create (fld_isEnabled (snd fe))) fields.
Proof.
  unfold hasAnEnabledCreateField.
  rewrite <- (orb_false_l (existsb _ fields)). generalize false as flag.
  induction fields as [|fe fields IH]; intros flag; simpl.
  - rewrite orb_false_r. reflexivity.
  - rewrite IH. destruct (_ && _), flag; reflexivity.
Qed.

Lemma hasAnEnabledUpdateField_existsb (fields : Obj InitialisedField) :
  hasAnEnabledUpdateField fields =
  existsb (fun fe => is_some (in_update (fld_input (snd fe)))
                     && fe_update (fld_isEnabled (snd fe))) fields.
Proof.
  unfold hasAnEnabledUpdateField.
  rewrite <- (orb_false_l (existsb _ fields)). generalize false as flag.
  induction fields as [|fe fields IH]; intros flag; simpl.
  - rewrite orb_false_r. reflexivity.
  - rewrite IH. destruct (_ && _), flag; reflexivity.
Qed.

(** What the cascade makes of the [IsEnabled] of a list with the given
    fields: [create] and [update] stay on only if a field supports them. *)
Definition cascaded (fields : Obj InitialisedField) (e : IsEnabled) : IsEnabled :=
  mkIsEnabled (le_type e) (le_query e)
    (le_create e && hasAnEnabledCreateField fields)
    (le_update e && hasAnEnabledUpdateField fields)
    (le_delete e) (le_filter e) (le_orderBy e).

Lemma cascaded_idempotent (fields : Obj InitialisedField) (e : IsEnabled) :
  cascaded fields (cascaded fields e) = cascaded fields e.
Proof.
  unfold cascaded. simpl.
  destruct (le_create e), (le_update e), (hasAnEnabledCreateField fields),
    (hasAnEnabledUpdateField fields); reflexivity.
Qed.

(** The step of the cascade for [l], seen at any reference. *)
Lemma disableEmptyOperations_at (l : InitialisedList) (h : Heap) (a : addr)
    (e : IsEnabled) :
  deref h a = Some e ->
  deref (disableEmptyOperations l h) a =
  Some (if Nat.eqb (il_isEnabled l) a then cascaded (il_fields l) e else e).
Proof.
  intros He. unfold disableEmptyOperations, cascaded.
  destruct (hasAnEnabledCreateField (il_fields l)),
           (hasAnEnabledUpdateField (il_fields l)); simpl;
    repeat rewrite deref_heap_update;
    destruct (Nat.eqb (il_isEnabled l) a); rewrite He; simpl;
    destruct e as [ty q c u d fl ob]; simpl;
    repeat rewrite andb_true_r; repeat rewrite andb_false_r; reflexivity.
Qed.

Lemma cascade_at_most_once (lists_ : Obj InitialisedList) (l : InitialisedList)
    (h : Heap) (a : addr) (e : IsEnabled) :
  (forall k' l', In (k', l') lists_ -> il_isEnabled l' = a -> l' = l) ->
  deref h a = Some e ->
  deref (cascade lists_ h) a = Some e \/
  deref (cascade lists_ h) a = Some (cascaded (il_fields l) e).
Proof.
  unfold cascade. revert h e.
  induction lists_ as [|[k0 l0] lists_ IH]; intros h e Hsame He; simpl; [auto|].
  pose proof (disableEmptyOperations_at l0 h a e He) as Hstep.
  assert (Hrest : forall k' l', In (k', l') lists_ -> il_isEnabled l' = a -> l' = l)
    by (intros k' l' Hin; apply (Hsame k' l'); right; exact Hin).
  destruct (Nat.eqb_spec (il_isEnabled l0) a) as [Ha|_].
  - pose proof (Hsame k0 l0 (or_introl eq_refl) Ha) as ->.
    destruct (IH _ _ Hrest Hstep) as [H|H]; [auto|].
    rewrite cascaded_idempotent in H. auto.
  - exact (IH _ _ Hrest Hstep).
Qed.

Lemma cascade_exactly (lists_ : Obj InitialisedList) (k : string)
    (l : InitialisedList) (h : Heap) (e : IsEnabled) :
  (forall k' l', In (k', l') lists_ -> il_isEnabled l' = il_isEnabled l -> l' = l) ->
  In (k, l) lists_ ->
  deref h (il_isEnabled l) = Some e ->
  deref (cascade lists_ h) (il_isEnabled l) = Some (cascaded (il_fields l) e).
Proof.
  revert h e.
  induction lists_ as [|[k0 l0] lists_ IH]; intros h e Hsame Hin He; [destruct Hin|].
  pose proof (disableEmptyOperations_at l0 h (il_isEnabled l) e He) as Hstep.
  assert (Hrest : forall k' l', In (k', l') lists_ ->
                    il_isEnabled l' = il_isEnabled l -> l' = l)
    by (intros k' l' Hin'; apply (Hsame k' l'); right; exact Hin').
  change (cascade ((k0, l0) :: lists_) h)
    with (cascade lists_ (disableEmptyOperations l0 h)).
  destruct (Nat.eqb_spec (il_isEnabled l0) (il_isEnabled l)) as [Ha|Hne].
  - pose proof (Hsame k0 l0 (or_introl eq_refl) Ha) as ->.
    destruct (cascade_at_most_once lists_ l _ _ _ Hrest Hstep) as [H|H]; [exact H|].
    rewrite cascaded_idempotent in H. exact H.
  - destruct Hin as [Heq|Hin]; [injection Heq as _ ->; congruence|].
    exact (IH _ _ Hrest Hin Hstep).
Qed.

Lemma NoDup_keys_same {A : Type} (o : Obj A) (k : string) (v v' : A) :
  NoDup (map fst o) -> In (k, v) o -> In (k, v') o -> v = v'.
Proof.
  induction o as [|[k0 v0] o IH]; simpl; intros Hnd H1 H2; [destruct H1|].
  inversion Hnd as [|? ? Hnotin Hnd']; subst.
  destruct H1 as [E1|H1], H2 as [E2|H2].
  - congruence.
  - injection E1 as -> ->. exfalso. apply Hnotin.
    apply in_map_iff. exists (k, v'). auto.
  - injection E2 as -> ->. exfalso. apply Hnotin.
    apply in_map_iff. exists (k, v). auto.
  - exact (IH Hnd' H1 H2).
Qed.

Lemma run_cascaded (config : KeystoneConfig) (w : World) (k : string)
    (l : InitialisedList) :
  initialiseLists config = Ok w ->
  NoDup (map fst (cfg_lists config)) ->
  In (k, l) (w_lists w) ->
  exists listConfig e,
    lookup k (cfg_lists config) = Some listConfig /\
    listIsEnabled k listConfig = Ok e /\
    deref (w_heap w) (il_isEnabled l) = Some (cascaded (il_fields l) e).
Proof.
  intros Hinit Hnd Hin.
  pose proof (initialiseLists_run _ _ Hinit) as Hrun.
  pose proof (run_list_keys _ _ Hrun) as Hkeys.
  pose proof (run_entry_reference _ _ _ _ Hrun Hin) as Href.
  destruct (run_entry _ _ _ _ Hrun Hin) as (en & e & Hen & Hheap & He & _).
  assert (Hrefs : w_intermediateLists w = references en).
  { destruct Hrun as [en' lgt il1 res il3 H1 H2 H3 H4 H5 ->]. simpl.
    rewrite Hen in H1. injection H1 as <-. reflexivity. }
  rewrite Hrefs in Href.
  destruct (references_deref _ _ _ Href) as [e' [Hlook He']].
  rewrite He in He'. injection He' as <-.
  pose proof (getIsEnabled_lookup _ _ k Hen) as L.
  destruct (lookup k (cfg_lists config)) as [lc|]; [|congruence].
  destruct L as [e' [Hlook' Hle]]. rewrite Hlook in Hlook'. injection Hlook' as <-.
  exists lc, e. split; [reflexivity|]. split; [exact Hle|].
  rewrite Hheap. apply cascade_exactly with (k := k); [|exact Hin|exact He].
  intros k' l' Hin' Heq.
  assert (k' = k).
  { pose proof (run_entry_reference _ _ _ _ Hrun Hin') as Href'.
    rewrite Hrefs, Heq in Href'. exact (references_injective _ _ _ _ Href' Href). }
  subst k'. rewrite <- Hkeys in Hnd. exact (NoDup_keys_same _ _ _ _ Hnd Hin' Hin).
Qed.

(** X3. With distinct list keys, the enablement of every list of the
    registry is what [getIsEnabled] computed from its declaration, except for
    [create] and [update]: [create] is on in the end exactly when it was on
    and some field of the list has a create argument and has create enabled,
    and [update] exactly when it was on and some field has an update input
    and has update enabled. [type], [query], [delete], [filter] and
    [orderBy] are as [getIsEnabled] computed them. *)
Theorem final_enablement (config : KeystoneConfig) (w : World) (k : string)
    (l : InitialisedList) :
  initialiseLists config = Ok w ->
  NoDup (map fst (cfg_lists config)) ->
  In (k, l) (w_lists w) ->
  exists listConfig e e',
    lookup k (cfg_lists config) = Some listConfig /\
    listIsEnabled k listConfig = Ok e /\
    deref (w_heap w) (il_isEnabled l) = Some e' /\
    le_type e' = le_type e /\ le_query e' = le_query e /\
    le_delete e' = le_delete e /\ le_filter e' = le_filter e /\
    le_orderBy e' = le_orderBy e /\
    (le_create e' = true <->
     le_create e = true /\
     exists fieldKey field,
       In (fieldKey, field) (il_fields l) /\
       is_some (arg_of (in_create (fld_input field))) = true /\
       fe_create (fld_isEnabled field) = true) /\
    (le_update e' = true <->
     le_update e = true /\
     exists fieldKey field,
       In (fieldKey, field) (il_fields l) /\
       is_some (in_update (fld_input field)) = true /\
       fe_update (fld_isEnabled field) = true).
Proof.
  intros Hinit Hnd Hin.
  destruct (run_cascaded _ _ _ _ Hinit Hnd Hin) as (lc & e & Hlc & He & Hfinal).
  exists lc, e, (cascaded (il_fields l) e).
  split; [exact Hlc|]. split; [exact He|]. split; [exact Hfinal|].
  unfold cascaded. cbn [le_type le_query le_create le_update le_delete
                        le_filter le_orderBy].
  repeat (split; [reflexivity|]).
  rewrite hasAnEnabledCreateField_existsb, hasAnEnabledUpdateField_existsb.
  rewrite !andb_true_iff, !existsb_exists. split.
  - split.
    + intros [Hon [[fk field] [Hfield Htest]]].
      apply andb_true_iff in Htest. cbn [snd] in Htest.
      split; [exact Hon|]. exists fk, field. split; [exact Hfield | exact Htest].
    + intros [Hon (fk & field & Hfield & Harg & Hflag)].
      split; [exact Hon|]. exists (fk, field). split; [exact Hfield|].
      cbn [snd]. rewrite Harg, Hflag. reflexivity.
  - split.
    + intros [Hon [[fk field] [Hfield Htest]]].
      apply andb_true_iff in Htest. cbn [snd] in Htest.
      split; [exact Hon|]. exists fk, field. split; [exact Hfield | exact Htest].
    + intros [Hon (fk & field & Hfield & Harg & Hflag)].
      split; [exact Hon|]. exists (fk, field). split; [exact Hfield|].
      cbn [snd]. rewrite Harg, Hflag. reflexivity.
Qed.

(** ** Input types are not empty when their operation is on *)

Lemma final_create_has_field (config : KeystoneConfig) (w : World) (k : string)
    (l : InitialisedList) (e : IsEnabled) :
  run config w -> In (k, l) (w_lists w) ->
  deref (w_heap w) (il_isEnabled l) = Some e ->
  (le_create e = true -> hasAnEnabledCreateField (il_fields l) = true) /\
  (le_update e = true -> hasAnEnabledUpdateField (il_fields l) = true).
Proof.
  intros Hrun Hin He.
  destruct (run_entry _ _ _ _ Hrun Hin) as (en & e0 & _ & Hheap & He0 & _).
  rewrite Hheap in He.
  destruct (cascade_disables _ _ _ _ _ Hin He0) as (e' & He' & Hc & Hu).
  rewrite He in He'. injection He' as <-. split; intros Hon.
  - destruct (hasAnEnabledCreateField (il_fields l)); [reflexivity|].
    rewrite Hc in Hon; [discriminate | reflexivity].
  - destruct (hasAnEnabledUpdateField (il_fields l)); [reflexivity|].
    rewrite Hu in Hon; [discriminate | reflexivity].
Qed.

(** X4. In the registry that [initialiseLists] returns, a list whose
    [create] is on has a create input with at least one field. *)
Theorem create_input_not_empty (config : KeystoneConfig) (w : World) (k : string)
    (l : InitialisedList) (e : IsEnabled) :
  initialiseLists config = Ok w ->
  lookup k (w_lists w) = Some l ->
  deref (w_heap w) (il_isEnabled l) = Some e ->
  le_create e = true ->
  exists fs fieldKey,
    input_fields w (io_fields (ty_create (il_types l))) = Ok fs /\
    has_key fieldKey fs = true.
Proof.
  intros Hinit Hl He Hon. pose proof (initialiseLists_run _ _ Hinit) as Hrun.
  destruct (final_create_has_field _ _ _ _ _ Hrun (lookup_In _ _ _ Hl) He) as [Hc _].
  specialize (Hc Hon). rewrite hasAnEnabledCreateField_existsb in Hc.
  apply existsb_exists in Hc. destruct Hc as [[fk f] [Hin Hf]]. simpl in Hf.
  apply andb_true_iff in Hf. destruct Hf as [Harg Hcreate].
  destruct (run_resolved _ _ _ _ Hrun Hl)
    as [en lc e0 t R1 R2 R3 R4 R5 R6 R7 R8 R9 R10].
  unfold listGraphqlTypes in R8. bind_inv R8. bind_inv R8. ok_inv R8.
  rewrite R9. simpl. unfold create_fields, fields_of, defined. rewrite Hl. simpl.
  eexists. exists fk. split; [reflexivity|].
  rewrite has_key_fromEntries. apply input_entries_key.
  exists f. split; [exact Hin|]. split; assumption.
Qed.

(** X5. The cascade tests [field.input?.update], not its [arg]. So a
    list whose [update] is on has a field with an update input and update
    enabled; and if the update inputs of its fields all carry an [arg], as
    their type says, its update input has at least one field. *)
Theorem update_input_not_empty (config : KeystoneConfig) (w : World) (k : string)
    (l : InitialisedList) (e : IsEnabled) :
  initialiseLists config = Ok w ->
  lookup k (w_lists w) = Some l ->
  deref (w_heap w) (il_isEnabled l) = Some e ->
  le_update e = true ->
  (exists fieldKey field slot,
     In (fieldKey, field) (il_fields l) /\
     in_update (fld_input field) = Some slot /\
     fe_update (fld_isEnabled field) = true) /\
  ((forall fk f slot, In (fk, f) (il_fields l) ->
      in_update (fld_input f) = Some slot -> slot_arg slot <> None) ->
   exists fs fieldKey,
     input_fields w (io_fields (ty_update (il_types l))) = Ok fs /\
     has_key fieldKey fs = true).
Proof.
  intros Hinit Hl He Hon. pose proof (initialiseLists_run _ _ Hinit) as Hrun.
  destruct (final_create_has_field _ _ _ _ _ Hrun (lookup_In _ _ _ Hl) He) as [_ Hu].
  specialize (Hu Hon). rewrite hasAnEnabledUpdateField_existsb in Hu.
  apply existsb_exists in Hu. destruct Hu as [[fk f] [Hin Hf]]. simpl in Hf.
  apply andb_true_iff in Hf. destruct Hf as [Hslot Hupdate].
  destruct (in_update (fld_input f)) as [slot|] eqn:Eslot; [|discriminate].
  split; [exists fk, f, slot; auto|]. intros Hargs.
  destruct (run_resolved _ _ _ _ Hrun Hl)
    as [en lc e0 t R1 R2 R3 R4 R5 R6 R7 R8 R9 R10].
  unfold listGraphqlTypes in R8. bind_inv R8. bind_inv R8. ok_inv R8.
  rewrite R9. simpl. unfold update_fields, fields_of, defined. rewrite Hl. simpl.
  eexists. exists fk. split; [reflexivity|].
  rewrite has_key_fromEntries. apply input_entries_key.
  exists f. split; [exact Hin|]. split; [|exact Hupdate].
  rewrite Eslot. simpl. specialize (Hargs fk f slot Hin Eslot).
  destruct (slot_arg slot); [reflexivity | congruence].
Qed.

(** ** The other input types *)

(** X6. The filter input of a list of the registry always has the
    combinators [AND], [OR] and [NOT]; any other key is in it exactly when a
    field declared under it has a filter argument, has [read] enabled and has
    a truthy [filter]. *)
Theorem where_has_combinators_and_filterable_fields (w : World)
    (listKey : string) (l : InitialisedList) :
  lookup listKey (w_lists w) = Some l ->
  exists fs, where_fields w listKey = Ok fs /\
    has_key "AND" fs = true /\ has_key "OR" fs = true /\ has_key "NOT" fs = true /\
    forall k, k <> "AND" -> k <> "OR" -> k <> "NOT" ->
      (has_key k fs = true <->
       exists field, In (k, field) (il_fields l) /\
         is_some (arg_of (in_where (fld_input field))) = true /\
         fe_read (fld_isEnabled field) = true /\
         truthy (fe_filter (fld_isEnabled field)) = true).
Proof.
  intros Hl. unfold where_fields, fields_of, defined. rewrite Hl. simpl.
  eexists. split; [reflexivity|].
  repeat (split; [rewrite has_key_assign_all; reflexivity|]).
  intros k H1 H2 H3. rewrite has_key_assign_all.
  assert (Hbase : has_key k
            [("AND", arg (GList (NonNull (InputObject listKey KWhere))));
             ("OR", arg (GList (NonNull (InputObject listKey KWhere))));
             ("NOT", arg (GList (NonNull (InputObject listKey KWhere))))] = false).
  { unfold has_key. cbn [lookup].
    destruct (String.eqb_spec "AND" k); [congruence|].
    destruct (String.eqb_spec "OR" k); [congruence|].
    destruct (String.eqb_spec "NOT" k); [congruence|]. reflexivity. }
  rewrite Hbase. simpl. rewrite input_entries_key.
  split; intros [field (F1 & F2 & F3)]; exists field.
  - apply andb_true_iff in F3. destruct F3 as [F3 F4].
    split; [exact F1|]. split; [exact F2|]. split; [exact F3 | exact F4].
  - destruct F3 as [F3 F4]. rewrite F3, F4.
    split; [exact F1|]. split; [exact F2 | reflexivity].
Qed.

(** X7. A key is in the create input of a list of the registry
    exactly when a field declared under it has a create argument and has
    [create] enabled; and likewise for the update input. Neither looks at
    [read]. *)
Theorem create_and_update_fields (w : World) (listKey : string)
    (l : InitialisedList) :
  lookup listKey (w_lists w) = Some l ->
  exists cs us,
    create_fields w listKey = Ok cs /\ update_fields w listKey = Ok us /\
    forall k,
      (has_key k cs = true <->
       exists field, In (k, field) (il_fields l) /\
         is_some (arg_of (in_create (fld_input field))) = true /\
         fe_create (fld_isEnabled field) = true) /\
      (has_key k us = true <->
       exists field, In (k, field) (il_fields l) /\
         is_some (arg_of (in_update (fld_input field))) = true /\
         fe_update (fld_isEnabled field) = true).
Proof.
  intros Hl. unfold create_fields, update_fields, fields_of, defined.
  rewrite Hl. simpl. eexists. eexists.
  split; [reflexivity|]. split; [reflexivity|].
  intros k. repeat rewrite has_key_fromEntries.
  split; apply input_entries_key.
Qed.

(** X8. A key is in the order input of a list of the registry exactly
    when a field declared under it has an order argument, has [read] enabled
    and has a truthy [orderBy]. *)
Theorem orderBy_has_orderable_fields (w : World) (listKey : string)
    (l : InitialisedList) :
  lookup listKey (w_lists w) = Some l ->
  exists fs, orderBy_fields w listKey = Ok fs /\
    forall k,
      (has_key k fs = true <->
       exists field, In (k, field) (il_fields l) /\
         is_some (arg_of (in_orderBy (fld_input field))) = true /\
         fe_read (fld_isEnabled field) = true /\
         truthy (fe_orderBy (fld_isEnabled field)) = true).
Proof.
  intros Hl. unfold orderBy_fields, fields_of, defined. rewrite Hl. simpl.
  eexists. split; [reflexivity|]. intros k.
  rewrite has_key_fromEntries, input_entries_key.
  split; intros [field (F1 & F2 & F3)]; exists field.
  - apply andb_true_iff in F3. destruct F3 as [F3 F4].
    split; [exact F1|]. split; [exact F2|]. split; [exact F3 | exact F4].
  - destruct F3 as [F3 F4]. rewrite F3, F4.
    split; [exact F1|]. split; [exact F2 | reflexivity].
Qed.

(** ** Relation inputs *)

Lemma listIsEnabled_type (listKey : string) (listConfig : ListConfig)
    (e : IsEnabled) :
  listIsEnabled listKey listConfig = Ok e ->
  le_type e = negb (is_true (list_omit listConfig)).
Proof.
  unfold listIsEnabled. intros H. bind_inv H.
  destruct (is_true (list_omit listConfig)); [ok_inv H; reflexivity|].
  destruct (is_undefined (list_omit listConfig)); [ok_inv H; reflexivity|].
  bind_inv H. bind_inv H. bind_inv H. bind_inv H. ok_inv H. reflexivity.
Qed.

(** X9. In the registry that [initialiseLists] returns, the four
    relation inputs of a list are all there, or all missing: they are missing
    exactly when the list is declared with [graphql.omit: true]. The filter
    over a to-many relation is there in both cases, with [every], [some] and
    [none]. *)
Theorem relateTo_inputs_unless_omitted (config : KeystoneConfig) (w : World)
    (k : string) (listConfig : ListConfig) (l : InitialisedList) :
  initialiseLists config = Ok w ->
  lookup k (cfg_lists config) = Some listConfig ->
  lookup k (w_lists w) = Some l ->
  (forall input, In input (relateTo_inputs (il_types l)) ->
     is_some input = negb (is_true (list_omit listConfig))) /\
  exists fs,
    input_fields w (io_fields (many_where (ty_relateTo_many (il_types l)))) = Ok fs /\
    map fst fs = ["every"; "some"; "none"].
Proof.
  intros Hinit Hlc Hl. apply initialiseLists_run in Hinit.
  destruct (run_resolved _ _ _ _ Hinit Hl)
    as [en lc e0 t R1 R2 R3 R4 R5 R6 R7 R8 R9 R10].
  rewrite Hlc in R4. injection R4 as <-.
  rewrite <- (listIsEnabled_type _ _ _ R5).
  unfold listGraphqlTypes, defined in R8. cbn [fst snd] in R8.
  rewrite R6 in R8. simpl in R8. rewrite R7 in R8. simpl in R8.
  ok_inv R8. rewrite R9. simpl. split.
  - intros input [<-|[<-|[<-|[<-|[]]]]]; destruct (le_type e0); reflexivity.
  - eexists. split; reflexivity.
Qed.

(** ** When resolution fails *)

Lemma is_err_bind {A B : Type} (r : result A) (k : A -> result B) :
  is_err r = true -> is_err (bind r k) = true.
Proof. destruct r; [discriminate | reflexivity]. Qed.

Lemma mapM_ok_iff {A B : Type} (f : A -> result B) (l : list A) :
  is_err (mapM f l) = false <-> forall a, In a l -> is_err (f a) = false.
Proof.
  induction l as [|x l IH]; simpl.
  - split; [intros _ a [] | reflexivity].
  - destruct (f x) as [b|e] eqn:E; simpl.
    + destruct (mapM f l) as [bs|e]; simpl.
      * split; [|reflexivity]. intros _ a [<-|Hin];
          [rewrite E; reflexivity | apply IH; [reflexivity | exact Hin]].
      * split; [discriminate|]. intros H. apply IH. intros a Hin. apply H. auto.
    + split; [discriminate|]. intros H.
      specialize (H x (or_introl eq_refl)). rewrite E in H. discriminate H.
Qed.

Lemma listIsEnabled_ok_iff (listKey : string) (listConfig : ListConfig) :
  is_err (listIsEnabled listKey listConfig) = false <->
  (truthy (list_omit listConfig) = false ->
   is_filter_value (lc_defaultIsFilterable listConfig) = true /\
   is_filter_value (lc_defaultIsOrderable listConfig) = true) /\
  (is_true (list_omit listConfig) = true \/
   is_undefined (list_omit listConfig) = true \/
   has_includes (list_omit listConfig) = true).
Proof.
  unfold listIsEnabled, throwIfNotAFilter.
  destruct (is_filter_value (lc_defaultIsFilterable listConfig)),
           (is_filter_value (lc_defaultIsOrderable listConfig));
    destruct (list_omit listConfig) as [[| |[|]|n|s|items|props]|f]; simpl;
    try destruct (negb (Z.eqb n 0)) eqn:En; simpl;
    try destruct (negb (String.eqb s "")) eqn:Es; simpl;
    split; try discriminate; try reflexivity;
    try (intros [H1 H2];
         first [ destruct (H1 eq_refl); discriminate
               | destruct H2 as [H2|[H2|H2]]; discriminate ]);
    try (intros _; split; [intros H; first [discriminate H | auto] | auto 6]).
Qed.

(** X10. [getIsEnabled] returns exactly when, for every list, an
    omission that is neither [true] nor [undefined] is an array or a string,
    and moreover, if the omission is falsy, [defaultIsFilterable] and
    [defaultIsOrderable] are each a boolean, [undefined] or a function. *)
Theorem getIsEnabled_ok_iff (listsConfig : Obj ListConfig) :
  is_err (getIsEnabled listsConfig) = false <->
  forall k listConfig, In (k, listConfig) listsConfig ->
    (truthy (list_omit listConfig) = false ->
     is_filter_value (lc_defaultIsFilterable listConfig) = true /\
     is_filter_value (lc_defaultIsOrderable listConfig) = true) /\
    (is_true (list_omit listConfig) = true \/
     is_undefined (list_omit listConfig) = true \/
     has_includes (list_omit listConfig) = true).
Proof.
  unfold getIsEnabled. split.
  - intros H k lc Hin. apply (listIsEnabled_ok_iff k lc).
    pose proof (proj1 (mapM_ok_iff _ _) H (k, lc) Hin) as H'. simpl in H'.
    destruct (listIsEnabled k lc); [reflexivity | discriminate].
  - intros H. apply mapM_ok_iff. intros [k lc] Hin. simpl.
    pose proof (proj2 (listIsEnabled_ok_iff k lc) (H k lc Hin)) as H'.
    destruct (listIsEnabled k lc); [reflexivity | discriminate].
Qed.

Lemma fields_err_fatal (config : KeystoneConfig) (k : string)
    (listConfig : ListConfig) (entry : string * FieldConfig) :
  In (k, listConfig) (cfg_lists config) ->
  In entry (lc_fields listConfig) ->
  (forall graphqlTypes e,
     is_err (initialiseField config graphqlTypes e k entry) = true) ->
  is_err (initialiseLists config) = true.
Proof.
  intros Hlist Hfield Herr. unfold initialiseLists.
  destruct (getIsEnabled (cfg_lists config)) as [en|]; [simpl|reflexivity].
  destruct (getListGraphqlTypes _ _ _) as [lgt|]; [simpl|reflexivity].
  apply is_err_bind. unfold getListsWithInitialisedFields.
  eapply mapM_Err; [exact Hlist|]. unfold initialiseListFields. cbn [fst snd].
  destruct (defined _ (lookup k (references en))) as [a|]; [simpl|reflexivity].
  destruct (defined _ (deref (objects en) a)) as [e|]; [simpl|reflexivity].
  apply is_err_bind. eapply mapM_Err; [exact Hfield | apply Herr].
Qed.

(** X11. A field declared as something that is not a function
    makes resolution fail. *)
Theorem field_not_a_function_is_fatal (config : KeystoneConfig) (k : string)
    (listConfig : ListConfig) (fieldKey : string) (v : JsData) :
  In (k, listConfig) (cfg_lists config) ->
  In (fieldKey, NotCallable v) (lc_fields listConfig) ->
  is_err (initialiseLists config) = true.
Proof.
  intros Hlist Hfield.
  eapply fields_err_fatal; [exact Hlist | exact Hfield | reflexivity].
Qed.

(** X12. A field function makes resolution fail if the descriptor it
    returns has an [isFilterable] or an [isOrderable] that is neither a
    boolean, nor [undefined], nor a function, or a [graphql.omit] that is
    neither [true], nor [undefined] or [null], nor an array or a string. The
    omission of the list plays no part in this. *)
Theorem bad_field_descriptor_is_fatal (config : KeystoneConfig) (k : string)
    (listConfig : ListConfig) (fieldKey : string)
    (fieldFunc : FieldData -> result NextFieldType) :
  In (k, listConfig) (cfg_lists config) ->
  In (fieldKey, FieldFunc fieldFunc) (lc_fields listConfig) ->
  (forall data f, fieldFunc data = Ok f ->
     is_filter_value (dsc_isFilterable f) = false \/
     is_filter_value (dsc_isOrderable f) = false \/
     (is_true (field_omit f) = false /\ is_nullish (field_omit f) = false /\
      has_includes (field_omit f) = false)) ->
  is_err (initialiseLists config) = true.
Proof.
  intros Hlist Hfield Hbad.
  eapply fields_err_fatal; [exact Hlist | exact Hfield |].
  intros lgt e. unfold initialiseField. cbn [fst snd].
  match goal with |- is_err (bind (fieldFunc ?d) _) = true =>
    destruct (fieldFunc d) as [f|] eqn:Ef; [simpl|reflexivity] end.
  specialize (Hbad _ _ Ef). unfold throwIfNotAFilter.
  destruct (is_filter_value (dsc_isFilterable f)); simpl;
    [|reflexivity].
  destruct (is_filter_value (dsc_isOrderable f)); simpl;
    [|reflexivity].
  destruct Hbad as [H|[H|(H1 & H2 & H3)]]; try discriminate.
  apply is_err_bind. unfold fieldIsEnabled. apply is_err_bind.
  unfold not_omitted. rewrite H1. apply is_err_bind.
  unfold js_includes_opt. rewrite H2. apply is_err_bind.
  destruct (field_omit f) as [[| |b|n|s|items|props]|g]; simpl in *;
    first [discriminate | reflexivity].
Qed.

(** ** Where the fields of the registry come from *)

Lemma initialiseField_descriptor (config : KeystoneConfig)
    (graphqlTypes : Obj ListGraphQLTypes) (e : IsEnabled) (listKey : string)
    (entry : string * FieldConfig) (fieldKey : string) (field : InitialisedField) :
  initialiseField config graphqlTypes e listKey entry = Ok (fieldKey, field) ->
  exists fieldFunc data f,
    entry = (fieldKey, FieldFunc fieldFunc) /\
    fd_fieldKey data = fieldKey /\ fd_listKey data = listKey /\
    fd_lists data = graphqlTypes /\ fd_provider data = cfg_db_provider config /\
    fieldFunc data = Ok f /\
    is_filter_value (dsc_isFilterable f) = true /\
    is_filter_value (dsc_isOrderable f) = true /\
    fieldIsEnabled f e = Ok (fld_isEnabled field) /\
    parseFieldAccessControl (dsc_access f) = Ok (fld_access field) /\
    fld_output field = dsc_output f /\
    fld_extraOutputFields field = dsc_extraOutputFields f /\
    fld_input field = match dsc_input f with Some i => i | None => no_input end /\
    fld_hooks field = dsc_hooks f /\
    fld_dbField field = Some (dsc_dbField f).
Proof.
  unfold initialiseField. destruct entry as [fk fc]. cbn [fst snd].
  destruct fc as [fieldFunc|v]; [|discriminate]. intros H.
  apply bind_Ok in H. destruct H as [f [Hf H]].
  apply bind_Ok in H. destruct H as [[] [H1 H]].
  apply bind_Ok in H. destruct H as [[] [H2 H]].
  apply bind_Ok in H. destruct H as [fe [Hfe H]].
  apply bind_Ok in H. destruct H as [access [Hacc H]]. ok_inv H.
  unfold throwIfNotAFilter in H1, H2.
  destruct (is_filter_value (dsc_isFilterable f)) eqn:F1; [|discriminate].
  destruct (is_filter_value (dsc_isOrderable f)) eqn:F2; [|discriminate].
  match type of Hf with fieldFunc ?d = _ => exists fieldFunc, d, f end.
  do 5 (split; [reflexivity|]). split; [exact Hf|].
  split; [exact F1|]. split; [exact F2|].
  split; [exact Hfe|]. split; [exact Hacc|].
  simpl. repeat split; reflexivity.
Qed.

Lemma relinkFields_with (entry : string * InitialisedList) (k : string)
    (l : InitialisedList) (fk : string) (f : InitialisedField) :
  relinkFields entry = Ok (k, l) ->
  In (fk, f) (il_fields l) ->
  exists f1 r,
    In (fk, f1) (il_fields (snd entry)) /\
    il_resolvedDbFields (snd entry) = Some r /\
    f = with_dbField f1 (lookup fk r).
Proof.
  unfold relinkFields. intros H Hin.
  apply bind_Ok in H. destruct H as [fields [Hf H]]. ok_inv H. simpl in Hin.
  destruct (mapM_In _ _ _ _ Hf Hin) as [[fk1 f1] [Hin1 E]].
  unfold defined in E. destruct (il_resolvedDbFields (snd entry)) as [r|];
    [|discriminate].
  simpl in E. ok_inv E. exists f1, r. auto.
Qed.

Lemma run_field_origin (config : KeystoneConfig) (w : World)
    (k : string) (l : InitialisedList) (fieldKey : string)
    (field : InitialisedField) :
  run config w ->
  In (k, l) (w_lists w) ->
  In (fieldKey, field) (il_fields l) ->
  exists isEnabled graphqlTypes listConfig e entry f1 r,
    getIsEnabled (cfg_lists config) = Ok isEnabled /\
    w_intermediateLists w = references isEnabled /\
    In (k, listConfig) (cfg_lists config) /\
    deref (objects isEnabled) (il_isEnabled l) = Some e /\
    In entry (lc_fields listConfig) /\
    initialiseField config graphqlTypes e k entry = Ok (fieldKey, f1) /\
    field = with_dbField f1 r.
Proof.
  intros Hrun Hl Hf.
  destruct Hrun as [en lgt il1 res il3 H1 H2 H3 H4 H5 ->]. simpl in Hl.
  destruct (mapM_In _ _ _ _ H5 Hl) as [x [Hx Hrelink]].
  unfold attachResolved in Hx. apply in_map_iff in Hx.
  destruct Hx as [[k1 l1] [<- Hin1]]. simpl in Hrelink.
  pose proof (relinkFields_inv _ _ _ Hrelink) as (Hk & Ha & _).
  simpl in Hk, Ha. subst k1.
  destruct (relinkFields_with _ _ _ _ _ Hrelink Hf) as (f1 & r & Hf1 & _ & ->).
  simpl in Hf1.
  destruct (mapM_In _ _ _ _ H3 Hin1) as [[k0 lc] [Hin0 Hinit]].
  apply initialiseListFields_inv in Hinit.
  destruct Hinit as (Hk0 & e & t & _ & He & _ & _ & Hmap).
  simpl in Hk0, Hmap. subst k0.
  destruct (mapM_In _ _ _ _ Hmap Hf1) as [fentry [Hfentry Hfield]].
  exists en, lgt, lc, e, fentry, f1, (lookup fieldKey r).
  rewrite Ha. simpl. auto 10.
Qed.

(** C9. The cascade of [initialiseLists] changes nothing but the [create] and
    [update] flags of lists. Whatever the lists and their fields are (all
    fields disabled or not), every [IsEnabled] object is still there after
    the loop, with the same [type], [query], [delete], [filter] and
    [orderBy]. The flags of the fields are not assigned to: the lists that
    [initialiseLists] returns are the lists the cascade was run on, as the
    relinking pass left them, fields and field flags included, and only the
    [IsEnabled] objects differ, by the cascade; so the flags of every field
    of the registry are still the ones [fieldIsEnabled] computed before the
    cascade, from the descriptor that the field function declared under its
    key returned and from the [IsEnabled] of its list as [getIsEnabled] made
    it. *)
Theorem cascade_frame :
  (forall (lists_ : Obj InitialisedList) (h : Heap) (a : addr),
     match deref h a with
     | Some e =>
         exists e', deref (cascade lists_ h) a = Some e' /\
           le_type e' = le_type e /\ le_query e' = le_query e /\
           le_delete e' = le_delete e /\ le_filter e' = le_filter e /\
           le_orderBy e' = le_orderBy e
     | None => deref (cascade lists_ h) a = None
     end) /\
  (forall (config : KeystoneConfig) (w : World),
     initialiseLists config = Ok w ->
     exists isEnabled graphqlTypes initialised resolved relinked,
       getIsEnabled (cfg_lists config) = Ok isEnabled /\
       getListGraphqlTypes (cfg_lists config) (references isEnabled)
         (objects isEnabled) = Ok graphqlTypes /\
       getListsWithInitialisedFields config graphqlTypes
         (references isEnabled) (objects isEnabled) = Ok initialised /\
       resolveRelationships initialised = Ok resolved /\
       mapM relinkFields (attachResolved resolved initialised) = Ok relinked /\
       w_lists w = relinked /\
       w_intermediateLists w = references isEnabled /\
       w_heap w = cascade relinked (objects isEnabled) /\
       forall (listKey : string) (l : InitialisedList) (fieldKey : string)
              (field : InitialisedField),
         In (listKey, l) (w_lists w) ->
         In (fieldKey, field) (il_fields l) ->
         exists listConfig fieldFunc data f e,
           In (listKey, listConfig) (cfg_lists config) /\
           In (fieldKey, FieldFunc fieldFunc) (lc_fields listConfig) /\
           fd_fieldKey data = fieldKey /\ fd_listKey data = listKey /\
           fieldFunc data = Ok f /\
           deref (objects isEnabled) (il_isEnabled l) = Some e /\
           fieldIsEnabled f e = Ok (fld_isEnabled field)).
Proof.
  split.
  - intros lists_ h a.
    pose proof (cascade_framed_at lists_ h a) as H. unfold framed_at in H.
    destruct (deref h a) as [e|]; [|exact H].
    destruct H as [e' [E (F1 & F2 & F3 & F4 & F5 & _)]].
    exists e'. repeat split; assumption.
  - intros config w Hinit.
    pose proof (initialiseLists_run _ _ Hinit) as Hrun.
    destruct (initialiseLists_run _ _ Hinit)
      as [en lgt il1 res il3 H1 H2 H3 H4 H5 Hw].
    exists en, lgt, il1, res, il3.
    split; [exact H1|]. split; [exact H2|]. split; [exact H3|].
    split; [exact H4|]. split; [exact H5|].
    split; [rewrite Hw; reflexivity|]. split; [rewrite Hw; reflexivity|].
    split; [rewrite Hw; reflexivity|].
    intros listKey l fieldKey field Hl Hf.
    destruct (run_field_origin _ _ _ _ _ _ Hrun Hl Hf)
      as (en' & lgt' & lc & e & entry & f1 & r & Hen & _ & Hlc & He & Hentry
          & Hfield & ->).
    rewrite H1 in Hen. injection Hen as <-.
    apply initialiseField_descriptor in Hfield.
    destruct Hfield as (ff & data & f & -> & D1 & D2 & _ & _ & D5 & _ & _ & D8 & _).
    exists lc, ff, data, f, e. cbn [with_dbField fld_isEnabled]. auto 10.
Qed.

(** X13. Every field of the registry was made by calling the field
    function declared under its key with its own field key, its list
    key and the provider of the configuration; the descriptor that call
    returned passed the checks on [isFilterable] and [isOrderable], and the
    field carries its [output], [extraOutputFields], [input] and [hooks] as
    they were returned (no [input] and no [hooks] being empty ones), its access as [parseFieldAccessControl] resolved it,
    and the flags [fieldIsEnabled] computed from it. *)
Theorem registry_fields_from_descriptors (config : KeystoneConfig) (w : World)
    (k : string) (l : InitialisedList) (fieldKey : string)
    (field : InitialisedField) :
  initialiseLists config = Ok w ->
  In (k, l) (w_lists w) ->
  In (fieldKey, field) (il_fields l) ->
  exists listConfig fieldFunc data f isEnabled e,
    In (k, listConfig) (cfg_lists config) /\
    In (fieldKey, FieldFunc fieldFunc) (lc_fields listConfig) /\
    fd_fieldKey data = fieldKey /\ fd_listKey data = k /\
    fd_provider data = cfg_db_provider config /\
    fieldFunc data = Ok f /\
    is_filter_value (dsc_isFilterable f) = true /\
    is_filter_value (dsc_isOrderable f) = true /\
    getIsEnabled (cfg_lists config) = Ok isEnabled /\
    deref (objects isEnabled) (il_isEnabled l) = Some e /\
    fieldIsEnabled f e = Ok (fld_isEnabled field) /\
    parseFieldAccessControl (dsc_access f) = Ok (fld_access field) /\
    fld_output field = dsc_output f /\
    fld_extraOutputFields field = dsc_extraOutputFields f /\
    fld_input field = match dsc_input f with Some i => i | None => no_input end /\
    fld_hooks field = dsc_hooks f.
Proof.
  intros Hinit Hl Hf.
  destruct (run_field_origin _ _ _ _ _ _ (initialiseLists_run _ _ Hinit) Hl Hf)
    as (en & lgt & lc & e & entry & f1 & r & Hen & _ & Hlc & He & Hentry
        & Hfield & ->).
  apply initialiseField_descriptor in Hfield.
  destruct Hfield as (ff & data & f & -> & D1 & D2 & D3 & D4 & D5 & D6 & D7
                      & D8 & D9 & D10 & D11 & D12 & D13 & D14).
  exists lc, ff, data, f, en, e. simpl. auto 20.
Qed.

(** X14. The storage field of every field of the registry is the one
    that [resolveRelationships] returned under the key of its list and its
    own key, whatever its descriptor declared; [resolveRelationships]
    was given every configured list, each field with the storage field it
    declared. *)
Theorem registry_dbFields (config : KeystoneConfig) (w : World) :
  initialiseLists config = Ok w ->
  exists initialised resolved,
    resolveRelationships initialised = Ok resolved /\
    map fst initialised = map fst (cfg_lists config) /\
    (forall k l1 fk f1, In (k, l1) initialised -> In (fk, f1) (il_fields l1) ->
       fld_dbField f1 <> None) /\
    forall k l, In (k, l) (w_lists w) ->
      il_resolvedDbFields l = lookup k resolved /\
      forall fk field, In (fk, field) (il_fields l) ->
        exists r, lookup k resolved = Some r /\ fld_dbField field = lookup fk r.
Proof.
  intros Hinit. apply initialiseLists_run in Hinit.
  destruct Hinit as [en lgt il1 res il3 H1 H2 H3 H4 H5 ->]. simpl.
  exists il1, res. split; [exact H4|]. split.
  { exact (mapM_keys _ _ _
             (initialiseListFields_key config lgt (references en) (objects en)) H3). }
  split.
  - intros k l1 fk f1 Hin1 Hf1.
    destruct (mapM_In _ _ _ _ H3 Hin1) as [[k0 lc] [_ Hlist]].
    apply initialiseListFields_inv in Hlist.
    destruct Hlist as (_ & e & t & _ & _ & _ & _ & Hmap).
    destruct (mapM_In _ _ _ _ Hmap Hf1) as [fentry [_ Hfield]].
    apply initialiseField_descriptor in Hfield.
    destruct Hfield as (ff & data & f & _ & _ & _ & _ & _ & _ & _ & _ & _ & _
                        & _ & _ & _ & _ & Hdb).
    rewrite Hdb. discriminate.
  - intros k l Hl.
    destruct (mapM_In _ _ _ _ H5 Hl) as [x [Hx Hrelink]].
    unfold attachResolved in Hx. apply in_map_iff in Hx.
    destruct Hx as [[k1 l1] [<- Hin1]]. simpl in Hrelink.
    pose proof (relinkFields_inv _ _ _ Hrelink) as (Hk & _). simpl in Hk. subst k1.
    pose proof (relinkFields_fields _ _ _ Hrelink) as (_ & _ & Hres & Hdb).
    simpl in Hres, Hdb. split; [exact Hres|]. exact Hdb.
Qed.

(** ** What the output type shows *)

Lemma mapM_image {A B : Type} (f : A -> result B) (l : list A) (l' : list B) (a : A) :
  mapM f l = Ok l' -> In a l -> exists b, In b l' /\ f a = Ok b.
Proof.
  revert l'. induction l as [|x l IH]; simpl; intros l' H Hin; [destruct Hin|].
  bind_inv H. bind_inv H. ok_inv H. destruct Hin as [->|Hin].
  - eexists. split; [left; reflexivity | assumption].
  - destruct (IH _ E0 Hin) as [b [? ?]]. exists b. split; [right|]; assumption.
Qed.

(** X15. In the registry that [initialiseLists] returns, a field that
    has an [output] and has [read] enabled, and that is not a relation to a
    list whose [query] is off, is in the output type of its list under its
    own key, together with every one of its extra output fields. *)
Theorem output_shows_readable_fields (config : KeystoneConfig) (w : World)
    (listKey : string) (l : InitialisedList) (fs : Obj OutputField)
    (fieldKey : string) (field : InitialisedField) (output : OutputField) :
  initialiseLists config = Ok w ->
  lookup listKey (w_lists w) = Some l ->
  output_fields w listKey = Ok fs ->
  In (fieldKey, field) (il_fields l) ->
  fld_output field = Some output ->
  fe_read (fld_isEnabled field) = true ->
  (forall target inverse many,
     fld_dbField field = Some (Relation target inverse many) ->
     exists targetList e,
       lookup target (w_lists w) = Some targetList /\
       deref (w_heap w) (il_isEnabled targetList) = Some e /\
       le_query e = true) ->
  has_key fieldKey fs = true /\
  forall extra name,
    fld_extraOutputFields field = Some extra -> has_key name extra = true ->
    has_key name fs = true.
Proof.
  intros Hinit Hl Hfs Hin Hout Hread Hrel. apply initialiseLists_run in Hinit.
  unfold output_fields, fields_of, defined in Hfs. rewrite Hl in Hfs. simpl in Hfs.
  apply bind_Ok in Hfs. destruct Hfs as [ess [Hess Hfs]]. ok_inv Hfs.
  destruct (mapM_image _ _ _ _ Hess Hin) as [es [Hes Hentries]].
  assert (Hshown : exists db, output_shown w field = Ok (Some (output, db))).
  { unfold output_entries in Hentries. cbn [fst snd] in Hentries.
    unfold output_shown in *. rewrite Hout, Hread in *. simpl in *.
    destruct (fld_dbField field) as [[target inverse many|kind]|] eqn:Edb;
      simpl in *; [| eexists; reflexivity | discriminate].
    destruct (Hrel _ _ _ eq_refl) as (tl & e & Htl & He & Hq).
    rewrite (isEnabled_of_list _ _ _ _ _ Hinit Htl He). simpl. rewrite Hq.
    eexists. reflexivity. }
  destruct Hshown as [db Hshown].
  unfold output_entries in Hentries. cbn [fst snd] in Hentries.
  rewrite Hshown in Hentries. cbn [bind] in Hentries. ok_inv Hentries.
  assert (Hkey : forall name v,
            In (name, v) ((fieldKey, output) ::
                          match fld_extraOutputFields field with
                          | Some extra => extra
                          | None => []
                          end) ->
            has_key name (fromEntries (List.concat ess)) = true).
  { intros name v Hv. rewrite has_key_fromEntries. apply existsb_exists.
    destruct Hv as [Heq|Hv].
    - injection Heq as <- <-. eexists.
      split; [apply in_concat; eexists; split; [exact Hes | left; reflexivity]
             | apply String.eqb_refl].
    - eexists (name, _).
      split; [apply in_concat; eexists; split; [exact Hes|]; right;
              apply in_map_iff; exists (name, v); split; [reflexivity | exact Hv]
             | apply String.eqb_refl]. }
  split.
  - apply (Hkey fieldKey output). left. reflexivity.
  - intros extra name Hextra Hname. unfold has_key in Hname.
    destruct (lookup name extra) as [v|] eqn:Ev; [|discriminate].
    apply (Hkey name v). right. rewrite Hextra. apply lookup_In. exact Ev.
Qed.

(** ** Running the closures early *)

(** X16. While the fields are being initialised the registry is still
    empty. Run in that state, the closures that read the fields of a list
    (output, unique filter, filter, create, update, order) throw, whatever the
    list; the relation inputs of a list do not read the registry and return
    their fields, with the nested [create] as the declaration of the list has
    it, the cascade not having run yet. *)
Theorem closures_before_the_registry (listsConfig : Obj ListConfig)
    (isEnabled : Obj IsEnabled) (graphqlTypes : Obj ListGraphQLTypes)
    (k : string) (t : ListGraphQLTypes) :
  getIsEnabled listsConfig = Ok isEnabled ->
  getListGraphqlTypes listsConfig (references isEnabled) (objects isEnabled)
    = Ok graphqlTypes ->
  lookup k graphqlTypes = Some t ->
  let w0 := mkWorld [] (references isEnabled) (objects isEnabled) in
  is_err (output_fields w0 (ob_listKey (ty_output (types t)))) = true /\
  (forall input,
     In input [ty_uniqueWhere (types t); ty_where (types t); ty_create (types t);
               ty_update (types t); ty_orderBy (types t)] ->
     is_err (input_fields w0 (io_fields input)) = true) /\
  exists listConfig e,
    lookup k listsConfig = Some listConfig /\
    listIsEnabled k listConfig = Ok e /\
    forall input ti, In input (relateTo_inputs (types t)) -> input = Some ti ->
      exists fs, input_fields w0 (io_fields ti) = Ok fs /\
        has_key "create" fs = le_create e /\ has_key "connect" fs = true.
Proof.
  intros Hen Hlgt Ht w0. unfold getListGraphqlTypes in Hlgt.
  pose proof (mapM_lookup _ _ _ k
                (listGraphqlTypes_key (references isEnabled) (objects isEnabled))
                Hlgt) as L.
  destruct (lookup k listsConfig) as [lc|] eqn:Hlc; [|congruence].
  destruct L as [t' [Ht' Hbuilt]]. rewrite Ht in Ht'. injection Ht' as <-.
  unfold listGraphqlTypes, defined in Hbuilt. cbn [fst snd] in Hbuilt.
  destruct (lookup k (references isEnabled)) as [a|] eqn:Ha; [|discriminate].
  simpl in Hbuilt.
  destruct (deref (objects isEnabled) a) as [e|] eqn:He; [|discriminate].
  simpl in Hbuilt. ok_inv Hbuilt. simpl.
  split; [reflexivity|]. split.
  - intros input [<-|[<-|[<-|[<-|[<-|[]]]]]]; reflexivity.
  - exists lc, e. split; [reflexivity|].
    destruct (references_deref _ _ _ Ha) as [e' [Hlook He']].
    rewrite He in He'. injection He' as <-.
    pose proof (getIsEnabled_lookup _ _ k Hen) as L. rewrite Hlc in L.
    destruct L as [e' [Hlook' Hle]]. rewrite Hlook in Hlook'. injection Hlook' as <-.
    split; [exact Hle|]. intros input ti Hin Hsome.
    apply (relateTo_inputs_fields w0 a e k); [exact He|].
    simpl in Hin. destruct (le_type e);
      destruct Hin as [<-|[<-|[<-|[<-|[]]]]]; try discriminate;
      injection Hsome as <-; simpl; auto.
Qed.

(** ** Defaults of [filter] and [orderBy] *)

Lemma listIsEnabled_filter (listKey : string) (listConfig : ListConfig)
    (e : IsEnabled) :
  listIsEnabled listKey listConfig = Ok e ->
  le_filter e =
    (if is_true (list_omit listConfig) then Data (JBool false)
     else nullish_or (lc_defaultIsFilterable listConfig) (Data (JBool true))) /\
  le_orderBy e =
    (if is_true (list_omit listConfig) then Data (JBool false)
     else nullish_or (lc_defaultIsOrderable listConfig) (Data (JBool true))).
Proof.
  unfold listIsEnabled. intros H. bind_inv H.
  destruct (is_true (list_omit listConfig)); [ok_inv H; split; reflexivity|].
  destruct (is_undefined (list_omit listConfig)); [ok_inv H; split; reflexivity|].
  bind_inv H. bind_inv H. bind_inv H. bind_inv H. ok_inv H. split; reflexivity.
Qed.

(** X17. With distinct list keys, the [filter] of a field of the
    registry is [false] when its [read] is off; otherwise it is the
    [isFilterable] its field function returned or, when that is [undefined],
    the default of its list: [false] for a list declared with [omit: true],
    else [defaultIsFilterable], else [true]. Likewise for [orderBy] with
    [isOrderable] and [defaultIsOrderable]. *)
Theorem field_filter_and_orderBy_defaults (config : KeystoneConfig) (w : World)
    (k : string) (l : InitialisedList) (fieldKey : string)
    (field : InitialisedField) :
  initialiseLists config = Ok w ->
  NoDup (map fst (cfg_lists config)) ->
  In (k, l) (w_lists w) ->
  In (fieldKey, field) (il_fields l) ->
  exists listConfig fieldFunc data f,
    lookup k (cfg_lists config) = Some listConfig /\
    In (fieldKey, FieldFunc fieldFunc) (lc_fields listConfig) /\
    fieldFunc data = Ok f /\
    fe_filter (fld_isEnabled field) =
      bool_and (fe_read (fld_isEnabled field))
        (nullish_or (dsc_isFilterable f)
           (if is_true (list_omit listConfig) then Data (JBool false)
            else nullish_or (lc_defaultIsFilterable listConfig) (Data (JBool true)))) /\
    fe_orderBy (fld_isEnabled field) =
      bool_and (fe_read (fld_isEnabled field))
        (nullish_or (dsc_isOrderable f)
           (if is_true (list_omit listConfig) then Data (JBool false)
            else nullish_or (lc_defaultIsOrderable listConfig) (Data (JBool true)))).
Proof.
  intros Hinit Hnd Hl Hf.
  pose proof (initialiseLists_run _ _ Hinit) as Hrun.
  destruct (run_field_origin _ _ _ _ _ _ Hrun Hl Hf)
    as (en & lgt & lc & e & entry & f1 & r & D9 & Hrefs & D1 & D10 & D2
        & Hfield & ->).
  apply initialiseField_descriptor in Hfield.
  destruct Hfield as (ff & data & f & -> & _ & _ & _ & _ & D6 & _ & _ & D11 & _).
  cbn [with_dbField fld_isEnabled] in *.
  pose proof (run_entry_reference _ _ _ _ Hrun Hl) as Href.
  rewrite Hrefs in Href.
  destruct (references_deref _ _ _ Href) as [e' [Hlook He']].
  rewrite D10 in He'. injection He' as <-.
  pose proof (getIsEnabled_lookup _ _ k D9) as L.
  destruct (lookup k (cfg_lists config)) as [lc'|] eqn:Hlc; [|congruence].
  destruct L as [e' [Hlook' Hle]]. rewrite Hlook in Hlook'. injection Hlook' as <-.
  assert (lc' = lc)
    by exact (NoDup_keys_same _ _ _ _ Hnd (lookup_In _ _ _ Hlc) D1).
  subst lc'. exists lc, ff, data, f.
  split; [reflexivity|]. split; [exact D2|]. split; [exact D6|].
  destruct (listIsEnabled_filter _ _ _ Hle) as [<- <-].
  unfold fieldIsEnabled in D11. bind_inv D11. bind_inv D11. bind_inv D11.
  injection D11 as <-. simpl. split; reflexivity.
Qed.

End Resolver.


(** The types of the carried values are read off the other arguments. *)
Arguments mkFieldAccess {_}.
Arguments ac_read {_}.
Arguments ac_create {_}.
Arguments ac_update {_}.
Arguments mkFieldGraphql {_}.
Arguments fg_omit {_}.
Arguments fg_cacheHint {_}.
Arguments mkFieldData {_}.
Arguments HintFunction {_}.
Arguments HintValue {_}.
Arguments mkListGraphql {_}.
Arguments lg_omit {_}.
Arguments lg_maxResults {_}.
Arguments lg_cacheHint {_}.
Arguments mkNextFieldType {_ _ _ _}.
Arguments dsc_dbField {_ _ _ _}.
Arguments dsc_access {_ _ _ _}.
Arguments dsc_hooks {_ _ _ _}.
Arguments dsc_graphql {_ _ _ _}.
Arguments dsc_isFilterable {_ _ _ _}.
Arguments dsc_isOrderable {_ _ _ _}.
Arguments dsc_input {_ _ _ _}.
Arguments dsc_output {_ _ _ _}.
Arguments dsc_extraOutputFields {_ _ _ _}.
Arguments mkField {_ _ _ _}.
Arguments fld_dbField {_ _ _ _}.
Arguments fld_access {_ _ _ _}.
Arguments fld_hooks {_ _ _ _}.
Arguments fld_cacheHint {_ _ _ _}.
Arguments fld_isEnabled {_ _ _ _}.
Arguments fld_input {_ _ _ _}.
Arguments fld_output {_ _ _ _}.
Arguments fld_extraOutputFields {_ _ _ _}.
Arguments field_omit {_ _ _ _}.
Arguments fieldIsEnabled {_ _ _ _}.
Arguments with_dbField {_ _ _ _}.
Arguments hasAnEnabledCreateField {_ _ _ _}.
Arguments hasAnEnabledUpdateField {_ _ _ _}.
Arguments input_entries {_ _ _ _}.
Arguments FieldFunc {_ _ _ _ _}.
Arguments NotCallable {_ _ _ _ _}.
Arguments mkList {_ _ _ _ _ _}.
Arguments il_fields {_ _ _ _ _ _}.
Arguments il_resolvedDbFields {_ _ _ _ _ _}.
Arguments il_pluralGraphQLName {_ _ _ _ _ _}.
Arguments il_types {_ _ _ _ _ _}.
Arguments il_access {_ _ _ _ _ _}.
Arguments il_hooks {_ _ _ _ _ _}.
Arguments il_adminUILabels {_ _ _ _ _ _}.
Arguments il_cacheHint {_ _ _ _ _ _}.
Arguments il_maxResults {_ _ _ _ _ _}.
Arguments il_listKey {_ _ _ _ _ _}.
Arguments il_dbMap {_ _ _ _ _ _}.
Arguments il_isEnabled {_ _ _ _ _ _}.
Arguments il_isSingleton {_ _ _ _ _ _}.
Arguments mkWorld {_ _ _ _ _ _}.
Arguments w_lists {_ _ _ _ _ _}.
Arguments w_intermediateLists {_ _ _ _ _ _}.
Arguments w_heap {_ _ _ _ _ _}.
Arguments fields_of {_ _ _ _ _ _}.
Arguments isEnabled_of {_ _ _ _ _ _}.
Arguments output_shown {_ _ _ _ _ _}.
Arguments output_entries {_ _ _ _ _ _}.
Arguments output_fields {_ _ _ _ _ _}.
Arguments uniqueWhere_fields {_ _ _ _ _ _}.
Arguments where_fields {_ _ _ _ _ _}.
Arguments create_fields {_ _ _ _ _ _}.
Arguments update_fields {_ _ _ _ _ _}.
Arguments orderBy_fields {_ _ _ _ _ _}.
Arguments input_fields {_ _ _ _ _ _}.
Arguments cascade {_ _ _ _ _ _}.
Arguments disableEmptyOperations {_ _ _ _ _ _}.
Arguments relinkFields {_ _ _ _ _ _}.
Arguments with_fields {_ _ _ _ _ _}.
Arguments with_resolvedDbFields {_ _ _ _ _ _}.
Arguments attachResolved {_ _ _ _ _ _}.
Arguments mkListConfig {_ _ _ _ _ _ _}.
Arguments lc_fields {_ _ _ _ _ _ _}.
Arguments lc_access {_ _ _ _ _ _ _}.
Arguments lc_graphql {_ _ _ _ _ _ _}.
Arguments lc_defaultIsFilterable {_ _ _ _ _ _ _}.
Arguments lc_defaultIsOrderable {_ _ _ _ _ _ _}.
Arguments lc_hooks {_ _ _ _ _ _ _}.
Arguments lc_db_map {_ _ _ _ _ _ _}.
Arguments lc_isSingleton {_ _ _ _ _ _ _}.
Arguments mkConfig {_ _ _ _ _ _ _}.
Arguments cfg_storage {_ _ _ _ _ _ _}.
Arguments cfg_lists {_ _ _ _ _ _ _}.
Arguments cfg_db_provider {_ _ _ _ _ _ _}.
Arguments list_omit {_ _ _ _ _ _ _}.
Arguments listIsEnabled {_ _ _ _ _ _ _}.
Arguments getIsEnabled {_ _ _ _ _ _ _}.
Arguments findManyArgs {_ _ _ _ _ _ _}.
Arguments initialiseLists {_ _ _ _ _ _ _ _ _}.
Arguments getListsWithInitialisedFields {_ _ _ _ _ _ _ _ _}.
Arguments initialiseListFields {_ _ _ _ _ _ _ _ _}.
Arguments initialiseField {_ _ _ _ _ _ _ _ _}.

(** * A concrete instance

    The resolver run on small configurations, with stand-ins for its
    collaborators: an access declaration is a label and resolves to itself,
    relationships resolve to the storage fields that the fields declared,
    validation accepts everything, and an output field is a label. *)

Definition ExFieldData : Type := FieldData unit.
Definition ExNextFieldType : Type := NextFieldType string unit unit string.
Definition ExFieldConfig : Type := FieldConfig string unit unit string unit.
Definition ExListConfig : Type := ListConfig string string unit unit unit string unit.
Definition ExConfig : Type := KeystoneConfig string string unit unit unit string unit.
Definition ExField : Type := InitialisedField string unit unit string.
Definition ExList : Type := InitialisedList string string unit unit unit string.
Definition ExWorld : Type := World string string unit unit unit string.

Definition ex_parseListAccessControl (a : option string) : result string :=
  Ok (match a with Some s => s | None => "allow" end).

Definition ex_parseFieldAccessControl (a : option string)
    : result (ResolvedFieldAccessControl string) :=
  let rule := match a with Some s => s | None => "allow" end in
  Ok (mkFieldAccess rule rule rule).

Definition ex_getNamesFromList (listKey : string) (_ : ExListConfig) : ListNames :=
  mkListNames (listKey ++ "s")%string
    (mkLabels listKey listKey (listKey ++ "s")%string listKey).

Definition ex_getGqlNames (listKey pluralGraphQLName : string) : GqlNames :=
  mkGqlNames listKey
    (listKey ++ "WhereUniqueInput")%string
    (listKey ++ "WhereInput")%string
    (listKey ++ "CreateInput")%string
    (listKey ++ "UpdateInput")%string
    (listKey ++ "OrderByInput")%string
    (listKey ++ "RelateToManyForCreateInput")%string
    (listKey ++ "RelateToManyForUpdateInput")%string
    (listKey ++ "RelateToOneForCreateInput")%string
    (listKey ++ "RelateToOneForUpdateInput")%string.

Definition ex_resolveRelationships (lists_ : Obj ExList)
    : result (Obj (Obj ResolvedDBField)) :=
  Ok (map (fun entry =>
             (fst entry,
              flat_map (fun fe =>
                          match fld_dbField (snd fe) with
                          | Some d => [(fst fe, d)]
                          | None => []
                          end)
                       (il_fields (snd entry))))
          lists_).

Definition ex_assertFieldsValid (listKey : string) (fields : Obj ExField) : result unit :=
  Ok tt.

Definition ex_outputTypeField (outputField : string) (dbField : ResolvedDBField)
    (cacheHint : option unit) (read : string) (listKey fieldPath : string)
    (lists_ : Obj ExList) : string :=
  outputField.

Definition ex_initialiseLists (config : ExConfig) : result ExWorld :=
  initialiseLists ex_parseListAccessControl ex_parseFieldAccessControl
    ex_getNamesFromList ex_getGqlNames ex_resolveRelationships
    ex_assertFieldsValid config.

(** A field type in the manner of [text()]: a scalar with every input. *)
Definition ex_text (isFilterable : JsValue) (omit : JsValue) : ExFieldConfig :=
  FieldFunc (fun _ : ExFieldData =>
    Ok (mkNextFieldType (NotRelation "scalar") None None
          (Some (mkFieldGraphql omit None))
          isFilterable (Data JUndefined)
          (Some (mkFieldInput
                   (Some (mkSlot (Some (arg (Named "StringFilter")))))
                   (Some (mkSlot (Some (arg (Named "String")))))
                   (Some (mkSlot (Some (arg (Named "String")))))
                   (Some (mkSlot (Some (arg (Named "String")))))
                   (Some (mkSlot (Some (arg (Named "OrderDirection")))))))
          (Some "String") None)).

(** A field type in the manner of [relationship({ ref })]. *)
Definition ex_relationship (target : string) (many : bool) : ExFieldConfig :=
  FieldFunc (fun _ : ExFieldData =>
    Ok (mkNextFieldType (Relation target None many) None None None
          (Data JUndefined) (Data JUndefined)
          (Some (mkFieldInput
                   (Some (mkSlot (Some (arg (InputObject target KWhere)))))
                   (Some (mkSlot (Some (arg (Named "RelateToOneForCreateInput")))))
                   (Some (mkSlot (Some (arg (Named "RelateToOneForUpdateInput")))))
                   None None))
          (Some target) None)).

Definition ex_list (fields : Obj ExFieldConfig) (omit : JsValue)
    (defaultIsFilterable : JsValue) (isSingleton : option bool) : ExListConfig :=
  mkListConfig fields None (Some (mkListGraphql omit None None))
    defaultIsFilterable (Data JUndefined) None None isSingleton.

Definition ex_config (lists_ : Obj ExListConfig) : ExConfig :=
  mkConfig None lists_ sqlite.

(** Four lists. [Post] declares no omission; its [title] omits create and
    update, and its [author] points at [Person]. [Person] omits query and is
    a singleton; its [id] is declared not filterable and its [name] omits
    read. [Tag] declares no omission, and its only field omits create.
    [Draft] is omitted altogether. *)
Definition ex_blog : ExConfig :=
  ex_config
    [("Post",
      ex_list [("id", ex_text (Data JUndefined) (Data JUndefined));
               ("title", ex_text (Data JUndefined)
                           (Data (JArr [JStr "create"; JStr "update"])));
               ("author", ex_relationship "Person" false)]
        (Data JUndefined) (Data JUndefined) None);
     ("Person",
      ex_list [("id", ex_text (Data (JBool false)) (Data JUndefined));
               ("name", ex_text (Data JUndefined) (Data (JArr [JStr "read"])))]
        (Data (JArr [JStr "query"])) (Data JUndefined) (Some true));
     ("Tag",
      ex_list [("name", ex_text (Data JUndefined) (Data (JArr [JStr "create"])))]
        (Data JUndefined) (Data JUndefined) None);
     ("Draft",
      ex_list [("id", ex_text (Data JUndefined) (Data JUndefined))]
        (Data (JBool true)) (Data JUndefined) None)].

(** The state [initialiseLists] leaves for [ex_blog]. *)
Definition ex_world : ExWorld :=
  Eval vm_compute in
    match ex_initialiseLists ex_blog with
    | Ok w => w
    | Err _ => mkWorld [] [] []
    end.

(** The [IsEnabled] objects of [ex_blog] as [getIsEnabled] makes them, before
    the cascade. *)
Definition ex_objects : Heap :=
  Eval vm_compute in
    match getIsEnabled (cfg_lists ex_blog) with
    | Ok isEnabled => objects isEnabled
    | Err _ => []
    end.

(** One list with one text field, under a given omission and a given
    [defaultIsFilterable]. *)
Definition ex_single (omit defaultIsFilterable : JsValue) : ExListConfig :=
  ex_list [("id", ex_text (Data JUndefined) (Data JUndefined))]
    omit defaultIsFilterable None.

(** The omission values that the specification admits: [true], [undefined],
    or a set of operations among query, create, update and delete. *)
Definition omit_in_spec (omit : JsValue) : bool :=
  match omit with
  | Data (JBool true) => true
  | Data JUndefined => true
  | Data (JArr items) =>
      forallb (fun d => is_str "query" d || is_str "create" d ||
                        is_str "update" d || is_str "delete" d)
              items
  | _ => false
  end.

(** * The instance, resolved *)

Lemma ex_blog_resolved : ex_initialiseLists ex_blog = Ok ex_world.
Proof. vm_compute. reflexivity. Qed.

(** Witness of C1: [title] of [Post] is filterable, and readable. *)
Lemma read_gates_witness :
  exists l field,
    lookup "Post" (w_lists ex_world) = Some l /\
    lookup "title" (il_fields l) = Some field /\
    truthy (fe_filter (fld_isEnabled field)) = true /\
    fe_read (fld_isEnabled field) = true.
Proof.
  eexists. eexists. split; [reflexivity|]. split; [reflexivity|].
  split; [reflexivity|].
  edestruct read_gates_filter_and_orderBy
    with (listKey := "Post") (fieldKey := "title") as [Hfilter _];
    [ exact ex_blog_resolved
    | apply lookup_In; reflexivity
    | apply lookup_In; reflexivity
    | apply Hfilter; reflexivity ].
Defined.

(** Witness of C2: every field of [Tag] has create disabled, [Tag] does not
    omit create, and create is off for [Tag]. *)
Lemma all_fields_disabled_witness :
  exists l e,
    lookup "Tag" (w_lists ex_world) = Some l /\
    deref (w_heap ex_world) (il_isEnabled l) = Some e /\
    le_create e = false /\ le_update e = true.
Proof.
  eexists. eexists. split; [reflexivity|]. split; [reflexivity|].
  split; [|reflexivity].
  edestruct all_fields_disabled_disables_operation
    with (listKey := "Tag") as (e & He & Hcreate & _);
    [ exact ex_blog_resolved
    | apply lookup_In; reflexivity
    | ].
  vm_compute in He. injection He as <-.
  apply Hcreate. intros fk f [E|[]]. injection E as <- <-. reflexivity.
Defined.

(** Witness of C3: [author] of [Post] is a relation to [Person], whose query
    is omitted; it yields no entry, and the output type of [Post] has [id]
    and [title] only. *)
Lemma output_omits_witness :
  exists l field,
    lookup "Post" (w_lists ex_world) = Some l /\
    lookup "author" (il_fields l) = Some field /\
    fld_dbField field = Some (Relation "Person" None false) /\
    output_entries ex_outputTypeField ex_world "Post" ("author", field) = Ok [] /\
    output_fields ex_outputTypeField ex_world "Post"
      = Ok [("id", "String"); ("title", "String")].
Proof.
  eexists. eexists. split; [reflexivity|]. split; [reflexivity|].
  split; [reflexivity|]. split; [|reflexivity].
  eapply output_omits_unreadable_and_unqueryable
    with (config := ex_blog) (listKey := "Post");
    [ exact ex_blog_resolved
    | reflexivity
    | apply lookup_In; reflexivity
    | right; do 5 eexists;
      split; [reflexivity|]; split; [reflexivity|]; split; reflexivity ].
Defined.

(** Witness of C4: [Tag] has its type enabled and, after the cascade, create
    off; its four relation inputs have [connect] and no [create]. *)
Lemma relateTo_create_witness :
  exists l e,
    lookup "Tag" (w_lists ex_world) = Some l /\
    deref (w_heap ex_world) (il_isEnabled l) = Some e /\
    le_type e = true /\ le_create e = false /\
    forall input, In input (relateTo_inputs (il_types l)) ->
      exists t fs, input = Some t /\
        input_fields ex_world (io_fields t) = Ok fs /\
        has_key "create" fs = false /\ has_key "connect" fs = true.
Proof.
  eexists. eexists. split; [reflexivity|]. split; [reflexivity|].
  split; [reflexivity|]. split; [reflexivity|].
  intros input Hin.
  edestruct relateTo_create_follows_final_create
    with (config := ex_blog) (listKey := "Tag") (input := input)
    as (t & fs & Ht & Hfs & Hcreate & Hconnect);
    [ exact ex_blog_resolved | reflexivity | reflexivity | reflexivity
    | exact Hin | ].
  exists t, fs. repeat split; assumption.
Defined.

(** Witness of C5: [Draft] is declared with [omit: true]. *)
Lemma omit_true_witness :
  exists l,
    lookup "Draft" (w_lists ex_world) = Some l /\
    deref (w_heap ex_world) (il_isEnabled l) = Some all_disabled.
Proof.
  eapply omit_true_disables_everything
    with (config := ex_blog) (listKey := "Draft");
    [ exact ex_blog_resolved | reflexivity | reflexivity ].
Defined.

(** Witness of C6: [omit: false] is neither [true] nor [undefined] and has no
    [includes]. *)
Lemma omit_without_includes_witness :
  is_err (getIsEnabled (cfg_lists (ex_config [("Post", ex_single (Data (JBool false)) (Data JUndefined))]))) = true /\
  is_err (ex_initialiseLists (ex_config [("Post", ex_single (Data (JBool false)) (Data JUndefined))])) = true.
Proof.
  eapply omit_without_includes_is_fatal with (listKey := "Post");
    [ left; reflexivity | reflexivity | reflexivity | reflexivity ].
Defined.

(** Witness of C7: no omission, and [defaultIsFilterable: 'yes']. *)
Lemma bad_default_witness :
  is_err (getIsEnabled (cfg_lists (ex_config [("Post", ex_single (Data JUndefined) (Data (JStr "yes")))]))) = true /\
  is_err (ex_initialiseLists (ex_config [("Post", ex_single (Data JUndefined) (Data (JStr "yes")))])) = true.
Proof.
  eapply bad_default_is_fatal_without_omit with (listKey := "Post");
    [ left; reflexivity | reflexivity | left; reflexivity ].
Defined.

(** Witness of C8: the unique-filter input of [Post] has [id], and [title],
    which declares a unique-lookup argument and is readable and filterable. *)
Lemma uniqueWhere_witness :
  exists fs,
    uniqueWhere_fields ex_world "Post" = Ok fs /\
    lookup "id" fs = Some (arg ID) /\
    has_key "title" fs = true /\ has_key "author" fs = false.
Proof.
  edestruct uniqueWhere_has_id_and_unique_fields
    with (w := ex_world) (listKey := "Post") as (fs & Hfs & Hid & Hkeys);
    [ reflexivity | ].
  exists fs. split; [exact Hfs|]. split; [exact Hid|]. split.
  - apply Hkeys; [discriminate|]. eexists.
    split; [apply lookup_In; reflexivity | repeat split; reflexivity].
  - vm_compute in Hfs. injection Hfs as <-. reflexivity.
Defined.

(** Witness of C9: the cascade turns create off for [Tag], the third object,
    and leaves its other flags as they were; the heap of [ex_world] is the
    cascade of the objects [getIsEnabled] made; and [name] of [Tag], which
    omits create, still has create off and the rest on, as computed from its
    descriptor. *)
Lemma cascade_frame_witness :
  (exists e',
     deref (cascade (w_lists ex_world) ex_objects) 2 = Some e' /\
     le_type e' = true /\ le_query e' = true /\ le_delete e' = true /\
     le_filter e' = Data (JBool true) /\ le_orderBy e' = Data (JBool true)) /\
  w_heap ex_world = cascade (w_lists ex_world) ex_objects /\
  (exists l field fieldFunc (f : ExNextFieldType) e,
     lookup "Tag" (w_lists ex_world) = Some l /\
     lookup "name" (il_fields l) = Some field /\
     lookup "name"
       (lc_fields (ex_list [("name", ex_text (Data JUndefined)
                                        (Data (JArr [JStr "create"])))]
                     (Data JUndefined) (Data JUndefined) None))
       = Some (FieldFunc fieldFunc) /\
     (exists data, fieldFunc data = Ok f) /\
     deref ex_objects (il_isEnabled l) = Some e /\
     fieldIsEnabled f e = Ok (fld_isEnabled field) /\
     fe_create (fld_isEnabled field) = false /\
     fe_read (fld_isEnabled field) = true).
Proof.
  destruct (cascade_frame _ _ _ _ _ _ _ _ _
              ex_parseListAccessControl ex_parseFieldAccessControl
              ex_getNamesFromList ex_getGqlNames ex_resolveRelationships
              ex_assertFieldsValid) as [Hobjects Hrun].
  split; [exact (Hobjects (w_lists ex_world) ex_objects 2)|].
  destruct (Hrun ex_blog ex_world ex_blog_resolved)
    as (isEnabled & graphqlTypes & initialised & resolved & relinked
        & H1 & _ & _ & _ & _ & Hlists & _ & Hheap & Hfields).
  vm_compute in H1. injection H1 as <-. rewrite <- Hlists in Hheap.
  split; [exact Hheap|].
  eexists. eexists.
  edestruct Hfields with (listKey := "Tag") (fieldKey := "name")
    as (listConfig & fieldFunc & data & f & e & Hconfig & Hfield & _ & _ & Hf
        & He & Hflags);
    [ apply lookup_In; reflexivity
    | apply lookup_In; reflexivity
    | ].
  destruct Hconfig as [Hconfig|[Hconfig|[Hconfig|[Hconfig|[]]]]];
    try discriminate Hconfig.
  injection Hconfig as <-.
  destruct Hfield as [Hfield|[]]. injection Hfield as <-.
  eexists. exists f, e.
  split; [reflexivity|]. split; [reflexivity|]. split; [reflexivity|].
  split; [exists data; exact Hf|]. split; [exact He|]. split; [exact Hflags|].
  split; reflexivity.
Defined.

(** Witness of C10: [Person] is a singleton, [Post] is not. *)
Lemma findManyArgs_witness :
  exists person post,
    lookup "Person" (w_lists ex_world) = Some person /\
    lookup "Post" (w_lists ex_world) = Some post /\
    arg_defaultValue (fm_where (ty_findManyArgs (il_types person)))
      = Some (JObj [("id", JObj [("equals", JStr "1")])]) /\
    arg_defaultValue (fm_where (ty_findManyArgs (il_types post))) = Some (JObj []) /\
    arg_defaultValue (fm_skip (ty_findManyArgs (il_types post))) = Some (JNum 0) /\
    arg_defaultValue (fm_take (ty_findManyArgs (il_types post))) = None.
Proof.
  eexists. eexists. split; [reflexivity|]. split; [reflexivity|].
  edestruct findManyArgs_defaults
    with (config := ex_blog) (listKey := "Person") as (Hsingleton & _ & _);
    [ exact ex_blog_resolved | reflexivity | reflexivity | ].
  edestruct findManyArgs_defaults
    with (config := ex_blog) (listKey := "Post") as (Hwhere & Hskip & Htake);
    [ exact ex_blog_resolved | reflexivity | reflexivity | ].
  split; [exact Hsingleton|]. split; [exact Hwhere|].
  split; [exact Hskip | exact Htake].
Defined.

(** C6 fails as stated. Neither the string ['query'] nor the array [['read']]
    is an omission the specification admits, and neither is refused: the
    string is read as omitting query, and the array as omitting nothing. *)
Lemma string_omit_is_interpreted :
  omit_in_spec (Data (JStr "query")) = false /\
  getIsEnabled (cfg_lists (ex_config [("Post", ex_single (Data (JStr "query")) (Data JUndefined))]))
    = Ok [("Post", mkIsEnabled true false true true true (Data (JBool true)) (Data (JBool true)))] /\
  is_err (ex_initialiseLists (ex_config [("Post", ex_single (Data (JStr "query")) (Data JUndefined))])) = false /\
  omit_in_spec (Data (JArr [JStr "read"])) = false /\
  getIsEnabled (cfg_lists (ex_config [("Post", ex_single (Data (JArr [JStr "read"])) (Data JUndefined))]))
    = Ok [("Post", mkIsEnabled true true true true true (Data (JBool true)) (Data (JBool true)))] /\
  is_err (ex_initialiseLists (ex_config [("Post", ex_single (Data (JArr [JStr "read"])) (Data JUndefined))])) = false.
Proof. repeat split; vm_compute; reflexivity. Qed.

(** C7 fails as stated: under [omit: true] a [defaultIsFilterable] that is a
    string is not refused. *)
Lemma bad_default_is_ignored_under_omit_true :
  is_filter_value (Data (JStr "yes")) = false /\
  getIsEnabled (cfg_lists (ex_config [("Post", ex_single (Data (JBool true)) (Data (JStr "yes")))]))
    = Ok [("Post", all_disabled)] /\
  is_err (ex_initialiseLists (ex_config [("Post", ex_single (Data (JBool true)) (Data (JStr "yes")))])) = false.
Proof. repeat split; vm_compute; reflexivity. Qed.

(** C8 fails as stated: the field [id] of [Person] is declared and its
    [filter] is off, and the key [id] is in the unique-filter input of
    [Person] all the same. *)
Lemma id_is_exposed_without_filter :
  exists l field fs,
    ex_initialiseLists ex_blog = Ok ex_world /\
    lookup "Person" (w_lists ex_world) = Some l /\
    lookup "id" (il_fields l) = Some field /\
    is_some (arg_of (in_uniqueWhere (fld_input field))) = true /\
    fe_read (fld_isEnabled field) = true /\
    truthy (fe_filter (fld_isEnabled field)) = false /\
    uniqueWhere_fields ex_world "Person" = Ok fs /\
    has_key "id" fs = true.
Proof.
  do 3 eexists. split; [exact ex_blog_resolved|].
  repeat (split; [reflexivity|]). reflexivity.
Qed.

(** * More of the instance *)

Arguments cascaded {_ _ _ _}.
Arguments fd_fieldKey {_}.
Arguments fd_listKey {_}.


(** Witness of X2: four objects for the four lists of [ex_blog]. *)
Lemma registry_references_witness :
  List.length (w_heap ex_world) = 4 /\
  forall k1 l1 k2 l2,
    In (k1, l1) (w_lists ex_world) -> In (k2, l2) (w_lists ex_world) ->
    il_isEnabled l1 = il_isEnabled l2 -> k1 = k2.
Proof.
  edestruct registry_references with (config := ex_blog) (w := ex_world)
    as (Hlen & _ & _ & Hinj); [exact ex_blog_resolved|].
  split; [exact Hlen | exact Hinj].
Defined.

Lemma ex_blog_keys : NoDup (map fst (cfg_lists ex_blog)).
Proof.
  repeat constructor; simpl; intros H;
    repeat (destruct H as [H|H]; [discriminate H|]); exact H.
Qed.

(** Witness of X3: [Tag] declares no omission, so [getIsEnabled] has create
    on for it; none of its fields has create enabled, and create is off in
    the end, while update is still on. *)
Lemma final_enablement_witness :
  exists l listConfig e e',
    lookup "Tag" (w_lists ex_world) = Some l /\
    lookup "Tag" (cfg_lists ex_blog) = Some listConfig /\
    listIsEnabled "Tag" listConfig = Ok e /\
    le_create e = true /\
    deref (w_heap ex_world) (il_isEnabled l) = Some e' /\
    le_create e' = false /\ le_update e' = true /\ le_query e' = true.
Proof.
  eexists.
  edestruct final_enablement with (config := ex_blog) (k := "Tag")
    as (listConfig & e & e' & Hconfig & He & Hfinal & _ & Hquery & _ & _ & _
        & Hcreate & Hupdate);
    [ exact ex_blog_resolved
    | exact ex_blog_keys
    | apply lookup_In; reflexivity
    | ].
  exists listConfig, e, e'.
  split; [reflexivity|]. split; [exact Hconfig|]. split; [exact He|].
  cbn in Hconfig. injection Hconfig as <-.
  vm_compute in He. injection He as <-.
  split; [reflexivity|]. split; [exact Hfinal|].
  split; [|split; [|exact Hquery]].
  - destruct (le_create e') eqn:Hc; [|reflexivity].
    destruct (proj1 Hcreate eq_refl) as (_ & fk & field & [Hin|[]] & _ & Hflag).
    injection Hin as <- <-. discriminate Hflag.
  - apply Hupdate. split; [reflexivity|].
    eexists. eexists. split; [left; reflexivity|]. split; reflexivity.
Defined.

(** Witness of X4: create is on for [Post] in the end, and its create input
    has a field. *)
Lemma create_input_not_empty_witness :
  exists l fs fieldKey,
    lookup "Post" (w_lists ex_world) = Some l /\
    input_fields ex_world (io_fields (ty_create (il_types l))) = Ok fs /\
    has_key fieldKey fs = true.
Proof.
  eexists.
  edestruct create_input_not_empty with (config := ex_blog) (k := "Post")
    as (fs & fieldKey & Hfs & Hkey);
    [ exact ex_blog_resolved | reflexivity | reflexivity | reflexivity | ].
  exists fs, fieldKey. split; [reflexivity|]. split; [exact Hfs | exact Hkey].
Defined.

(** Witness of X5: update is on for [Post] in the end, every update input of
    its fields carries an argument, and its update input has a field. *)
Lemma update_input_not_empty_witness :
  exists l fs fieldKey,
    lookup "Post" (w_lists ex_world) = Some l /\
    input_fields ex_world (io_fields (ty_update (il_types l))) = Ok fs /\
    has_key fieldKey fs = true.
Proof.
  eexists.
  edestruct update_input_not_empty with (config := ex_blog) (k := "Post")
    as (_ & Hinput);
    [ exact ex_blog_resolved | reflexivity | reflexivity | reflexivity | ].
  destruct Hinput as (fs & fieldKey & Hfs & Hkey).
  - intros fk f slot Hin Hslot.
    repeat (destruct Hin as [Hin|Hin];
            [injection Hin as <- <-; injection Hslot as <-; discriminate|]).
    destruct Hin.
  - exists fs, fieldKey. split; [reflexivity|]. split; [exact Hfs | exact Hkey].
Defined.

(** Witness of X6: the filter input of [Person] has the three combinators
    and no [name], which is not readable. *)
Lemma where_witness :
  exists fs,
    where_fields ex_world "Person" = Ok fs /\
    has_key "AND" fs = true /\ has_key "OR" fs = true /\ has_key "NOT" fs = true /\
    has_key "name" fs = false.
Proof.
  edestruct where_has_combinators_and_filterable_fields
    with (w := ex_world) (listKey := "Person")
    as (fs & Hfs & Hand & Hor & Hnot & Hkeys); [reflexivity|].
  exists fs. split; [exact Hfs|]. split; [exact Hand|]. split; [exact Hor|].
  split; [exact Hnot|].
  destruct (has_key "name" fs) eqn:Hname; [|reflexivity].
  apply Hkeys in Hname; try discriminate.
  destruct Hname as (field & Hin & _ & Hread & _).
  destruct Hin as [Hin|[Hin|[]]]; [discriminate Hin|].
  injection Hin as <-. discriminate Hread.
Defined.

(** Witness of X7: [title] of [Post] omits create and update, and is in
    neither input; [id] is in both. *)
Lemma create_and_update_witness :
  exists cs us,
    create_fields ex_world "Post" = Ok cs /\ update_fields ex_world "Post" = Ok us /\
    has_key "id" cs = true /\ has_key "id" us = true.
Proof.
  edestruct create_and_update_fields with (w := ex_world) (listKey := "Post")
    as (cs & us & Hcs & Hus & Hkeys); [reflexivity|].
  exists cs, us. split; [exact Hcs|]. split; [exact Hus|].
  destruct (Hkeys "id") as [Hc Hu]. split.
  - apply Hc. eexists. split; [left; reflexivity|]. split; reflexivity.
  - apply Hu. eexists. split; [left; reflexivity|]. split; reflexivity.
Defined.

(** Witness of X8: [title] of [Post] can be ordered by. *)
Lemma orderBy_witness :
  exists fs, orderBy_fields ex_world "Post" = Ok fs /\ has_key "title" fs = true.
Proof.
  edestruct orderBy_has_orderable_fields with (w := ex_world) (listKey := "Post")
    as (fs & Hfs & Hkeys); [reflexivity|].
  exists fs. split; [exact Hfs|]. apply Hkeys.
  eexists. split; [right; left; reflexivity|]. repeat split; reflexivity.
Defined.

(** Witness of X9: [Draft] is declared with [omit: true] and has none of the
    four relation inputs. *)
Lemma relateTo_inputs_witness :
  exists l,
    lookup "Draft" (w_lists ex_world) = Some l /\
    forall input, In input (relateTo_inputs (il_types l)) -> is_some input = false.
Proof.
  eexists. split; [reflexivity|].
  edestruct relateTo_inputs_unless_omitted with (config := ex_blog) (k := "Draft")
    as [Hinputs _];
    [ exact ex_blog_resolved | reflexivity | reflexivity | exact Hinputs ].
Defined.

(** A list whose field [title] is declared as a string, not as the result
    of calling a field type. *)
Definition ex_not_callable : ExConfig :=
  ex_config
    [("Post",
      ex_list [("id", ex_text (Data JUndefined) (Data JUndefined));
               ("title", NotCallable (JStr "text"))]
        (Data JUndefined) (Data JUndefined) None)].

(** Witness of X11. *)
Lemma field_not_a_function_witness :
  is_err (ex_initialiseLists ex_not_callable) = true.
Proof.
  eapply field_not_a_function_is_fatal
    with (config := ex_not_callable) (k := "Post") (fieldKey := "title");
    [ left; reflexivity | right; left; reflexivity ].
Defined.

(** A list whose field [title] is declared with [isFilterable: 'yes']. *)
Definition ex_bad_descriptor : ExConfig :=
  ex_config
    [("Post",
      ex_list [("id", ex_text (Data JUndefined) (Data JUndefined));
               ("title", ex_text (Data (JStr "yes")) (Data JUndefined))]
        (Data JUndefined) (Data JUndefined) None)].

(** Witness of X12. *)
Lemma bad_field_descriptor_witness :
  is_err (ex_initialiseLists ex_bad_descriptor) = true.
Proof.
  eapply bad_field_descriptor_is_fatal
    with (config := ex_bad_descriptor) (k := "Post") (fieldKey := "title");
    [ left; reflexivity
    | right; left; reflexivity
    | intros data f Hf; injection Hf as <-; left; reflexivity ].
Defined.

(** Witness of X13: [title] of [Post] comes from the field function declared
    under [title], called with its own keys. *)
Lemma registry_fields_witness :
  exists l field listConfig fieldFunc (data : ExFieldData) (f : ExNextFieldType),
    lookup "Post" (w_lists ex_world) = Some l /\
    lookup "title" (il_fields l) = Some field /\
    In ("Post", listConfig) (cfg_lists ex_blog) /\
    In ("title", FieldFunc fieldFunc) (lc_fields listConfig) /\
    fd_fieldKey data = "title" /\ fd_listKey data = "Post" /\
    fieldFunc data = Ok f /\
    fld_output field = dsc_output f.
Proof.
  eexists. eexists.
  edestruct registry_fields_from_descriptors
    with (config := ex_blog) (k := "Post") (fieldKey := "title")
    as (listConfig & fieldFunc & data & f & isEnabled & e & H);
    [ exact ex_blog_resolved
    | apply lookup_In; reflexivity
    | apply lookup_In; reflexivity
    | ].
  exists listConfig, fieldFunc, data, f.
  destruct H as (H1 & H2 & H3 & H4 & _ & H6 & _ & _ & _ & _ & _ & _ & H13 & _).
  split; [reflexivity|]. split; [reflexivity|]. split; [exact H1|].
  split; [exact H2|]. split; [exact H3|]. split; [exact H4|].
  split; [exact H6 | exact H13].
Defined.

(** Witness of X14: the storage fields of the registry of [ex_blog] are the
    ones that the stand-in for [resolveRelationships] returned. *)
Lemma registry_dbFields_witness :
  exists resolved : Obj (Obj ResolvedDBField),
    forall k l, In (k, l) (w_lists ex_world) ->
      il_resolvedDbFields l = lookup k resolved /\
      forall fk field, In (fk, field) (il_fields l) ->
        exists r, lookup k resolved = Some r /\ fld_dbField field = lookup fk r.
Proof.
  edestruct registry_dbFields with (config := ex_blog) (w := ex_world)
    as (initialised & resolved & _ & _ & _ & H); [exact ex_blog_resolved|].
  exists resolved. exact H.
Defined.

(** Witness of X15: [title] of [Post] has an output, is readable and is no
    relation, and it is in the output type of [Post]. *)
Lemma output_shows_witness :
  exists fs,
    output_fields ex_outputTypeField ex_world "Post" = Ok fs /\
    has_key "title" fs = true.
Proof.
  eexists. split; [reflexivity|].
  edestruct output_shows_readable_fields
    with (config := ex_blog) (listKey := "Post") (fieldKey := "title")
    as [Hshown _];
    [ exact ex_blog_resolved
    | reflexivity
    | reflexivity
    | right; left; reflexivity
    | reflexivity
    | reflexivity
    | intros target inverse many Hrelation; discriminate Hrelation
    | exact Hshown ].
Defined.

(** The types [getListGraphqlTypes] makes for [ex_blog], from the objects
    of [getIsEnabled]. *)
Definition ex_isEnabled : Obj IsEnabled :=
  Eval vm_compute in
    match getIsEnabled (cfg_lists ex_blog) with
    | Ok isEnabled => isEnabled
    | Err _ => []
    end.

Definition ex_graphqlTypes : Obj ListGraphQLTypes :=
  Eval vm_compute in
    match getListGraphqlTypes _ _ _ _ _ _ _ ex_getNamesFromList ex_getGqlNames
            (cfg_lists ex_blog) (references ex_isEnabled) (objects ex_isEnabled) with
    | Ok graphqlTypes => graphqlTypes
    | Err _ => []
    end.

(** Witness of X16: before the registry is there, the create input of [Tag]
    cannot be read, and its relation inputs still offer [create], which the
    cascade turns off afterwards. *)
Lemma closures_before_witness :
  exists t,
    lookup "Tag" ex_graphqlTypes = Some t /\
    is_err (input_fields (mkWorld ([] : Obj ExList) (references ex_isEnabled)
                            (objects ex_isEnabled))
              (io_fields (ty_create (types t)))) = true /\
    forall input ti, In input (relateTo_inputs (types t)) -> input = Some ti ->
      exists fs,
        input_fields (mkWorld ([] : Obj ExList) (references ex_isEnabled)
                        (objects ex_isEnabled))
          (io_fields ti) = Ok fs /\
        has_key "create" fs = true.
Proof.
  eexists. split; [reflexivity|].
  edestruct closures_before_the_registry
    with (getNamesFromList := ex_getNamesFromList) (getGqlNames := ex_getGqlNames)
         (outputTypeField := ex_outputTypeField)
         (listsConfig := cfg_lists ex_blog) (isEnabled := ex_isEnabled)
         (graphqlTypes := ex_graphqlTypes) (k := "Tag")
    as (_ & Hinputs & listConfig & e & Hconfig & He & Hrelate);
    [ reflexivity | reflexivity | reflexivity | ].
  split.
  - apply Hinputs. right; right; left. reflexivity.
  - intros input ti Hin Hsome.
    destruct (Hrelate input ti Hin Hsome) as (fs & Hfs & Hcreate & _).
    exists fs. split; [exact Hfs|]. rewrite Hcreate.
    cbn in Hconfig. injection Hconfig as <-.
    vm_compute in He. injection He as <-. reflexivity.
Defined.

(** Witness of X17: [id] of [Person] is declared with [isFilterable: false]
    and is not filterable, whatever the list says; it can be ordered by, the
    list default being [true]. *)
Lemma field_defaults_witness :
  exists l field,
    lookup "Person" (w_lists ex_world) = Some l /\
    lookup "id" (il_fields l) = Some field /\
    fe_filter (fld_isEnabled field) = Data (JBool false) /\
    fe_orderBy (fld_isEnabled field) = Data (JBool true).
Proof.
  eexists. eexists. split; [reflexivity|]. split; [reflexivity|].
  edestruct field_filter_and_orderBy_defaults
    with (config := ex_blog) (k := "Person") (fieldKey := "id")
    as (listConfig & fieldFunc & data & f & Hconfig & Hfield & Hf & Hfilter & Horder);
    [ exact ex_blog_resolved
    | exact ex_blog_keys
    | apply lookup_In; reflexivity
    | apply lookup_In; reflexivity
    | ].
  split; reflexivity.
Defined.

(** * The admin metadata of the client

    [packages/core/src/admin-ui/utils/useAdminMeta.tsx]: the body of the memo
    that turns the static admin metadata and the field views into the runtime
    metadata, and the state the hook returns. What React keeps between
    renders (the query result, the value read from local storage, the
    server-render flag) is an input here. *)

(** The errors of the memo: the three [throw new Error(...)] with what their
    messages name, a [TypeError] of the runtime, and whatever a controller
    throws. *)
Inductive ViewError : Type :=
  (** "The view for the field at listKey.path is missing the exportName export" *)
  | MissingExport (listKey path exportName : string)
  (** "Unexpected export named exportName from the view from the field at listKey.path" *)
  | UnexpectedExport (listKey path exportName : string)
  (** "Unexpected export named exportName from the custom view from field at listKey.path" *)
  | UnexpectedCustomExport (listKey path exportName : string)
  | ViewTypeError (what : string)
  | ControllerThrew (what : string).

Inductive attempt (A : Type) : Type :=
  | Done (a : A)
  | Failed (e : ViewError).

Arguments Done {A} a.
Arguments Failed {A} e.

Definition andThen {A B : Type} (r : attempt A) (k : A -> attempt B) : attempt B :=
  match r with
  | Done a => k a
  | Failed e => Failed e
  end.

Notation "x <~ r ;; k" := (andThen r (fun x => k))
  (at level 61, r at next level, right associativity).

Definition failed {A : Type} (r : attempt A) : bool :=
  match r with
  | Done _ => false
  | Failed _ => true
  end.

(** [xs.forEach(x => ...)] with a body that updates [s] and may throw *)
Fixpoint forEach {A S : Type} (body : S -> A -> attempt S) (xs : list A) (s : S)
    : attempt S :=
  match xs with
  | [] => Done s
  | x :: xs' => s' <~ body s x ;; forEach body xs' s'
  end.

(** A view module: its exports by name. *)
Definition FieldView : Type := Obj JsValue.

(** [FieldViews], an array of view modules *)
Definition FieldViews : Type := list FieldView.

(** [view[exportName]] *)
Definition export (view : FieldView) (exportName : string) : JsValue :=
  match lookup exportName view with
  | Some v => v
  | None => Data JUndefined
  end.

(** [new Set(['Cell', 'Field', 'controller', 'CardValue'])], in insertion
    order *)
Definition expectedExports : list string := ["Cell"; "Field"; "controller"; "CardValue"].

(** [expectedExports.has(exportName)] *)
Definition is_expected (exportName : string) : bool :=
  existsb (String.eqb exportName) expectedExports.

(** [new Set(x)], as the membership test it gives on strings: empty for
    [undefined] and [null], the elements of an array, the characters of a
    string; anything else here is not iterable. *)
Definition setOf (x : JsValue) : attempt (string -> bool) :=
  match x with
  | Data JUndefined | Data JNull => Done (fun _ => false)
  | Data (JArr items) => Done (fun name => existsb (is_str name) items)
  | Data (JStr s) =>
      Done (fun name =>
              existsb (fun c => String.eqb (String c EmptyString) name)
                      (list_ascii_of_string s))
  | _ => Failed (ViewTypeError "object is not iterable")
  end.

Inductive FieldMode : Type := ModeEdit | ModeRead | ModeHidden.

(** A field of the static metadata. The properties that the memo only copies
    ([...field]) stay inside this record. [sf_itemView] is
    [itemView?.fieldMode], with [None] for a missing [itemView] and
    [Some None] for a [fieldMode] that is [null]. *)
Record StaticField : Type := mkStaticField {
  sf_path : string;
  sf_label : string;
  sf_description : option string;
  sf_fieldMeta : JsData;
  sf_viewsIndex : nat;
  sf_customViewsIndex : option nat;
  sf_itemView : option (option FieldMode)
}.

Record StaticList : Type := mkStaticList {
  sl_key : string;
  sl_listQueryName : string;
  sl_fields : list StaticField
}.

(** [StaticAdminMetaQuery['keystone']['adminMeta']] *)
Record StaticAdminMeta : Type := mkStaticAdminMeta {
  sm_lists : list StaticList
}.

(** The argument of a controller. *)
Record ControllerConfig : Type := mkControllerConfig {
  cc_listKey : string;
  cc_fieldMeta : JsData;
  cc_label : string;
  cc_description : option string;
  cc_path : string;
  cc_customViews : Obj JsValue
}.

Section AdminMeta.

Set Default Proof Using "Type".

(** What a controller returns, and what running the function labelled
    [label] on a configuration does (it may throw); [getGqlNames] and the
    error of the query are the collaborators' too. *)
Variables Controller QueryError : Type.
Variable callController : string -> ControllerConfig -> attempt Controller.
Variable getGqlNames : string -> string -> GqlNames.

(** A field of the runtime metadata: [{ ...field, itemView, views,
    controller }]. *)
Record FieldMeta : Type := mkFieldMeta {
  fm_static : StaticField;
  fm_itemView_fieldMode : option FieldMode;
  fm_views : FieldView;
  fm_controller : Controller
}.

(** A list of the runtime metadata: [{ ...list, gqlNames, fields }], where
    [fields] replaces the array of the static list. *)
Record ListMeta : Type := mkListMeta {
  lm_static : StaticList;
  lm_gqlNames : GqlNames;
  lm_fields : Obj FieldMeta
}.

(** [AdminMeta] *)
Record AdminMeta : Type := mkAdminMeta {
  am_lists : Obj ListMeta
}.

(** The first loop over a field: every expected export is there. *)
Definition checkExpected (view : FieldView) (listKey path : string) : attempt unit :=
  forEach (fun _ exportName =>
             if is_undefined (export view exportName)
             then Failed (MissingExport listKey path exportName)
             else Done tt)
          expectedExports tt.

(** The second loop: the view exports nothing else, [allowedExportsOnCustomViews]
    apart. *)
Definition checkUnexpected (view : FieldView) (listKey path : string) : attempt unit :=
  forEach (fun _ exportName =>
             if negb (is_expected exportName)
                && negb (String.eqb exportName "allowedExportsOnCustomViews")
             then Failed (UnexpectedExport listKey path exportName)
             else Done tt)
          (map fst view) tt.

(** The loop over the exports of a custom view, on [views] and
    [customViews]. *)
Definition mergeCustomViews (allowed : string -> bool) (listKey path : string)
    (source : FieldView) (views : FieldView)
    : attempt (FieldView * Obj JsValue) :=
  forEach (fun state entry =>
             let exportName := fst entry in
             if allowed exportName then
               Done (fst state, obj_set exportName (snd entry) (snd state))
             else if is_expected exportName then
               Done (obj_set exportName (snd entry) (fst state), snd state)
             else Failed (UnexpectedCustomExport listKey path exportName))
          source (views, []).

(** [fieldViews[i]], read further: a [TypeError] when it is [undefined] *)
Definition viewAt (fieldViews : FieldViews) (i : nat) : attempt FieldView :=
  match nth_error fieldViews i with
  | Some view => Done view
  | None => Failed (ViewTypeError "fieldViews[index] is undefined")
  end.

(** The body of [list.fields.forEach]: the runtime metadata of one field. *)
Definition fieldMeta (fieldViews : FieldViews) (listKey : string)
    (field : StaticField) : attempt FieldMeta :=
  let path := sf_path field in
  view <~ viewAt fieldViews (sf_viewsIndex field) ;;
  _ <~ checkExpected view listKey path ;;
  _ <~ checkUnexpected view listKey path ;;
  merged <~ match sf_customViewsIndex field with
            | None => Done (view, [])
            | Some customViewsIndex =>
                allowed <~ setOf (export view "allowedExportsOnCustomViews") ;;
                customViewsSource <~ viewAt fieldViews customViewsIndex ;;
                mergeCustomViews allowed listKey path customViewsSource view
            end ;;
  controller <~
    match export view "controller" with
    | Fun label =>
        callController label
          (mkControllerConfig listKey (sf_fieldMeta field) (sf_label field)
             (sf_description field) path (snd merged))
    | Data _ => Failed (ViewTypeError "controller is not a function")
    end ;;
  Done (mkFieldMeta field
          (match sf_itemView field with
           | Some (Some mode) => Some mode
           | _ => None
           end)
          (fst merged) controller).

(** The body of [adminMeta.lists.forEach]. The entry of the list is assigned
    first, with no fields, and filled field by field; nothing else is
    assigned in between, so the entry is written here once, filled. *)
Definition listMeta (fieldViews : FieldViews) (lists_ : Obj ListMeta)
    (list_ : StaticList) : attempt (Obj ListMeta) :=
  fields <~ forEach (fun fields field =>
                       meta <~ fieldMeta fieldViews (sl_key list_) field ;;
                       Done (obj_set (sf_path field) meta fields))
                    (sl_fields list_) [] ;;
  Done (obj_set (sl_key list_)
          (mkListMeta list_ (getGqlNames (sl_key list_) (sl_listQueryName list_)) fields)
          lists_).

(** The memo [runtimeAdminMeta]: the runtime metadata, or [undefined], and
    the static metadata it writes to local storage, if it does. *)
Definition runtimeAdminMeta (data : option StaticAdminMeta) (error : option QueryError)
    (adminMetaFromLocalStorage : option StaticAdminMeta) (fieldViews : FieldViews)
    (hasWindow : bool) : attempt (option AdminMeta * option StaticAdminMeta) :=
  let build adminMeta :=
    lists_ <~ forEach (listMeta fieldViews) (sm_lists adminMeta) [] ;;
    Done (Some (mkAdminMeta lists_),
          if hasWindow && negb (is_some adminMetaFromLocalStorage)
          then Some adminMeta else None) in
  match adminMetaFromLocalStorage, data, error with
  | Some adminMeta, _, _ => build adminMeta
  | None, Some adminMeta, None => build adminMeta
  | None, _, _ => Done (None, None)
  end.

(** What the hook returns ([refetch] is left out of the error state). *)
Inductive HookState : Type :=
  | Loading
  | Loaded (value : AdminMeta)
  | ErrorState (error : QueryError).

(** The end of [useAdminMeta], from the results of its hooks. *)
Definition useAdminMeta_state (mustRenderServerResult : bool)
    (runtime : option AdminMeta) (error : option QueryError) : HookState :=
  if mustRenderServerResult then Loading
  else match runtime with
       | Some value => Loaded value
       | None =>
           match error with
           | Some e => ErrorState e
           | None => Loading
           end
       end.

(** One render of [useAdminMeta]. *)
Definition useAdminMeta (mustRenderServerResult : bool)
    (data : option StaticAdminMeta) (error : option QueryError)
    (adminMetaFromLocalStorage : option StaticAdminMeta) (fieldViews : FieldViews)
    (hasWindow : bool) : attempt HookState :=
  r <~ runtimeAdminMeta data error adminMetaFromLocalStorage fieldViews hasWindow ;;
  Done (useAdminMeta_state mustRenderServerResult (fst r) error).

(** ** Properties of the admin metadata *)

Lemma andThen_Done {A B : Type} (r : attempt A) (k : A -> attempt B) (b : B) :
  andThen r k = Done b -> exists a, r = Done a /\ k a = Done b.
Proof.
  destruct r as [a|e]; simpl; intros H; [eauto | discriminate].
Qed.

Lemma failed_andThen {A B : Type} (r : attempt A) (k : A -> attempt B) :
  failed r = true -> failed (andThen r k) = true.
Proof. destruct r; [discriminate | reflexivity]. Qed.

(** A loop throws if its body throws at one of the elements, whatever the
    state it is reached in. *)
Lemma forEach_failed {A S : Type} (body : S -> A -> attempt S) (xs : list A)
    (x : A) (s : S) :
  In x xs -> (forall s', failed (body s' x) = true) ->
  failed (forEach body xs s) = true.
Proof.
  intros Hin Hx. revert s. induction xs as [|y xs IH]; intros s; [destruct Hin|].
  simpl. destruct Hin as [->|Hin].
  - apply failed_andThen, Hx.
  - destruct (body s y) as [s'|]; [simpl; apply IH, Hin | reflexivity].
Qed.

Lemma has_key_In {A : Type} (k : string) (o : Obj A) :
  has_key k o = true <-> exists v, In (k, v) o.
Proof.
  unfold has_key. split.
  - destruct (lookup k o) as [v|] eqn:E; [|discriminate].
    intros _. exists v. apply lookup_In, E.
  - intros [v Hin]. induction o as [|[k0 v0] o IH]; [destruct Hin|]. simpl.
    destruct (String.eqb_spec k0 k) as [_|Hne]; [reflexivity|].
    destruct Hin as [E|Hin]; [injection E as -> _; congruence | exact (IH Hin)].
Qed.

Lemma has_key_obj_set {A : Type} (k k' : string) (v : A) (o : Obj A) :
  has_key k (obj_set k' v o) = String.eqb k' k || has_key k o.
Proof.
  unfold has_key. rewrite lookup_obj_set. destruct (String.eqb k' k); reflexivity.
Qed.

(** A loop that assigns one entry per element: what the record holds in the
    end. *)
Lemma forEach_assigns {X V : Type} (key : X -> string) (P : X -> V -> Prop)
    (body : Obj V -> X -> attempt (Obj V)) :
  (forall acc x acc', body acc x = Done acc' ->
     exists v, acc' = obj_set (key x) v acc /\ P x v) ->
  forall xs acc acc', forEach body xs acc = Done acc' ->
    (forall k v, In (k, v) acc' ->
       In (k, v) acc \/ exists x, In x xs /\ key x = k /\ P x v) /\
    (forall k, has_key k acc' = true <->
       has_key k acc = true \/ exists x, In x xs /\ key x = k).
Proof.
  intros Hbody. induction xs as [|x xs IH]; intros acc acc' H; simpl in H.
  - injection H as <-. split; [auto|]. intros k. split; [auto|].
    intros [H|[x [[] _]]]. exact H.
  - apply andThen_Done in H. destruct H as [acc1 [Hstep H]].
    destruct (Hbody _ _ _ Hstep) as [v1 [-> Hv1]].
    destruct (IH _ _ H) as [IH1 IH2]. split.
    + intros k v Hin. destruct (IH1 k v Hin) as [Hacc|[y (Hy & Hk & HP)]].
      * destruct (In_obj_set _ _ _ _ Hacc) as [E|Hold]; [|auto].
        injection E as -> ->. right. exists x. simpl. auto.
      * right. exists y. simpl. auto.
    + intros k. rewrite IH2, has_key_obj_set, orb_true_iff. split.
      * intros [[Hk|Hk]|[y [Hy Hk]]].
        -- right. exists x. apply String.eqb_eq in Hk. simpl. auto.
        -- auto.
        -- right. exists y. simpl. auto.
      * intros [Hk|[y [[->|Hy] Hk]]].
        -- auto.
        -- left. left. apply String.eqb_eq. exact Hk.
        -- right. exists y. auto.
Qed.

(** The loop over a custom view, from any state it is entered in. *)
Lemma mergeCustomViews_from (allowed : string -> bool) (listKey path : string)
    (source : FieldView) (state state' : FieldView * Obj JsValue) :
  forEach (fun st entry =>
             let exportName := fst entry in
             if allowed exportName then
               Done (fst st, obj_set exportName (snd entry) (snd st))
             else if is_expected exportName then
               Done (obj_set exportName (snd entry) (fst st), snd st)
             else Failed (UnexpectedCustomExport listKey path exportName))
          source state = Done state' ->
  (forall name, has_key name (snd state') = true <->
     has_key name (snd state) = true \/
     (has_key name source = true /\ allowed name = true)) /\
  (forall name, has_key name (fst state') = true <->
     has_key name (fst state) = true \/
     (has_key name source = true /\ allowed name = false /\
      is_expected name = true)) /\
  (forall name, allowed name = true ->
     lookup name (fst state') = lookup name (fst state)) /\
  (forall name, has_key name source = true ->
     allowed name = true \/ is_expected name = true).
Proof.
  revert state. induction source as [|[n v] source IH]; intros state H; simpl in H.
  - injection H as <-. repeat split; auto.
    + intros [?|[? _]]; [assumption | discriminate].
    + intros [?|[? _]]; [assumption | discriminate].
    + discriminate.
  - apply andThen_Done in H. destruct H as [st1 [Hstep H]].
    destruct (IH _ H) as (I1 & I2 & I3 & I4). clear IH H.
    assert (Hsrc : forall name,
              has_key name ((n, v) :: source) = String.eqb n name || has_key name source).
    { intros name. unfold has_key. simpl. destruct (String.eqb n name); reflexivity. }
    destruct (allowed n) eqn:An.
    + injection Hstep as <-. simpl in *. repeat split.
      * rewrite I1, has_key_obj_set, orb_true_iff, Hsrc, orb_true_iff.
        intros [[E|E]|[E1 E2]]; auto.
        apply String.eqb_eq in E. subst name. right. rewrite String.eqb_refl. auto.
      * rewrite I1, has_key_obj_set, orb_true_iff, Hsrc, orb_true_iff.
        intros [E|[[E|E] E2]]; auto.
      * rewrite I2, Hsrc, orb_true_iff. intros [E|(E1 & E2 & E3)]; auto.
      * rewrite I2, Hsrc, orb_true_iff. intros [E|([E|E] & E2 & E3)]; auto.
        apply String.eqb_eq in E. subst name. congruence.
      * exact I3.
      * intros name. rewrite Hsrc, orb_true_iff. intros [E|E]; [|auto].
        apply String.eqb_eq in E. subst name. auto.
    + destruct (is_expected n) eqn:En; [|discriminate].
      injection Hstep as <-. simpl in *. repeat split.
      * rewrite I1, Hsrc, orb_true_iff. intros [E|[E1 E2]]; auto.
      * rewrite I1, Hsrc, orb_true_iff. intros [E|[[E|E] E2]]; auto.
        apply String.eqb_eq in E. subst name. congruence.
      * rewrite I2, has_key_obj_set, orb_true_iff, Hsrc, orb_true_iff.
        intros [[E|E]|(E1 & E2 & E3)]; auto.
        apply String.eqb_eq in E. subst name. right. rewrite String.eqb_refl. auto.
      * rewrite I2, has_key_obj_set, orb_true_iff, Hsrc, orb_true_iff.
        intros [E|([E|E] & E2 & E3)]; auto.
      * intros name Hname. rewrite (I3 name Hname), lookup_obj_set.
        destruct (String.eqb_spec n name) as [->|_]; [congruence | reflexivity].
      * intros name. rewrite Hsrc, orb_true_iff. intros [E|E]; [|auto].
        apply String.eqb_eq in E. subst name. auto.
Qed.

Lemma checkExpected_Done (view : FieldView) (listKey path : string) :
  checkExpected view listKey path = Done tt ->
  forall name, In name expectedExports ->
    is_undefined (export view name) = false /\ has_key name view = true.
Proof.
  unfold checkExpected, expectedExports. simpl. intros H name Hin.
  assert (Hexp : is_undefined (export view name) = false).
  { destruct (is_undefined (export view "Cell")) eqn:E1; [discriminate|].
    destruct (is_undefined (export view "Field")) eqn:E2; [discriminate|].
    destruct (is_undefined (export view "controller")) eqn:E3; [discriminate|].
    destruct (is_undefined (export view "CardValue")) eqn:E4; [discriminate|].
    destruct Hin as [<-|[<-|[<-|[<-|[]]]]]; assumption. }
  split; [exact Hexp|]. unfold export, has_key in *.
  destruct (lookup name view); [reflexivity | discriminate].
Qed.

Lemma checkUnexpected_Done (view : FieldView) (listKey path : string) :
  checkUnexpected view listKey path = Done tt ->
  forall name, has_key name view = true ->
    is_expected name = true \/ name = "allowedExportsOnCustomViews".
Proof.
  unfold checkUnexpected. intros H name Hkey.
  apply has_key_In in Hkey. destruct Hkey as [v Hin].
  assert (Hname : In name (map fst view))
    by (apply in_map_iff; exists (name, v); auto).
  clear Hin. revert H. generalize (map fst view) Hname.
  induction l as [|n l IH]; intros Hl H; [destruct Hl|]. simpl in H.
  destruct (is_expected n) eqn:En; simpl in H.
  - destruct Hl as [->|Hl]; [auto | exact (IH Hl H)].
  - destruct (String.eqb_spec n "allowedExportsOnCustomViews") as [->|_];
      simpl in H; [|discriminate].
    destruct Hl as [<-|Hl]; [auto | exact (IH Hl H)].
Qed.

(** The static metadata that the memo works on, if any: what was read from
    local storage, else what the query returned without an error. *)
Definition used (data : option StaticAdminMeta) (error : option QueryError)
    (adminMetaFromLocalStorage : option StaticAdminMeta)
    (adminMeta : StaticAdminMeta) : Prop :=
  adminMetaFromLocalStorage = Some adminMeta \/
  (adminMetaFromLocalStorage = None /\ data = Some adminMeta /\ error = None).

Lemma runtimeAdminMeta_inv (data : option StaticAdminMeta) (error : option QueryError)
    (fromLocalStorage : option StaticAdminMeta) (fieldViews : FieldViews)
    (hasWindow : bool) (meta : AdminMeta) (stored : option StaticAdminMeta) :
  runtimeAdminMeta data error fromLocalStorage fieldViews hasWindow
    = Done (Some meta, stored) ->
  exists adminMeta,
    used data error fromLocalStorage adminMeta /\
    forEach (listMeta fieldViews) (sm_lists adminMeta) [] = Done (am_lists meta).
Proof.
  unfold runtimeAdminMeta, used.
  destruct fromLocalStorage as [m|]; [|destruct data as [m|]; [destruct error|]];
    try discriminate; intros H; apply andThen_Done in H;
    destruct H as [lists_ [Hl H]]; injection H as <- _; exists m; auto.
Qed.

Lemma fieldMeta_inv (fieldViews : FieldViews) (listKey : string)
    (field : StaticField) (meta : FieldMeta) :
  fieldMeta fieldViews listKey field = Done meta ->
  exists view label merged,
    nth_error fieldViews (sf_viewsIndex field) = Some view /\
    checkExpected view listKey (sf_path field) = Done tt /\
    checkUnexpected view listKey (sf_path field) = Done tt /\
    export view "controller" = Fun label /\
    callController label
      (mkControllerConfig listKey (sf_fieldMeta field) (sf_label field)
         (sf_description field) (sf_path field) (snd merged))
      = Done (fm_controller meta) /\
    fm_views meta = fst merged /\ fm_static meta = field /\
    match sf_customViewsIndex field with
    | None => merged = (view, [])
    | Some j =>
        exists allowed source,
          setOf (export view "allowedExportsOnCustomViews") = Done allowed /\
          nth_error fieldViews j = Some source /\
          mergeCustomViews allowed listKey (sf_path field) source view = Done merged
    end.
Proof.
  unfold fieldMeta, viewAt. intros H.
  destruct (nth_error fieldViews (sf_viewsIndex field)) as [view|] eqn:Eview;
    [|discriminate].
  simpl in H.
  apply andThen_Done in H. destruct H as [[] [H1 H]].
  apply andThen_Done in H. destruct H as [[] [H2 H]].
  apply andThen_Done in H. destruct H as [merged [Hm H]].
  apply andThen_Done in H. destruct H as [controller [Hc H]].
  injection H as <-. simpl.
  destruct (export view "controller") as [d|label] eqn:Ec; [discriminate|].
  exists view, label, merged. repeat (split; [first [reflexivity | assumption]|]).
  destruct (sf_customViewsIndex field) as [j|].
  - apply andThen_Done in Hm. destruct Hm as [allowed [Ha Hm]].
    apply andThen_Done in Hm. destruct Hm as [source [Hs Hm]].
    destruct (nth_error fieldViews j) as [src|]; [|discriminate].
    injection Hs as ->. exists allowed, source. auto.
  - injection Hm as <-. reflexivity.
Qed.

(** X18. The controller of a field of the runtime metadata is made
    by the [controller] of the view at [viewsIndex], given the field's list
    key, metadata, label, description and path and the custom views. With no
    custom view the views are that view's and there are no custom views;
    with one, the custom views are the exports of the custom view that the
    first view allows, and an allowed export never replaces one of the
    field's views. *)
Theorem controller_comes_from_the_first_view (fieldViews : FieldViews)
    (listKey : string) (field : StaticField) (meta : FieldMeta) :
  fieldMeta fieldViews listKey field = Done meta ->
  exists view label customViews,
    nth_error fieldViews (sf_viewsIndex field) = Some view /\
    export view "controller" = Fun label /\
    callController label
      (mkControllerConfig listKey (sf_fieldMeta field) (sf_label field)
         (sf_description field) (sf_path field) customViews)
      = Done (fm_controller meta) /\
    match sf_customViewsIndex field with
    | None => customViews = [] /\ fm_views meta = view
    | Some j =>
        exists allowed source,
          setOf (export view "allowedExportsOnCustomViews") = Done allowed /\
          nth_error fieldViews j = Some source /\
          (forall name, has_key name customViews = true <->
             has_key name source = true /\ allowed name = true) /\
          (forall name, allowed name = true ->
             lookup name (fm_views meta) = lookup name view) /\
          (forall name, has_key name source = true ->
             allowed name = true \/ is_expected name = true)
    end.
Proof.
  intros H. apply fieldMeta_inv in H.
  destruct H as (view & label & merged & H1 & _ & _ & H4 & H5 & H6 & _ & H8).
  exists view, label, (snd merged). repeat (split; [assumption|]).
  destruct (sf_customViewsIndex field) as [j|].
  - destruct H8 as (allowed & source & Ha & Hs & Hm).
    exists allowed, source. split; [exact Ha|]. split; [exact Hs|].
    apply mergeCustomViews_from in Hm. destruct Hm as (M1 & _ & M3 & M4).
    rewrite H6. simpl in *. split; [|split; [exact M3 | exact M4]].
    intros name. rewrite M1. split; [|auto].
    intros [Hempty|Hyes]; [discriminate | exact Hyes].
  - subst merged. rewrite H6. split; reflexivity.
Qed.

(** X19. The views of a field of the runtime metadata export [Cell],
    [Field], [controller] and [CardValue], and nothing besides these but
    [allowedExportsOnCustomViews]. *)
Theorem views_export_what_is_expected (fieldViews : FieldViews)
    (listKey : string) (field : StaticField) (meta : FieldMeta) :
  fieldMeta fieldViews listKey field = Done meta ->
  (forall name, In name expectedExports -> has_key name (fm_views meta) = true) /\
  (forall name, has_key name (fm_views meta) = true ->
     is_expected name = true \/ name = "allowedExportsOnCustomViews").
Proof.
  intros H. apply fieldMeta_inv in H.
  destruct H as (view & label & merged & H1 & H2 & H3 & _ & _ & H6 & _ & H8).
  pose proof (checkExpected_Done _ _ _ H2) as Hexp.
  pose proof (checkUnexpected_Done _ _ _ H3) as Hunexp.
  rewrite H6. destruct (sf_customViewsIndex field) as [j|].
  - destruct H8 as (allowed & source & _ & _ & Hm).
    apply mergeCustomViews_from in Hm. destruct Hm as (_ & M2 & _). simpl in M2.
    split.
    + intros name Hin. apply M2. left. apply Hexp, Hin.
    + intros name Hkey. apply M2 in Hkey.
      destruct Hkey as [Hkey|(_ & _ & Hkey)]; [apply Hunexp, Hkey | auto].
  - subst merged. simpl. split; [intros name Hin; apply Hexp, Hin | exact Hunexp].
Qed.

Lemma listMeta_inv (fieldViews : FieldViews) (lists_ lists' : Obj ListMeta)
    (list_ : StaticList) :
  listMeta fieldViews lists_ list_ = Done lists' ->
  exists lm,
    lists' = obj_set (sl_key list_) lm lists_ /\
    (lm_static lm = list_ /\
     lm_gqlNames lm = getGqlNames (sl_key list_) (sl_listQueryName list_) /\
     (forall path, has_key path (lm_fields lm) = true <->
        exists field, In field (sl_fields list_) /\ sf_path field = path) /\
     forall path meta, In (path, meta) (lm_fields lm) ->
       exists field, In field (sl_fields list_) /\ sf_path field = path /\
         fieldMeta fieldViews (sl_key list_) field = Done meta).
Proof.
  unfold listMeta. intros H. apply andThen_Done in H.
  destruct H as [fields [Hf H]]. injection H as <-. eexists. split; [reflexivity|].
  simpl. split; [reflexivity|]. split; [reflexivity|].
  eapply (forEach_assigns sf_path
            (fun field meta => fieldMeta fieldViews (sl_key list_) field = Done meta))
    in Hf.
  - destruct Hf as [F1 F2]. split.
    + intros path. rewrite F2. split; [|auto].
      intros [Hempty|Hyes]; [discriminate | exact Hyes].
    + intros path meta Hin. destruct (F1 _ _ Hin) as [[]|Hyes]. exact Hyes.
  - intros acc x acc' Hbody. apply andThen_Done in Hbody.
    destruct Hbody as [meta [Hmeta Hbody]]. injection Hbody as <-.
    exists meta. auto.
Qed.

(** X20. When the memo returns runtime metadata, its lists are the
    keys of the lists of the static metadata it worked on, each with the
    names [getGqlNames] gives for its key and its [listQueryName]; the fields
    of a list are the paths of the fields of a static list of that key, and
    each one is the metadata [fieldMeta] made of a static field of that
    path. *)
Theorem runtime_mirrors_static (data : option StaticAdminMeta)
    (error : option QueryError) (fromLocalStorage : option StaticAdminMeta)
    (fieldViews : FieldViews) (hasWindow : bool) (meta : AdminMeta)
    (stored : option StaticAdminMeta) :
  runtimeAdminMeta data error fromLocalStorage fieldViews hasWindow
    = Done (Some meta, stored) ->
  exists adminMeta,
    used data error fromLocalStorage adminMeta /\
    (forall key, has_key key (am_lists meta) = true <->
       exists list_, In list_ (sm_lists adminMeta) /\ sl_key list_ = key) /\
    forall key lm, In (key, lm) (am_lists meta) ->
      exists list_,
        In list_ (sm_lists adminMeta) /\ sl_key list_ = key /\
        lm_static lm = list_ /\
        lm_gqlNames lm = getGqlNames key (sl_listQueryName list_) /\
        (forall path, has_key path (lm_fields lm) = true <->
           exists field, In field (sl_fields list_) /\ sf_path field = path) /\
        forall path fm, In (path, fm) (lm_fields lm) ->
          exists field, In field (sl_fields list_) /\ sf_path field = path /\
            fieldMeta fieldViews key field = Done fm.
Proof.
  intros H. apply runtimeAdminMeta_inv in H.
  destruct H as [adminMeta [Hused Hlists]]. exists adminMeta. split; [exact Hused|].
  eapply (forEach_assigns sl_key
            (fun list_ lm =>
               lm_static lm = list_ /\
               lm_gqlNames lm = getGqlNames (sl_key list_) (sl_listQueryName list_) /\
               (forall path, has_key path (lm_fields lm) = true <->
                  exists field, In field (sl_fields list_) /\ sf_path field = path) /\
               forall path fm, In (path, fm) (lm_fields lm) ->
                 exists field, In field (sl_fields list_) /\ sf_path field = path /\
                   fieldMeta fieldViews (sl_key list_) field = Done fm))
    in Hlists.
  - destruct Hlists as [L1 L2]. split.
    + intros key. rewrite L2. split; [|auto].
      intros [Hempty|Hyes]; [discriminate | exact Hyes].
    + intros key lm Hin. destruct (L1 _ _ Hin) as [[]|(list_ & Hl & <- & P)].
      exists list_. split; [exact Hl|]. split; [reflexivity|]. exact P.
  - intros acc x acc' Hbody. apply listMeta_inv in Hbody. exact Hbody.
Qed.

(** X21. The memo throws when, for some field of some list of the
    static metadata it works on, there is no view at [viewsIndex], or that
    view lacks one of [Cell], [Field], [controller], [CardValue], or exports
    something else that is not [allowedExportsOnCustomViews]. *)
Theorem invalid_view_is_fatal (data : option StaticAdminMeta)
    (error : option QueryError) (fromLocalStorage : option StaticAdminMeta)
    (fieldViews : FieldViews) (hasWindow : bool) (adminMeta : StaticAdminMeta)
    (list_ : StaticList) (field : StaticField) :
  used data error fromLocalStorage adminMeta ->
  In list_ (sm_lists adminMeta) ->
  In field (sl_fields list_) ->
  match nth_error fieldViews (sf_viewsIndex field) with
  | None => True
  | Some view =>
      (exists name, In name expectedExports /\
         is_undefined (export view name) = true) \/
      (exists name, has_key name view = true /\ is_expected name = false /\
         name <> "allowedExportsOnCustomViews")
  end ->
  failed (runtimeAdminMeta data error fromLocalStorage fieldViews hasWindow) = true.
Proof.
  intros Hused Hlist Hfield Hbad.
  assert (Hf : failed (fieldMeta fieldViews (sl_key list_) field) = true).
  { unfold fieldMeta, viewAt.
    destruct (nth_error fieldViews (sf_viewsIndex field)) as [view|]; [|reflexivity].
    simpl. destruct Hbad as [(name & Hin & Hundef)|(name & Hkey & Hexp & Hne)].
    - apply failed_andThen. unfold checkExpected.
      eapply forEach_failed; [exact Hin|]. intros s'. rewrite Hundef. reflexivity.
    - destruct (checkExpected view (sl_key list_) (sf_path field)); [simpl|reflexivity].
      apply failed_andThen. unfold checkUnexpected.
      apply has_key_In in Hkey. destruct Hkey as [v Hv].
      eapply forEach_failed with (x := name).
      + apply in_map_iff. exists (name, v). auto.
      + intros s'. rewrite Hexp. simpl.
        destruct (String.eqb_spec name "allowedExportsOnCustomViews");
          [congruence | reflexivity]. }
  assert (Hl : forall lists_, failed (listMeta fieldViews lists_ list_) = true).
  { intros lists_. unfold listMeta. apply failed_andThen.
    eapply forEach_failed; [exact Hfield|]. intros s'. apply failed_andThen, Hf. }
  assert (Hall : failed (forEach (listMeta fieldViews) (sm_lists adminMeta) []) = true)
    by (eapply forEach_failed; [exact Hlist | exact Hl]).
  unfold runtimeAdminMeta.
  destruct Hused as [->|(-> & -> & ->)]; apply failed_andThen, Hall.
Qed.

(** X22. What one render of the hook returns, when the memo does not
    throw. It is loading while the server result must be rendered. After
    that it is loaded exactly when the memo made runtime metadata, which it
    does from the metadata read from local storage, whatever the query did,
    or else from the data of the query when there is no error; an error of
    the query is reported only when nothing was read from local storage; and
    it is loading when there is no metadata, no data and no error. The static
    metadata is written to local storage exactly when it came from the query,
    without error, and there is a window. *)
Theorem useAdminMeta_states (mustRenderServerResult : bool)
    (data : option StaticAdminMeta) (error : option QueryError)
    (fromLocalStorage : option StaticAdminMeta) (fieldViews : FieldViews)
    (hasWindow : bool) (runtime : option AdminMeta)
    (stored : option StaticAdminMeta) :
  runtimeAdminMeta data error fromLocalStorage fieldViews hasWindow
    = Done (runtime, stored) ->
  useAdminMeta mustRenderServerResult data error fromLocalStorage fieldViews
    hasWindow
    = Done (useAdminMeta_state mustRenderServerResult runtime error) /\
  (runtime = None <->
     fromLocalStorage = None /\ (data = None \/ error <> None)) /\
  (forall m, stored = Some m <->
     hasWindow = true /\ fromLocalStorage = None /\ data = Some m /\
     error = None) /\
  (mustRenderServerResult = true ->
     useAdminMeta_state mustRenderServerResult runtime error = Loading) /\
  (mustRenderServerResult = false ->
     match useAdminMeta_state mustRenderServerResult runtime error with
     | Loaded value => runtime = Some value
     | ErrorState e => runtime = None /\ error = Some e /\ fromLocalStorage = None
     | Loading => runtime = None /\ error = None /\ data = None /\
                  fromLocalStorage = None
     end).
Proof.
  intros H. split; [unfold useAdminMeta; rewrite H; reflexivity|].
  unfold runtimeAdminMeta in H.
  assert (Hcases :
    (runtime = None <-> fromLocalStorage = None /\ (data = None \/ error <> None)) /\
    (forall m, stored = Some m <->
       hasWindow = true /\ fromLocalStorage = None /\ data = Some m /\ error = None)).
  { destruct fromLocalStorage as [m0|]; [|destruct data as [m0|]; [destruct error|]];
      try (apply andThen_Done in H; destruct H as [lists_ [_ H]]);
      injection H as <- <-; destruct hasWindow; cbn [andb negb is_some];
      (split; [split; [intros E | intros [E1 [E2|E2]]] | intros m; split;
                [intros E | intros (E1 & E2 & E3 & E4)]]);
      try discriminate; try congruence; auto.
    all: try (injection E as <-; auto).
    all: split; [reflexivity | right; discriminate]. }
  destruct Hcases as [Hnone Hstored]. split; [exact Hnone|]. split; [exact Hstored|].
  split.
  - intros ->. reflexivity.
  - intros ->. unfold useAdminMeta_state.
    destruct runtime as [value|]; [reflexivity|].
    destruct (proj1 Hnone eq_refl) as [Hls Hde].
    destruct error as [e|]; [auto|].
    destruct Hde as [Hd|He]; [auto | congruence].
Qed.

End AdminMeta.

Arguments mkFieldMeta {_}.
Arguments fm_static {_}.
Arguments fm_itemView_fieldMode {_}.
Arguments fm_views {_}.
Arguments fm_controller {_}.
Arguments mkListMeta {_}.
Arguments lm_static {_}.
Arguments lm_gqlNames {_}.
Arguments lm_fields {_}.
Arguments mkAdminMeta {_}.
Arguments am_lists {_}.
Arguments Loading {_ _}.
Arguments Loaded {_ _}.
Arguments ErrorState {_ _}.
Arguments fieldMeta {_}.
Arguments listMeta {_}.
Arguments runtimeAdminMeta {_ _}.
Arguments useAdminMeta_state {_ _}.
Arguments useAdminMeta {_ _}.

(** ** An instance

    Two view modules: the views of a text field, which allow a custom view
    to export [Toolbar], and a custom view that replaces [Field] and
    [controller] and exports a [Toolbar]. A controller is the label of the
    function that made it and the path it was made for. *)

Definition ex_callController (label : string) (c : ControllerConfig)
    : attempt (string * string) :=
  if String.eqb label "broken.controller"
  then Failed (ControllerThrew label)
  else Done (label, cc_path c).

Definition ex_textView : FieldView :=
  [("Cell", Fun "text.Cell"); ("Field", Fun "text.Field");
   ("controller", Fun "text.controller"); ("CardValue", Fun "text.CardValue");
   ("allowedExportsOnCustomViews", Data (JArr [JStr "Toolbar"]))].

Definition ex_customView : FieldView :=
  [("Field", Fun "custom.Field"); ("controller", Fun "custom.controller");
   ("Toolbar", Fun "custom.Toolbar")].

Definition ex_fieldViews : FieldViews := [ex_textView; ex_customView].

(** [title] uses the text views with the custom view; [body] uses the custom
    view as its views, which lacks [Cell]. *)
Definition ex_title : StaticField :=
  mkStaticField "title" "Title" None (JObj []) 0 (Some 1) None.

Definition ex_body : StaticField :=
  mkStaticField "body" "Body" None (JObj []) 1 None (Some (Some ModeRead)).

Definition ex_staticMeta : StaticAdminMeta :=
  mkStaticAdminMeta [mkStaticList "Post" "posts" [ex_title]].

Definition ex_staticMeta_invalid : StaticAdminMeta :=
  mkStaticAdminMeta [mkStaticList "Post" "posts" [ex_title; ex_body]].

Definition ex_titleMeta : FieldMeta (string * string) :=
  Eval vm_compute in
    match fieldMeta ex_callController ex_fieldViews "Post" ex_title with
    | Done meta => meta
    | Failed _ => mkFieldMeta ex_title None [] (EmptyString, EmptyString)
    end.

Definition ex_adminMeta : AdminMeta (string * string) :=
  Eval vm_compute in
    match runtimeAdminMeta (QueryError := string) ex_callController ex_getGqlNames
            (Some ex_staticMeta) None None ex_fieldViews true with
    | Done (Some meta, _) => meta
    | _ => mkAdminMeta []
    end.

(** Witness of X18: the custom view of [title] replaces [controller] in its
    views, and the controller of [title] is the one of the text views. *)
Lemma controller_witness :
  fieldMeta ex_callController ex_fieldViews "Post" ex_title = Done ex_titleMeta /\
  lookup "controller" (fm_views ex_titleMeta) = Some (Fun "custom.controller") /\
  exists customViews,
    ex_callController "text.controller"
      (mkControllerConfig "Post" (JObj []) "Title" None "title" customViews)
      = Done (fm_controller ex_titleMeta).
Proof.
  split; [reflexivity|]. split; [reflexivity|].
  edestruct controller_comes_from_the_first_view
    with (callController := ex_callController) (fieldViews := ex_fieldViews)
         (listKey := "Post") (field := ex_title) (meta := ex_titleMeta)
    as (view & label & customViews & Hview & Hlabel & Hcall & _);
    [reflexivity|].
  injection Hview as <-. injection Hlabel as <-.
  exists customViews. exact Hcall.
Defined.

(** Witness of X19. *)
Lemma views_export_witness :
  fieldMeta ex_callController ex_fieldViews "Post" ex_title = Done ex_titleMeta /\
  forall name, In name expectedExports -> has_key name (fm_views ex_titleMeta) = true.
Proof.
  split; [reflexivity|].
  edestruct views_export_what_is_expected
    with (callController := ex_callController) (fieldViews := ex_fieldViews)
         (listKey := "Post") (field := ex_title) (meta := ex_titleMeta)
    as [Hexpected _]; [reflexivity | exact Hexpected].
Defined.

(** Witness of X20: the runtime metadata made from the result of the query
    has the list [Post], and nothing else. *)
Lemma runtime_mirrors_witness :
  runtimeAdminMeta (QueryError := string) ex_callController ex_getGqlNames
    (Some ex_staticMeta) None None ex_fieldViews true
    = Done (Some ex_adminMeta, Some ex_staticMeta) /\
  forall key, has_key key (am_lists ex_adminMeta) = true <-> "Post" = key.
Proof.
  split; [reflexivity|].
  edestruct runtime_mirrors_static
    with (QueryError := string) (callController := ex_callController)
         (getGqlNames := ex_getGqlNames)
         (data := Some ex_staticMeta) (error := @None string)
         (fromLocalStorage := @None StaticAdminMeta)
         (fieldViews := ex_fieldViews) (hasWindow := true) (meta := ex_adminMeta)
    as (adminMeta & Hused & Hkeys & _); [reflexivity|].
  destruct Hused as [Hused|(_ & Hused & _)]; [discriminate Hused|].
  injection Hused as <-. intros key. rewrite (Hkeys key). split.
  - intros (list_ & [<-|[]] & Hkey). exact Hkey.
  - intros <-. eexists. split; [left; reflexivity | reflexivity].
Defined.

(** Witness of X21: [body] takes the custom view for its views, which has no
    [Cell]; no metadata is made, for [title] neither. *)
Lemma invalid_view_witness :
  failed (runtimeAdminMeta (QueryError := string) ex_callController ex_getGqlNames
            (Some ex_staticMeta_invalid) None None ex_fieldViews true) = true.
Proof.
  eapply invalid_view_is_fatal
    with (adminMeta := ex_staticMeta_invalid) (field := ex_body);
    [ right; repeat split; reflexivity
    | left; reflexivity
    | right; left; reflexivity
    | left; exists "Cell"; split; [left; reflexivity | reflexivity] ].
Defined.

(** Witness of X22: with metadata in local storage and a failed query, the
    hook is loaded and writes nothing. *)
Lemma useAdminMeta_witness :
  useAdminMeta ex_callController ex_getGqlNames false None (Some "network error")
    (Some ex_staticMeta) ex_fieldViews true
  = Done (Loaded ex_adminMeta).
Proof.
  edestruct useAdminMeta_states
    with (callController := ex_callController) (getGqlNames := ex_getGqlNames)
         (mustRenderServerResult := false) (data := @None StaticAdminMeta)
         (error := Some "network error") (fromLocalStorage := Some ex_staticMeta)
         (fieldViews := ex_fieldViews) (hasWindow := true)
         (runtime := Some ex_adminMeta) (stored := @None StaticAdminMeta)
    as (Hstate & _); [reflexivity | exact Hstate].
Defined.
